(** * Budget tracker: CSV codec, record store, derivation and aggregation

    A shallow embedding of the data-handling core of the budget tracker
    ([public/js/app.js] and [utils/dataHelpers.js]) together with the
    properties of its specification.

    Conventions of the embedding.
    - A JavaScript string is a [string] of code units below 256 (Latin-1).
    - A JavaScript number is idealised as an exact rational, plus [NaN] and
      the two infinities; rounding, overflow and the sign of zero are not
      represented.  What is stated of a sum therefore follows the order in
      which the code adds, and holds of the rounded arithmetic as well;
      where the rounding itself matters, the numbers are those of
      [Binary64], the binary floating point of the platform.
    - A JavaScript object used as a record is a finite map from property
      names to values ([gmap string jsval]); an array is a [list].
    - The Luxon date library and [localeCompare] are platform services and
      enter as interfaces. *)

From Stdlib Require Import ZArith QArith Qcanon Qround String Ascii List Lia.
From Stdlib Require Import Floats.SpecFloat.
From stdpp Require Import base numbers option list gmap strings sorting.

Local Open Scope string_scope.
Local Open Scope list_scope.
Local Open Scope Z_scope.

(** ** JavaScript strings *)

Module JsString.

Definition code (c : ascii) : N := N_of_ascii c.

(** WhiteSpace and LineTerminator code units below 256: TAB, LF, VT, FF, CR,
    SP and NBSP.  These are what [String.prototype.trim] strips. *)
Definition is_ws (c : ascii) : bool :=
  let n := code c in
  ((9 <=? n) && (n <=? 13))%N || (n =? 32)%N || (n =? 160)%N.

Fixpoint trimStart (s : string) : string :=
  match s with
  | String c r => if is_ws c then trimStart r else s
  | EmptyString => EmptyString
  end.

Fixpoint trimEnd (s : string) : string :=
  match s with
  | String c r =>
      match trimEnd r with
      | EmptyString => if is_ws c then EmptyString else String c EmptyString
      | r' => String c r'
      end
  | EmptyString => EmptyString
  end.

Definition trim (s : string) : string := trimEnd (trimStart s).

(** [s.split(sep)] for a one-character separator: never the empty list. *)
Fixpoint split (sep : ascii) (s : string) : list string :=
  match s with
  | EmptyString => [EmptyString]
  | String c r =>
      if Ascii.eqb c sep then EmptyString :: split sep r
      else match split sep r with
           | h :: t => String c h :: t
           | [] => [String c EmptyString]
           end
  end.

Definition LF : ascii := ascii_of_N 10.
Definition CR : ascii := ascii_of_N 13.

(** [s.split(/\r?\n/)]: a line ends at LF or at CR LF; a CR alone is kept. *)
Fixpoint splitLines (s : string) : list string :=
  match s with
  | EmptyString => [EmptyString]
  | String c r =>
      let keep :=
        match splitLines r with
        | h :: t => String c h :: t
        | [] => [String c EmptyString]
        end in
      if Ascii.eqb c LF then EmptyString :: splitLines r
      else if Ascii.eqb c CR then
        match r with
        | String c' r' =>
            if Ascii.eqb c' LF then EmptyString :: splitLines r' else keep
        | EmptyString => keep
        end
      else keep
  end.

(** [a.join(sep)] on strings. *)
Fixpoint join (sep : string) (l : list string) : string :=
  match l with
  | [] => EmptyString
  | [x] => x
  | x :: r => x ++ sep ++ join sep r
  end.

(** [toLowerCase] on Latin-1: A-Z, and the accented capitals 192-222 but
    for the multiplication sign 215. *)
Definition lower (c : ascii) : ascii :=
  let n := code c in
  if ((65 <=? n) && (n <=? 90))%N then ascii_of_N (n + 32)
  else if ((192 <=? n) && (n <=? 222) && negb (n =? 215))%N
       then ascii_of_N (n + 32)
  else c.

Fixpoint toLowerCase (s : string) : string :=
  match s with
  | String c r => String (lower c) (toLowerCase r)
  | EmptyString => EmptyString
  end.

(** [s.startsWith(p)] *)
Fixpoint startsWith (p s : string) : bool :=
  match p, s with
  | EmptyString, _ => true
  | String a p', String b s' => Ascii.eqb a b && startsWith p' s'
  | String _ _, EmptyString => false
  end.

(** [s.includes(p)] *)
Fixpoint includes (p s : string) : bool :=
  startsWith p s ||
  match s with
  | String _ r => includes p r
  | EmptyString => false
  end.

(** Case folding of a regular expression with the [i] flag and no [u] flag,
    as far as it concerns a pattern of ASCII letters: only the two ASCII
    cases of a letter match it. *)
Definition fold_ascii (c : ascii) : ascii :=
  let n := code c in
  if ((65 <=? n) && (n <=? 90))%N then ascii_of_N (n + 32) else c.

Fixpoint fold_case (s : string) : string :=
  match s with
  | String c r => String (fold_ascii c) (fold_case r)
  | EmptyString => EmptyString
  end.

(** [/p/i.test(s)] for a pattern [p] of lower-case ASCII letters. *)
Definition test_ci (p s : string) : bool := includes p (fold_case s).

End JsString.

Example trim_example : JsString.trim "  a b  " = "a b".
Proof. reflexivity. Qed.

Example split_example :
  JsString.split "," "a,,b," = ["a"; ""; "b"; ""].
Proof. reflexivity. Qed.

Example splitLines_example :
  JsString.splitLines (String "a" (String JsString.CR (String JsString.LF "b")))
  = ["a"; "b"].
Proof. reflexivity. Qed.

(** ** JavaScript numbers *)

Module JsNum.

Inductive jsnum : Type :=
  | NaN
  | PInf
  | NInf
  | Fin (q : Qc).

#[global] Instance jsnum_eq_dec : EqDecision jsnum.
Proof. solve_decision. Defined.

Definition ofZ (z : Z) : jsnum := Fin (Q2Qc (inject_Z z)).
Definition zero : jsnum := ofZ 0.

Definition isNaN (a : jsnum) : bool :=
  match a with NaN => true | _ => false end.

(** ToBoolean on a number: [NaN] and zero are falsy. *)
Definition truthy (a : jsnum) : bool :=
  match a with
  | NaN => false
  | Fin q => negb (bool_decide (q = 0%Qc))
  | _ => true
  end.

Definition add (a b : jsnum) : jsnum :=
  match a, b with
  | NaN, _ | _, NaN => NaN
  | PInf, NInf | NInf, PInf => NaN
  | PInf, _ | _, PInf => PInf
  | NInf, _ | _, NInf => NInf
  | Fin x, Fin y => Fin (x + y)%Qc
  end.

Definition neg (a : jsnum) : jsnum :=
  match a with
  | NaN => NaN
  | PInf => NInf
  | NInf => PInf
  | Fin x => Fin (- x)%Qc
  end.

Definition sub (a b : jsnum) : jsnum := add a (neg b).

(** [Math.abs] *)
Definition abs (a : jsnum) : jsnum :=
  match a with
  | NaN => NaN
  | PInf | NInf => PInf
  | Fin x => Fin (if bool_decide (x < 0)%Qc then - x else x)%Qc
  end.

(** [a / b] *)
Definition div (a b : jsnum) : jsnum :=
  match a, b with
  | NaN, _ | _, NaN => NaN
  | (PInf | NInf), (PInf | NInf) => NaN
  | PInf, Fin y => if bool_decide (y < 0)%Qc then NInf else PInf
  | NInf, Fin y => if bool_decide (y < 0)%Qc then PInf else NInf
  | Fin _, (PInf | NInf) => zero
  | Fin x, Fin y =>
      if bool_decide (y = 0%Qc) then
        if bool_decide (x = 0%Qc) then NaN
        else if bool_decide (x < 0)%Qc then NInf else PInf
      else Fin (x / y)%Qc
  end.

(** [a < b]; every comparison with [NaN] is false. *)
Definition ltb (a b : jsnum) : bool :=
  match a, b with
  | NaN, _ | _, NaN => false
  | _, NInf => false
  | NInf, _ => true
  | PInf, _ => false
  | _, PInf => true
  | Fin x, Fin y => bool_decide (x < y)%Qc
  end.

(** [a === b] on numbers *)
Definition eqb (a b : jsnum) : bool :=
  match a, b with
  | NaN, _ | _, NaN => false
  | PInf, PInf | NInf, NInf => true
  | Fin x, Fin y => bool_decide (x = y)
  | _, _ => false
  end.

Definition gtb (a b : jsnum) : bool := ltb b a.
Definition leb (a b : jsnum) : bool := ltb a b || eqb a b.
Definition geb (a b : jsnum) : bool := ltb b a || eqb a b.

(** [Math.round]: the nearest integer, halves towards plus infinity. *)
Definition round (a : jsnum) : jsnum :=
  match a with
  | Fin x => ofZ (Qfloor (x + Q2Qc (1 # 2))%Qc)
  | _ => a
  end.

(** [Math.max(...l)] and [Math.min(...l)] *)
Definition max2 (a b : jsnum) : jsnum :=
  match a, b with
  | NaN, _ | _, NaN => NaN
  | _, _ => if ltb a b then b else a
  end.

Definition min2 (a b : jsnum) : jsnum :=
  match a, b with
  | NaN, _ | _, NaN => NaN
  | _, _ => if ltb b a then b else a
  end.

Definition max (l : list jsnum) : jsnum := fold_left max2 l NInf.
Definition min (l : list jsnum) : jsnum := fold_left min2 l PInf.

(** [l.reduce((s, x) => s + x, 0)] *)
Definition sum (l : list jsnum) : jsnum := fold_left add l zero.

End JsNum.

Export JsNum(jsnum, NaN, PInf, NInf, Fin).

Example round_half_up : JsNum.round (Fin (Q2Qc (5 # 2))) = JsNum.ofZ 3.
Proof. by apply (bool_decide_unpack _). Qed.

Example round_negative_half :
  JsNum.round (Fin (Q2Qc (- 5 # 2))) = JsNum.ofZ (-2).
Proof. by apply (bool_decide_unpack _). Qed.

(** ** Conversions between strings and numbers *)

Module JsConv.
Import JsString JsNum.

Definition is_digit (c : ascii) : bool :=
  ((48 <=? code c) && (code c <=? 57))%N.

(** The value of a digit in base 16, when it is one. *)
Definition hex_val (c : ascii) : option N :=
  let n := code c in
  if ((48 <=? n) && (n <=? 57))%N then Some (n - 48)%N
  else if ((97 <=? n) && (n <=? 102))%N then Some (n - 87)%N
  else if ((65 <=? n) && (n <=? 70))%N then Some (n - 55)%N
  else None.

Definition digit_in (base : N) (c : ascii) : option N :=
  match hex_val c with
  | Some d => if (d <? base)%N then Some d else None
  | None => None
  end.

(** Reads the longest run of digits of the base at the head of [s]: the
    value read, the number of digits and what follows them. *)
Fixpoint read_digits (base acc : N) (cnt : nat) (s : string)
  : N * nat * string :=
  match s with
  | String c r =>
      match digit_in base c with
      | Some d => read_digits base (acc * base + d)%N (S cnt) r
      | None => (acc, cnt, s)
      end
  | EmptyString => (acc, cnt, s)
  end.

Definition read_sign (s : string) : bool * string :=
  match s with
  | String c r =>
      if Ascii.eqb c "-" then (true, r)
      else if Ascii.eqb c "+" then (false, r)
      else (false, s)
  | EmptyString => (false, s)
  end.

(** The fraction after the digits before the point, when there is one. *)
Definition read_fraction (s : string) : N * nat * string :=
  match s with
  | String c r => if Ascii.eqb c "." then read_digits 10 0 0 r else (0%N, O, s)
  | EmptyString => (0%N, O, s)
  end.

(** Ten to the power [k], as a denominator. *)
Fixpoint pow10 (k : nat) : positive :=
  match k with
  | O => 1%positive
  | S k' => (10 * pow10 k')%positive
  end.

(** The decimal fraction [m / 10^k]. *)
Definition dec (m : Z) (k : nat) : Qc := Q2Qc (m # pow10 k).

(** A whole string of digits of a base other than ten, after its prefix. *)
Definition parse_radix (base : N) (s : string) : jsnum :=
  match read_digits base 0 0 s with
  | (v, S _, EmptyString) => ofZ (Z.of_N v)
  | _ => NaN
  end.

(** The optional exponent part: [None] when it is malformed. *)
Definition read_exponent (s : string) : option (Z * string) :=
  match s with
  | String c r =>
      if Ascii.eqb c "e" || Ascii.eqb c "E" then
        let '(eneg, r1) := read_sign r in
        match read_digits 10 0 0 r1 with
        | (_, O, _) => None
        | (v, S _, r2) =>
            Some (if eneg then (- Z.of_N v)%Z else Z.of_N v, r2)
        end
      else Some (0%Z, s)
  | EmptyString => Some (0%Z, s)
  end.

(** StrDecimalLiteral: an optional sign, then [Infinity] or digits with an
    optional fraction and exponent.  The digits [i] before the point, the
    [nf] digits [f] after it and the exponent [e] denote
    [(i * 10^nf + f) * 10^e / 10^nf]. *)
Definition parse_decimal (s : string) : jsnum :=
  let '(sneg, s1) := read_sign s in
  if String.eqb s1 "Infinity" then (if sneg then NInf else PInf)
  else
    let '(i, ni, s2) := read_digits 10 0 0 s1 in
    let '(f, nf, s3) := read_fraction s2 in
    match ni, nf with
    | O, O => NaN
    | _, _ =>
        match read_exponent s3 with
        | Some (e, EmptyString) =>
            let m := ((Z.of_N i * Zpos (pow10 nf) + Z.of_N f)
                      * Zpos (pow10 (Z.to_nat e)))%Z in
            Fin (dec (if sneg then - m else m) (nf + Z.to_nat (- e)))
        | _ => NaN
        end
    end.

(** The base that the letter after a leading zero announces. *)
Definition radixOf (c : ascii) : option N :=
  if Ascii.eqb c "x" || Ascii.eqb c "X" then Some 16%N
  else if Ascii.eqb c "o" || Ascii.eqb c "O" then Some 8%N
  else if Ascii.eqb c "b" || Ascii.eqb c "B" then Some 2%N
  else None.

(** [Number(s)] on a string (StringToNumber). *)
Definition ofString (s : string) : jsnum :=
  match trim s with
  | EmptyString => zero
  | String c0 (String c r) as t =>
      match (if Ascii.eqb c0 "0" then radixOf c else None) with
      | Some base => parse_radix base r
      | None => parse_decimal t
      end
  | t => parse_decimal t
  end.

Definition digit_char (d : N) : ascii := ascii_of_N (48 + d).

(** The decimal digits of a natural number, most significant first. *)
Fixpoint digits_of (fuel : nat) (n : N) (acc : string) : string :=
  let acc' := String (digit_char (n mod 10)) acc in
  match fuel with
  | O => acc'
  | S fuel' =>
      if (n / 10 =? 0)%N then acc' else digits_of fuel' (n / 10) acc'
  end.

Definition N_to_string (n : N) : string :=
  digits_of (N.to_nat (N.size n)) n EmptyString.

(** The digits after the point of [rem / den], [rem < den], by long
    division, as long as the remainder is not zero and fuel remains. *)
Fixpoint frac_digits (fuel : nat) (rem den : N) : string :=
  match fuel with
  | O => EmptyString
  | S fuel' =>
      let r10 := (rem * 10)%N in
      String (digit_char (r10 / den))
        (if (r10 mod den =? 0)%N then EmptyString
         else frac_digits fuel' (r10 mod den) den)
  end.

(** A rational in decimal notation: the sign, the integer part, and the
    fraction when there is one. *)
Definition Qc_to_string (q : Qc) : string :=
  let num := Qnum q in
  let den := Npos (Qden q) in
  let a := Z.abs_N num in
  ((if (num <? 0)%Z then "-" else "")
   ++ N_to_string (a / den)
   ++ (if (a mod den =? 0)%N then ""
       else "." ++ frac_digits (N.to_nat (N.size den)) (a mod den) den))%string.

(** [String(n)] on a number, without the exponent notation that very large
    and very small magnitudes take. *)
Definition toString (a : jsnum) : string :=
  match a with
  | NaN => "NaN"
  | PInf => "Infinity"
  | NInf => "-Infinity"
  | Fin q => Qc_to_string q
  end.

End JsConv.

Example ofString_12_50 :
  JsConv.ofString "12.50" = Fin (Q2Qc (25 # 2)).
Proof. by apply (bool_decide_unpack _). Qed.

Example ofString_examples :
  JsConv.ofString " -1.5e2 " = JsNum.ofZ (-150)
  /\ JsConv.ofString "0x1F" = JsNum.ofZ 31
  /\ JsConv.ofString "" = JsNum.zero
  /\ JsConv.ofString "abc" = NaN
  /\ JsConv.ofString "1,5" = NaN
  /\ JsConv.ofString "." = NaN
  /\ JsConv.ofString "1." = JsNum.ofZ 1
  /\ JsConv.ofString ".5" = Fin (Q2Qc (1 # 2))
  /\ JsConv.ofString "-Infinity" = NInf
  /\ JsConv.ofString "12abc" = NaN.
Proof. repeat split; by apply (bool_decide_unpack _). Qed.

Example toString_examples :
  JsConv.toString (Fin (Q2Qc (25 # 2))) = "12.5"
  /\ JsConv.toString (JsNum.ofZ (-1200)) = "-1200"
  /\ JsConv.toString (JsNum.ofZ 0) = "0"
  /\ JsConv.toString (Fin (Q2Qc (1 # 1000))) = "0.001"
  /\ JsConv.toString (JsNum.ofZ 1700000000000) = "1700000000000".
Proof. repeat split; reflexivity. Qed.

(** ** JavaScript values and records *)

Module JsVal.
Import JsString JsNum.

Inductive jsval : Type :=
  | VUndef
  | VNull
  | VStr (s : string)
  | VNum (n : jsnum).

#[global] Instance jsval_eq_dec : EqDecision jsval.
Proof. solve_decision. Defined.

(** ToBoolean *)
Definition truthy (v : jsval) : bool :=
  match v with
  | VUndef | VNull => false
  | VStr s => negb (String.eqb s "")
  | VNum n => JsNum.truthy n
  end.

(** [a || b] *)
Definition or (a b : jsval) : jsval := if truthy a then a else b.

(** [a ?? b] *)
Definition nullish (a b : jsval) : jsval :=
  match a with
  | VUndef | VNull => b
  | _ => a
  end.

(** [Number(v)] *)
Definition toNumber (v : jsval) : jsnum :=
  match v with
  | VUndef => NaN
  | VNull => zero
  | VStr s => JsConv.ofString s
  | VNum n => n
  end.

(** [String(v)] *)
Definition toString (v : jsval) : string :=
  match v with
  | VUndef => "undefined"
  | VNull => "null"
  | VStr s => s
  | VNum n => JsConv.toString n
  end.

(** [typeof v === 'number'] *)
Definition is_number (v : jsval) : bool :=
  match v with VNum _ => true | _ => false end.

(** [o.k]: a missing property reads as [undefined]. *)
Definition get (o : gmap string jsval) (k : string) : jsval :=
  default VUndef (o !! k).

(** [JSON.parse(JSON.stringify(v))] on a property value: a property that
    holds [undefined] is left out, a number that is not finite becomes
    [null]. *)
Definition json_value (v : jsval) : option jsval :=
  match v with
  | VUndef => None
  | VNum (Fin q) => Some v
  | VNum _ => Some VNull
  | _ => Some v
  end.

Definition json_record (o : gmap string jsval) : gmap string jsval :=
  omap json_value o.

(** The deep copy [JSON.parse(JSON.stringify(l))] of an array of records. *)
Definition json_clone (l : list (gmap string jsval))
  : list (gmap string jsval) :=
  map json_record l.

(** A value that the JSON copy returns as it is. *)
Definition json_safe (v : jsval) : Prop := json_value v = Some v.

Definition json_safe_record (o : gmap string jsval) : Prop :=
  map_Forall (fun _ v => json_safe v) o.

End JsVal.

Export JsVal(jsval, VUndef, VNull, VStr, VNum).

(** ** The CSV codec ([utils/dataHelpers.js], [saveBillsToCSV]) *)

Module Csv.
Import JsString JsNum JsVal.

(** The body of the [headers.forEach] callback of [parseCSV] for one cell:
    [raw] is the trimmed text of the cell. *)
Definition parseCell (header raw : string) : jsval :=
  if (test_ci "amount" header || test_ci "utilization" header)
     && negb (String.eqb raw "")
  then
    let num := JsConv.ofString raw in
    if isNaN num then VStr raw else VNum num
  else VStr raw.

(** The name under which every plain object reaches its prototype. *)
Definition protoKey : string := "__proto__".

(** [obj[k] = v] on a plain object, for a value that is a text or a
    number.  The key [__proto__] is no property of the object: it reaches
    the accessor of [Object.prototype], whose setter ignores a value that
    is not an object, so nothing is stored. *)
Definition setField (k : string) (v : jsval) (obj : gmap string jsval)
  : gmap string jsval :=
  if String.eqb k protoKey then obj else <[k := v]> obj.

(** [headers.forEach((header, index) => ...)] against the cells of a line:
    a missing cell reads as the empty string, a later header of the same
    name overwrites an earlier one. *)
Fixpoint fillRow (headers values : list string) (obj : gmap string jsval)
  : gmap string jsval :=
  match headers with
  | [] => obj
  | h :: hs =>
      let raw := match values with v :: _ => trim v | [] => "" end in
      fillRow hs (tail values) (setField h (parseCell h raw) obj)
  end.

Definition parseRow (headers : list string) (line : string)
  : gmap string jsval :=
  fillRow headers (split "," line) ∅.

Definition nonblank (l : string) : bool := negb (String.eqb (trim l) "").

(** The lines that [parseCSV] works on. *)
Definition csvLines (text : string) : list string :=
  filter (fun l => nonblank l = true) (splitLines (trim text)).

(** The header names; stripping a byte-order mark after [trim] changes
    nothing, the mark being white space that [trim] has removed. *)
Definition csvHeaders (line : string) : list string :=
  map trim (split "," line).

Definition parseCSV (text : string) : list (gmap string jsval) :=
  if String.eqb text "" then []
  else
    match csvLines text with
    | [] => []
    | h :: rows => map (parseRow (csvHeaders h)) rows
    end.

(** The schema of [saveBillsToCSV], in the order of its header line. *)
Definition billColumns : list string :=
  ["Bill_ID"; "Bill_Name"; "Category"; "Amount_Due"; "Due_Date"; "Paid_Date";
   "Status"; "Recurring"; "Frequency"; "Payment_Method"; "Notes"].

Definition newline : string := String LF EmptyString.

(** [s.replace(/\n/g, ' ')] *)
Fixpoint flattenNewlines (s : string) : string :=
  match s with
  | String c r =>
      String (if Ascii.eqb c LF then " "%char else c) (flattenNewlines r)
  | EmptyString => EmptyString
  end.

(** One entry of the [row] array, as [join] prints it: [b.k ?? ''], and for
    the notes the text with its line feeds replaced by spaces. *)
Definition billField (b : gmap string jsval) (k : string) : string :=
  let s := JsVal.toString (nullish (get b k) (VStr "")) in
  if String.eqb k "Notes" then flattenNewlines s else s.

Definition billLine (b : gmap string jsval) : string :=
  join "," (map (billField b) billColumns).

(** The text [csv] that [saveBillsToCSV] builds and hands to the writer. *)
Definition billsCSV (bills : list (gmap string jsval)) : string :=
  fold_left (fun csv b => (csv ++ billLine b ++ newline)%string) bills
            (join "," billColumns ++ newline)%string.

End Csv.

Example parseCSV_empty : Csv.parseCSV "" = [].
Proof. reflexivity. Qed.

Example billsCSV_header :
  Csv.billsCSV [] =
  ("Bill_ID,Bill_Name,Category,Amount_Due,Due_Date,Paid_Date,Status,Recurring,Frequency,Payment_Method,Notes"
   ++ Csv.newline)%string.
Proof. reflexivity. Qed.

Example parseCSV_amount :
  Csv.parseCSV ("id,amount,note" ++ Csv.newline ++ "7, 12.50 ,x" ++ Csv.newline
                ++ "8,n/a")%string
  = [ {[ "id" := VStr "7"; "amount" := VNum (Fin (Q2Qc (25 # 2)));
         "note" := VStr "x" ]};
      {[ "id" := VStr "8"; "amount" := VStr "n/a"; "note" := VStr "" ]} ].
Proof. apply (bool_decide_unpack _). by vm_compute. Qed.

(** ** The date library *)

Module Luxon.

(** What the program uses of Luxon's [DateTime].  A valid [DateTime] is the
    instant it denotes, in milliseconds; an invalid one is [None]. *)
Class DateLib : Type := {
  (** [DateTime.fromISO(s)] *)
  fromISO : string -> option Z;
  (** [DateTime.fromFormat(s, 'yyyy-MM-dd')] *)
  fromFormat : string -> option Z;
  (** [dt.endOf('month')] *)
  endOfMonth : Z -> Z;
  (** [dt.plus({ months: 1 })] *)
  plusMonth : Z -> Z;
  (** [dt.toISODate()] *)
  toISODate : Z -> string
}.

(** *** An instance: calendar dates written [YYYY-MM-DD], in one zone *)

Definition msPerDay : Z := 86400000.

Definition isLeap (y : Z) : bool :=
  ((y mod 4 =? 0) && negb (y mod 100 =? 0)) || (y mod 400 =? 0).

Definition daysInMonth (y m : Z) : Z :=
  if m =? 2 then (if isLeap y then 29 else 28)
  else if (m =? 4) || (m =? 6) || (m =? 9) || (m =? 11) then 30
  else 31.

(** Days since 1970-01-01 of a date of the proleptic Gregorian calendar. *)
Definition daysFromCivil (y m d : Z) : Z :=
  let y' := if m <=? 2 then y - 1 else y in
  let era := y' / 400 in
  let yoe := y' - era * 400 in
  let doy := (153 * (if 2 <? m then m - 3 else m + 9) + 2) / 5 + d - 1 in
  let doe := yoe * 365 + yoe / 4 - yoe / 100 + doy in
  era * 146097 + doe - 719468.

Definition civilFromDays (z : Z) : Z * Z * Z :=
  let z' := z + 719468 in
  let era := z' / 146097 in
  let doe := z' - era * 146097 in
  let yoe := (doe - doe / 1460 + doe / 36524 - doe / 146096) / 365 in
  let doy := doe - (365 * yoe + yoe / 4 - yoe / 100) in
  let mp := (5 * doy + 2) / 153 in
  let d := doy - (153 * mp + 2) / 5 + 1 in
  let m := if mp <? 10 then mp + 3 else mp - 9 in
  ((yoe + era * 400) + (if m <=? 2 then 1 else 0), m, d).

Definition readField (width : nat) (s : string) : option (Z * string) :=
  match JsConv.read_digits 10 0 0 s with
  | (v, n, r) => if Nat.eqb n width then Some (Z.of_N v, r) else None
  end.

Definition skipDash (s : string) : option string :=
  match s with
  | String "-" r => Some r
  | _ => None
  end.

Definition parseYMD (s : string) : option Z :=
  '(y, r1) ← readField 4 s;
  r2 ← skipDash r1;
  '(m, r3) ← readField 2 r2;
  r4 ← skipDash r3;
  '(d, r5) ← readField 2 r4;
  if String.eqb r5 "" && (1 <=? m) && (m <=? 12) && (1 <=? d)
     && (d <=? daysInMonth y m)
  then Some (daysFromCivil y m d * msPerDay)
  else None.

Definition pad (width : nat) (z : Z) : string :=
  let s := JsConv.N_to_string (Z.to_N z) in
  (string_of_list_ascii (repeat "0"%char (width - String.length s)) ++ s)%string.

Definition civilISODate (t : Z) : string :=
  let '(y, m, d) := civilFromDays (t / msPerDay) in
  (pad 4 y ++ "-" ++ pad 2 m ++ "-" ++ pad 2 d)%string.

Definition civilEndOfMonth (t : Z) : Z :=
  let '(y, m, _) := civilFromDays (t / msPerDay) in
  let '(y', m') := if m =? 12 then (y + 1, 1) else (y, m + 1) in
  daysFromCivil y' m' 1 * msPerDay - 1.

Definition civilPlusMonth (t : Z) : Z :=
  let '(y, m, d) := civilFromDays (t / msPerDay) in
  let '(y', m') := if m =? 12 then (y + 1, 1) else (y, m + 1) in
  daysFromCivil y' m' (Z.min d (daysInMonth y' m')) * msPerDay
  + t mod msPerDay.

Definition Civil : DateLib := {|
  fromISO := parseYMD;
  fromFormat := parseYMD;
  endOfMonth := civilEndOfMonth;
  plusMonth := civilPlusMonth;
  toISODate := civilISODate
|}.

End Luxon.

Example civil_examples :
  Luxon.parseYMD "2024-01-15" = Some 1705276800000
  /\ Luxon.parseYMD "2024-02-30" = None
  /\ Luxon.parseYMD "Jan 15" = None
  /\ Luxon.civilISODate 1705276800000 = "2024-01-15"
  /\ Luxon.civilEndOfMonth 1705276800000 = 1706745599999
  /\ Luxon.civilISODate (Luxon.civilPlusMonth 1704067200000) = "2024-02-01".
Proof. repeat split; reflexivity. Qed.

(** ** The record store and its operations ([public/js/app.js]) *)

Module App.
Import JsString JsNum JsVal Luxon.

(** The five collections of [state.data]. *)
Inductive tab : Type := Bills | Income | Transactions | Categories | Budgets.

#[global] Instance tab_eq_dec : EqDecision tab.
Proof. solve_decision. Defined.

Record data : Type := Data {
  bills : list (gmap string jsval);
  income : list (gmap string jsval);
  transactions : list (gmap string jsval);
  categories : list (gmap string jsval);
  budgets : list (gmap string jsval)
}.

#[global] Instance data_eq_dec : EqDecision data.
Proof. solve_decision. Defined.

(** [state.data[tab]] *)
Definition getTab (t : tab) (d : data) : list (gmap string jsval) :=
  match t with
  | Bills => bills d
  | Income => income d
  | Transactions => transactions d
  | Categories => categories d
  | Budgets => budgets d
  end.

(** [state.data[tab] = l] *)
Definition setTab (t : tab) (l : list (gmap string jsval)) (d : data) : data :=
  match t with
  | Bills => Data l (income d) (transactions d) (categories d) (budgets d)
  | Income => Data (bills d) l (transactions d) (categories d) (budgets d)
  | Transactions => Data (bills d) (income d) l (categories d) (budgets d)
  | Categories => Data (bills d) (income d) (transactions d) l (budgets d)
  | Budgets => Data (bills d) (income d) (transactions d) (categories d) l
  end.

(** The store, the selected month, the undo history (oldest entry first, as
    in the array [undoStack]) and the messages shown by [alert], oldest
    first.  Writing the CSV files and redrawing the tables do not touch any
    of these and are left out. *)
Record state : Type := State {
  store : data;
  currentMonth : string;
  undoStack : list (tab * list (gmap string jsval));
  alerts : list string
}.

#[global] Instance state_eq_dec : EqDecision state.
Proof. solve_decision. Defined.

Definition withStore (d : data) (st : state) : state :=
  State d (currentMonth st) (undoStack st) (alerts st).

Definition withUndo (u : list (tab * list (gmap string jsval))) (st : state)
  : state :=
  State (store st) (currentMonth st) u (alerts st).

Definition alert (msg : string) (st : state) : state :=
  State (store st) (currentMonth st) (undoStack st) (alerts st ++ [msg]).

(** *** Undo *)

Definition pushUndo (t : tab) (st : state) : state :=
  let pushed := undoStack st ++ [(t, json_clone (getTab t (store st)))] in
  withUndo (if (20 <? length pushed)%nat then tail pushed else pushed) st.

(** The tabs whose save function the file defines: [saveBillsToCSV] and
    [saveTransactionsToCSV].  [saveIncomeToCSV], [saveBudgetsToCSV] and
    [saveCategoriesToCSV] are defined nowhere, and a call of one of them
    raises a [ReferenceError]: what stands after the call is not run. *)
Definition saved (t : tab) : bool :=
  match t with
  | Bills | Transactions => true
  | Income | Categories | Budgets => false
  end.

(** [undoLastAction()].  The collection is restored before the save
    function of the tab is called, the message is shown after it. *)
Definition undoLastAction (st : state) : state :=
  match last (undoStack st) with
  | None => alert "Nothing to undo." st
  | Some (t, snapshot) =>
      let restored :=
        withStore (setTab t snapshot (store st))
          (withUndo (removelast (undoStack st)) st) in
      if saved t then alert "Undo complete!" restored else restored
  end.

(** *** Deleting *)

(** [l.findIndex(p)] *)
Fixpoint findIndex {A} (p : A -> bool) (l : list A) : option nat :=
  match l with
  | [] => None
  | x :: r => if p x then Some O else S <$> findIndex p r
  end.

(** [String(i.id) === String(id)] for the id of a table row *)
Definition hasId (key id : string) (o : gmap string jsval) : bool :=
  String.eqb (JsVal.toString (get o key)) id.

Definition deleteRow (t : tab) (id : string) (st : state) : state :=
  let st1 := pushUndo t st in
  match findIndex (hasId "id" id) (getTab t (store st1)) with
  | Some index =>
      withStore (setTab t (delete index (getTab t (store st1))) (store st1)) st1
  | None => st1
  end.

(** [deleteBill(id)]; [ok] is the answer to [confirm('Delete this bill?')]. *)
Definition deleteBill (id : string) (ok : bool) (st : state) : state :=
  if ok then
    withStore
      (setTab Bills
         (filter (fun b => hasId "id" id b = false) (bills (store st)))
         (store st)) st
  else st.

(** The [onclick] of the bulk-delete button of [addBulkActionsUI]: [checked]
    holds the ids of the ticked rows, [ok] is the answer to
    [confirm('Delete selected items?')]. *)
Definition bulkDelete (t : tab) (checked : list string) (ok : bool)
  (st : state) : state :=
  match checked with
  | [] => st
  | _ :: _ =>
      if ok then
        withStore
          (setTab t
             (filter (fun i => JsVal.toString (get i "id") ∉ checked)
                (getTab t (store st)))
             (store st)) st
      else st
  end.

(** *** Quick actions on bills *)

(** [l.find(p)] followed by assignments to the object found: the first
    element that satisfies [p] is changed where it stands. *)
Fixpoint updateFirst {A} (p : A -> bool) (f : A -> A) (l : list A) : list A :=
  match l with
  | [] => []
  | x :: r => if p x then f x :: r else x :: updateFirst p f r
  end.

(** [billsActionMarkPaid(id)]; [todayIso] is [DateTime.now().toISODate()]. *)
Definition billsActionMarkPaid (id todayIso : string) (st : state) : state :=
  withStore
    (setTab Bills
       (updateFirst (hasId "Bill_ID" id)
          (fun b => <["Paid_Date" := VStr todayIso]> (<["Status" := VStr "Paid"]> b))
          (bills (store st)))
       (store st)) st.

End App.

(** ** Derived views and aggregates ([public/js/app.js]) *)

Module Views.
Import JsString JsNum JsVal Luxon App.

(** [Number(v || 0)] *)
Definition numberOr0 (v : jsval) : jsnum := toNumber (or v (VNum zero)).

(** [Number(v || 0) || 0] *)
Definition amountOf (v : jsval) : jsnum :=
  let n := numberOr0 v in if JsNum.truthy n then n else zero.

Section WithDates.
Context {L : DateLib}.

(** [DateTime.fromFormat(ym + '-01', 'yyyy-MM-dd')] *)
Definition monthStart (ym : string) : option Z := fromFormat (ym ++ "-01")%string.

(** [monthStart.endOf('month')] *)
Definition monthEnd (ym : string) : option Z := endOfMonth <$> monthStart ym.

(** [dt.isValid && dt >= monthStart && dt <= monthEnd]; a comparison with an
    invalid [DateTime] is false. *)
Definition inWindow (ym : string) (dt : option Z) : bool :=
  match dt, monthStart ym, monthEnd ym with
  | Some t, Some a, Some b => (a <=? t) && (t <=? b)
  | _, _, _ => false
  end.

(** [s ? DateTime.fromISO(String(s)) : null], [null] also when the result
    is not valid. *)
Definition toDT (v : jsval) : option Z :=
  if truthy v then fromISO (JsVal.toString v) else None.

Definition filterToCurrentMonth (t : tab) (ym : string)
  (items : list (gmap string jsval)) : list (gmap string jsval) :=
  match t with
  | Bills =>
      filter (fun item =>
                inWindow ym (toDT (get item "Due_Date"))
                || inWindow ym (toDT (get item "Paid_Date")) = true) items
  | Income | Transactions =>
      filter (fun item =>
                startsWith ym (JsVal.toString (or (get item "date") (VStr "")))
                = true) items
  | Categories | Budgets => items
  end.

(** The predicate [isOverdue] of [renderBillsList]; [today] is
    [DateTime.now()]. *)
Definition isOverdue (today : Z) (b : gmap string jsval) : bool :=
  let status := toLowerCase (JsVal.toString (or (get b "Status") (VStr ""))) in
  if String.eqb status "overdue" then true
  else if String.eqb status "paid" || String.eqb status "auto-paid" then false
  else match toDT (get b "Due_Date") with
       | Some due => due <? today
       | None => false
       end.

(** *** Dashboard figures *)

Record kpis : Type := Kpis {
  totalIncome : jsnum;
  totalExpenses : jsnum;
  netAmount : jsnum;
  budgetUtilization : jsnum
}.

#[global] Instance kpis_eq_dec : EqDecision kpis.
Proof. solve_decision. Defined.

(** The helper [inMonth] of [updateDashboardKPIs] *)
Definition inMonth (ym : string) (d : jsval) : bool :=
  inWindow ym (fromISO (JsVal.toString d)).

(** The bodies of the two loops of [updateDashboardKPIs], written once for
    every arithmetic: [plus] is [+], [magnitude] is [Math.abs], [nonneg v] is
    [v >= 0], and [amount v] is [Number(v || 0) || 0]. *)
Section Loops.
Context {N : Type} (plus : N -> N -> N) (magnitude : N -> N)
  (nonneg : N -> bool) (amount : jsval -> N).

(** The loop over [state.data.income] *)
Definition incomeLoop (ym : string) (acc : N) (i : gmap string jsval) : N :=
  if inMonth ym (get i "date") then plus acc (amount (get i "amount"))
  else acc.

(** The loop over [state.data.transactions]: the pair is
    [(totalIncome, totalExpenses)]. *)
Definition transactionLoop (ym : string) (acc : N * N)
  (t : gmap string jsval) : N * N :=
  if inMonth ym (get t "date") then
    let v := amount (get t "amount") in
    if nonneg v then (plus (fst acc) v, snd acc)
    else (fst acc, plus (snd acc) (magnitude v))
  else acc.

End Loops.

(** The two loops in the idealised arithmetic *)
Definition incomeStep : string -> jsnum -> gmap string jsval -> jsnum :=
  incomeLoop add amountOf.

Definition transactionStep
  : string -> jsnum * jsnum -> gmap string jsval -> jsnum * jsnum :=
  transactionLoop add abs (fun v => geb v zero) amountOf.

Definition utilizationOf (b : gmap string jsval) : jsnum :=
  let v := numberOr0 (get b "utilization") in
  if isNaN v then zero else v.

Definition countOf {A} (l : list A) : jsnum := ofZ (Z.of_nat (length l)).

(** The figures that [updateDashboardKPIs] computes before it writes them
    into the cards. *)
Definition updateDashboardKPIs (st : state) : kpis :=
  let ym := currentMonth st in
  let fromIncome := fold_left (incomeStep ym) (income (store st)) zero in
  let totals :=
    fold_left (transactionStep ym) (transactions (store st))
      (fromIncome, zero) in
  let utilization :=
    match budgets (store st) with
    | [] => zero
    | bs =>
        round (div (fold_left (fun s b => add s (utilizationOf b)) bs zero)
                   (countOf bs))
    end in
  Kpis (fst totals) (snd totals) (sub (fst totals) (snd totals)) utilization.

(** *** Marking a bill paid *)

(** [dt.toISODate()], [null] for an invalid [DateTime] *)
Definition isoDate (dt : option Z) : jsval :=
  match dt with
  | Some t => VStr (toISODate t)
  | None => VNull
  end.

(** [-Math.abs(Number(bill.Amount_Due ?? bill.amount ?? 0) || 0)] *)
Definition paymentAmount (bill : gmap string jsval) : jsnum :=
  let n :=
    toNumber (nullish (nullish (get bill "Amount_Due") (get bill "amount"))
                (VNum zero)) in
  neg (abs (if JsNum.truthy n then n else zero)).

Definition paymentFor (bill : gmap string jsval) (stamp : Z) (date : jsval)
  (status : string) : gmap string jsval :=
  {[ "id" := VNum (ofZ stamp);
     "date" := date;
     "description" := or (get bill "Bill_Name") (get bill "name");
     "category" := VStr "Bills";
     "amount" := VNum (paymentAmount bill);
     "status" := VStr status ]}.

(** [/^monthly$/i.test(String(bill.Frequency || bill.recurrence || '')) &&
    String(bill.Recurring || 'false').toLowerCase() === 'true'] *)
Definition isMonthly (bill : gmap string jsval) : bool :=
  String.eqb
    (fold_case
       (JsVal.toString
          (or (or (get bill "Frequency") (get bill "recurrence")) (VStr ""))))
    "monthly"
  && String.eqb
       (toLowerCase (JsVal.toString (or (get bill "Recurring") (VStr "false"))))
       "true".

Definition isBill (id : string) (b : gmap string jsval) : bool :=
  String.eqb (JsVal.toString (nullish (get b "Bill_ID") (get b "id"))) id.

Definition setPaid (todayIso : string) (b : gmap string jsval)
  : gmap string jsval :=
  <["Paid_Date" := VStr todayIso]> (<["Status" := VStr "Paid"]> b).

(** [markBillPaid(id)].  [todayIso] is [DateTime.now().toISODate()], [stamp]
    and [stamp'] are the two readings of [Date.now()], and [ok] is the answer
    to [confirm('Create a pending entry for next month?')]. *)
Definition markBillPaid (id todayIso : string) (stamp stamp' : Z) (ok : bool)
  (st : state) : state :=
  match find (isBill id) (bills (store st)) with
  | None => st
  | Some bill =>
      let start := monthStart (currentMonth st) in
      let paid := transactions (store st) ++ [paymentFor bill stamp (isoDate start) "Paid"] in
      let bills' := updateFirst (isBill id) (setPaid todayIso) (bills (store st)) in
      let bill' := setPaid todayIso bill in
      let txs :=
        if isMonthly bill' && ok
        then paid ++ [paymentFor bill' (stamp' + 1)
                        (isoDate (plusMonth <$> start)) "Pending"]
        else paid in
      withStore (setTab Transactions txs (setTab Bills bills' (store st))) st
  end.

End WithDates.

(** *** Summary statistics *)

Record amountStats : Type := Stats {
  total : jsnum;
  average : jsnum;
  maximum : jsnum;
  minimum : jsnum
}.

#[global] Instance amountStats_eq_dec : EqDecision amountStats.
Proof. solve_decision. Defined.

(** The list that [data.map(i => Number(i.amount || 0))] builds *)
Definition amounts (items : list (gmap string jsval)) : list jsnum :=
  map (fun i => numberOr0 (get i "amount")) items.

(** What [renderAnalytics] puts into the analytics bar: nothing for an empty
    list; otherwise the count, and the four figures when the columns include
    [amount]. *)
Definition renderAnalytics (columns : list string)
  (items : list (gmap string jsval)) : option (option amountStats * nat) :=
  match items with
  | [] => None
  | _ :: _ =>
      Some (if bool_decide ("amount" ∈ columns) then
              let t := JsNum.sum (amounts items) in
              Some (Stats t (div t (countOf items))
                      (JsNum.max (amounts items)) (JsNum.min (amounts items)))
            else None,
            length items)
  end.

(** *** Sorting *)

(** [String.prototype.localeCompare]: negative, zero or positive. *)
Class Collator : Type := { localeCompare : string -> string -> Z }.

(** Comparison of code units, one collation among many. *)
Fixpoint codeUnitCompare (a b : string) : Z :=
  match a, b with
  | EmptyString, EmptyString => 0
  | EmptyString, String _ _ => -1
  | String _ _, EmptyString => 1
  | String x a', String y b' =>
      if (code x <? code y)%N then -1
      else if (code y <? code x)%N then 1
      else codeUnitCompare a' b'
  end.

Definition CodeUnits : Collator := {| localeCompare := codeUnitCompare |}.

Section Sorting.
Context {C : Collator}.

(** The comparison function that [multiColumnSort] hands to [sort]. *)
Fixpoint compareKeys (sortKeys : list (string * string))
  (a b : gmap string jsval) : jsnum :=
  match sortKeys with
  | [] => zero
  | (key, dir) :: rest =>
      let cmp :=
        if is_number (get a key)
        then sub (toNumber (get a key)) (toNumber (get b key))
        else ofZ (localeCompare (JsVal.toString (get a key))
                                (JsVal.toString (get b key))) in
      if negb (JsNum.eqb cmp zero)
      then (if String.eqb dir "asc" then cmp else neg cmp)
      else compareKeys rest a b
  end.

(** [Array.prototype.sort(cmp)]: a stable sort; [x] moves behind [y] when
    [cmp(x, y) > 0], and a result that is [NaN] counts as zero. *)
Definition goesAfter {A} (cmp : A -> A -> jsnum) (x y : A) : bool :=
  ltb zero (cmp x y).

Fixpoint insertSorted {A} (cmp : A -> A -> jsnum) (x : A) (l : list A)
  : list A :=
  match l with
  | [] => [x]
  | y :: r => if goesAfter cmp x y then y :: insertSorted cmp x r else x :: l
  end.

Definition sortWith {A} (cmp : A -> A -> jsnum) (l : list A) : list A :=
  foldr (insertSorted cmp) [] l.

Definition multiColumnSort (items : list (gmap string jsval))
  (sortKeys : list (string * string)) : list (gmap string jsval) :=
  sortWith (compareKeys sortKeys) items.

End Sorting.

End Views.

(** ** The dashboard totals in the arithmetic of the platform *)

Module Binary64.
Import JsNum JsVal Luxon App Views.

(** A number as the platform holds it: a binary floating point number
    with 53 bits of precision (IEEE 754 binary64). *)
Definition double : Type := spec_float.
Definition prec : Z := 53.
Definition emax : Z := 1024.

#[global] Instance double_eq_dec : EqDecision double.
Proof. solve_decision. Defined.

Definition zero : double := S754_zero false.

(** [a + b]: the sum, rounded to the nearest double, ties to even *)
Definition add (a b : double) : double := SFadd prec emax a b.

(** [Math.abs] *)
Definition abs (a : double) : double := SFabs a.

(** [a >= b] and [a < b]; false when one of the two is [NaN] *)
Definition geb (a b : double) : bool := SFleb b a.
Definition ltb (a b : double) : bool := SFltb a b.

(** ToBoolean on a number: [NaN] and the two zeros are falsy. *)
Definition truthy (a : double) : bool :=
  match a with
  | S754_nan | S754_zero _ => false
  | _ => true
  end.

(** The double that stands for a number of the idealised arithmetic: the
    nearest one, ties to even, which is what [Number] reads from a decimal
    text.  The quotient is taken to 64 bits or more, and a remainder is
    kept as a last bit that is set, so that the rounding to 53 bits sees
    it. *)
Definition nearest (n : jsnum) : double :=
  match n with
  | NaN => S754_nan
  | PInf => S754_infinity false
  | NInf => S754_infinity true
  | Fin q =>
      let num := Qnum q in
      let den := Zpos (Qden q) in
      if num =? 0 then zero
      else
        let a := Z.abs num in
        let k := Z.max 0 (Z.log2 den + 64 - Z.log2 a) in
        let scaled := a * 2 ^ k in
        let sticky := if scaled mod den =? 0 then 0 else 1 in
        binary_normalize prec emax
          (Z.sgn num * Z.lor (scaled / den) sticky) (- k) false
  end.

(** [l.reduce((s, x) => s + x, 0)] *)
Definition sum (l : list double) : double := fold_left add l zero.

(** [Number(v || 0) || 0] *)
Definition amountOf (v : jsval) : double :=
  let n := nearest (numberOr0 v) in if truthy n then n else zero.

Section WithDates.
Context {L : DateLib}.

(** The two loops of [updateDashboardKPIs] in the arithmetic of the
    platform *)
Definition incomeStep : string -> double -> gmap string jsval -> double :=
  incomeLoop add amountOf.

Definition transactionStep
  : string -> double * double -> gmap string jsval -> double * double :=
  transactionLoop add abs (fun v => geb v zero) amountOf.

(** [totalIncome] and [totalExpenses] as [updateDashboardKPIs] computes
    them. *)
Definition totals (st : state) : double * double :=
  let ym := currentMonth st in
  let fromIncome := fold_left (incomeStep ym) (income (store st)) zero in
  fold_left (transactionStep ym) (transactions (store st)) (fromIncome, zero).

End WithDates.

End Binary64.

(** ** Forms and import ([public/js/app.js]) *)

Module Forms.
Import JsString JsNum JsVal Csv App.

(** [o.k = v] for each pair in turn *)
Definition assign (o : gmap string jsval) (fields : list (string * jsval))
  : gmap string jsval :=
  fold_left (fun o kv => <[kv.1 := kv.2]> o) fields o.

(** The body that the five [submit] handlers of the forms share.  [fields]
    are the values read from the inputs, [editId] is
    [this.getAttribute('data-edit-id')] and [newId] is [Date.now()].  The
    snapshot for undo is taken after the change. *)
Definition submitForm (t : tab) (label : string)
  (fields : list (string * jsval)) (editId : jsval) (newId : Z) (st : state)
  : state :=
  let items := getTab t (store st) in
  let st1 :=
    if truthy editId then
      alert (label ++ " updated!")
        (withStore
           (setTab t
              (updateFirst (hasId "id" (JsVal.toString editId))
                 (fun item => assign item fields) items)
              (store st)) st)
    else
      alert (label ++ " added!")
        (withStore
           (setTab t
              (items ++ [assign {[ "id" := VNum (ofZ newId) ]} fields])
              (store st)) st) in
  pushUndo t st1.

(** The handler of [add-bill-form] *)
Definition submitBill (name amount recurrence start_date end_date status : string)
  : jsval -> Z -> state -> state :=
  submitForm Bills "Bill"
    [("name", VStr (trim name)); ("amount", VStr amount);
     ("recurrence", VStr recurrence); ("start_date", VStr start_date);
     ("end_date", VStr end_date); ("status", VStr status)].

(** The handler of [add-income-form] *)
Definition submitIncome (source amount date recurrence status : string)
  : jsval -> Z -> state -> state :=
  submitForm Income "Income"
    [("source", VStr (trim source)); ("amount", VStr amount);
     ("date", VStr date); ("recurrence", VStr recurrence);
     ("status", VStr status)].

(** The handler of [add-transaction-form] *)
Definition submitTransaction (date description category amount status : string)
  : jsval -> Z -> state -> state :=
  submitForm Transactions "Transaction"
    [("date", VStr date); ("description", VStr (trim description));
     ("category", VStr (trim category)); ("amount", VStr amount);
     ("status", VStr status)].

(** The handler of [add-budget-form] *)
Definition submitBudget (name amount period utilization : string)
  : jsval -> Z -> state -> state :=
  submitForm Budgets "Budget"
    [("name", VStr (trim name)); ("amount", VStr amount);
     ("period", VStr (trim period)); ("utilization", VStr utilization)].

(** The handler of [add-category-form] *)
Definition submitCategory (category subcategory : string)
  : jsval -> Z -> state -> state :=
  submitForm Categories "Category"
    [("category", VStr (trim category));
     ("subcategory", VStr (trim subcategory))].

(** [Object.prototype.hasOwnProperty.call(row, 'id') &&
    String(row.id).trim() !== ''] *)
Definition hasOwnId (row : gmap string jsval) : bool :=
  match row !! "id" with
  | Some v => negb (String.eqb (trim (JsVal.toString v)) "")
  | None => false
  end.

(** The template [`${timestamp}_${idx}`] *)
Definition rowId (timestamp : Z) (idx : nat) : string :=
  (JsConv.toString (ofZ timestamp) ++ "_"
   ++ JsConv.toString (ofZ (Z.of_nat idx)))%string.

(** [hasId ? row : { id: ..., ...row }]: the properties of the row are
    copied after [id] is set, so an [id] of the row wins. *)
Definition withRowId (timestamp : Z) (idx : nat) (row : gmap string jsval)
  : gmap string jsval :=
  if hasOwnId row then row
  else row ∪ {[ "id" := VStr (rowId timestamp idx) ]}.

(** The [onchange] of the file input of [importCSV], once a file is chosen:
    [text] is its content and [timestamp] is [Date.now()].  No snapshot is
    taken.  The message is shown after the save function of the tab has
    been called, so only for the tabs that have one. *)
Definition importCSV (t : tab) (text : string) (timestamp : Z) (st : state)
  : state :=
  let imported :=
    withStore (setTab t (imap (withRowId timestamp) (parseCSV text)) (store st))
      st in
  if saved t then alert "Import complete!" imported else imported.

(** *** More quick actions on bills *)

(** [billsActionMarkUnpaid(id)] *)
Definition billsActionMarkUnpaid (id : string) (st : state) : state :=
  withStore
    (setTab Bills
       (updateFirst (hasId "Bill_ID" id)
          (fun b => <["Paid_Date" := VStr ""]> (<["Status" := VStr "Pending"]> b))
          (bills (store st)))
       (store st)) st.

(** [String(b.Status||'').toLowerCase()==='auto-paid' ? 'Pending' :
    'Auto-Paid'] *)
Definition toggledStatus (b : gmap string jsval) : string :=
  if String.eqb
       (toLowerCase (JsVal.toString (or (get b "Status") (VStr ""))))
       "auto-paid"
  then "Pending" else "Auto-Paid".

(** [billsActionToggleAutoPaid(id)] *)
Definition billsActionToggleAutoPaid (id : string) (st : state) : state :=
  withStore
    (setTab Bills
       (updateFirst (hasId "Bill_ID" id)
          (fun b => <["Status" := VStr (toggledStatus b)]> b)
          (bills (store st)))
       (store st)) st.

(** [billsActionDelete(id)]: [deleteBill] is a function of the same file,
    so the call is handed on to it. *)
Definition billsActionDelete (id : string) (ok : bool) (st : state) : state :=
  deleteBill id ok st.

(** *** Escaping *)

Definition quote : ascii := ascii_of_N 34.

(** The character class of [escapeHtml]: ampersand, angle brackets and the
    double quote. *)
Definition special (c : ascii) : bool :=
  Ascii.eqb c "&" || Ascii.eqb c "<" || Ascii.eqb c ">" || Ascii.eqb c quote.

(** The entry of the table for a key of one character. *)
Definition entity (c : ascii) : string :=
  if Ascii.eqb c "&" then "&amp;"
  else if Ascii.eqb c "<" then "&lt;"
  else if Ascii.eqb c ">" then "&gt;"
  else "&quot;".

(** What the callback returns for a run of special characters: the table is
    keyed by single characters, so a longer run finds no entry and
    [undefined] is printed. *)
Definition replacement (run : string) : string :=
  match run with
  | EmptyString => EmptyString
  | String c EmptyString => entity c
  | _ => "undefined"
  end.

(** [run] holds the special characters read since the last other one. *)
Fixpoint escapeHtmlFrom (run s : string) : string :=
  match s with
  | EmptyString => replacement run
  | String c r =>
      if special c then escapeHtmlFrom (run ++ String c EmptyString) r
      else (replacement run ++ String c (escapeHtmlFrom EmptyString r))%string
  end.

(** [str.replace(re, s => table[s])], where the global pattern [re] matches
    a run of one or more special characters. *)
Definition escapeHtml (str : string) : string := escapeHtmlFrom EmptyString str.

End Forms.

Example escapeHtml_examples :
  Forms.escapeHtml "a<b & c" = "a&lt;b &amp; c"
  /\ Forms.escapeHtml "<<" = "undefined"
  /\ Forms.escapeHtml "x" = "x".
Proof. repeat split; reflexivity. Qed.

(** ** The rows of a table ([renderTable], [renderBillsList]) *)

Module TableView.
Import JsString JsNum JsVal Luxon App Views.

(** A plain object with text values, as the list of its properties in the
    order of [Object.keys]: [o[k] = v] keeps the place of a property that
    is there and puts a new one last. *)
Definition setProp (o : list (string * string)) (k v : string)
  : list (string * string) :=
  if existsb (fun kv => String.eqb kv.1 k) o
  then map (fun kv => if String.eqb kv.1 k then (k, v) else kv) o
  else o ++ [(k, v)].

(** [{ ...a, ...b }] *)
Definition spread (a b : list (string * string)) : list (string * string) :=
  fold_left (fun o kv => setProp o kv.1 kv.2) b (fold_left (fun o kv => setProp o kv.1 kv.2) a []).

(** [String(item[key] ?? '').toLowerCase().includes(v)] *)
Definition matchesFilter (key v : string) (item : gmap string jsval) : bool :=
  includes v (toLowerCase (JsVal.toString (nullish (get item key) (VStr "")))).

(** The body of [Object.keys(filter).forEach]: a value that is empty after
    [trim] filters nothing. *)
Definition applyFilter (rows : list (gmap string jsval)) (kv : string * string)
  : list (gmap string jsval) :=
  let val := trim kv.2 in
  if String.eqb val "" then rows
  else filter (fun item => matchesFilter kv.1 (toLowerCase val) item = true) rows.

(** [columns.some(col => String(item[col]).toLowerCase()
    .includes(search.toLowerCase()))] *)
Definition matchesSearch (columns : list string) (search : string)
  (item : gmap string jsval) : bool :=
  existsb
    (fun col =>
       includes (toLowerCase search)
         (toLowerCase (JsVal.toString (get item col))))
    columns.

Section WithPlatform.
Context {L : DateLib} {C : Collator}.

(** The rows that [renderTable] shows, in order: the records of the month,
    then the column filters (the saved ones overridden by [filters]), then
    the search, then the sort. *)
Definition tableRows (t : tab) (ym : string) (columns : list string)
  (items : list (gmap string jsval)) (sortKeys : list (string * string))
  (saved filters : list (string * string)) (search : string)
  : list (gmap string jsval) :=
  let filtered :=
    fold_left applyFilter (spread saved filters)
      (filterToCurrentMonth t ym items) in
  let found :=
    if String.eqb search "" then filtered
    else filter (fun item => matchesSearch columns search item = true) filtered in
  multiColumnSort found sortKeys.

(** The comparison function of [renderBillsList]; [today] is
    [DateTime.now()]. *)
Definition compareBills (today : Z) (a b : gmap string jsval) : jsnum :=
  let ao := if isOverdue today a then 0 else 1 in
  let bo := if isOverdue today b then 0 else 1 in
  if negb (ao =? bo) then ofZ (ao - bo)
  else
    match toDT (get a "Due_Date"), toDT (get b "Due_Date") with
    | Some ad, Some bd => ofZ (ad - bd)
    | Some _, None => ofZ (-1)
    | None, Some _ => ofZ 1
    | None, None =>
        ofZ (localeCompare
               (JsVal.toString (or (get a "Bill_Name") (VStr "")))
               (JsVal.toString (or (get b "Bill_Name") (VStr ""))))
    end.

(** The bills in the order in which [renderBillsList] lists them. *)
Definition sortedBills (today : Z) (bills : list (gmap string jsval))
  : list (gmap string jsval) :=
  sortWith (compareBills today) bills.

End WithPlatform.

(** The click on the header of column [col]: the direction of the first
    sort key of that column is flipped where it stands; a column that is no
    sort key yet becomes the only one, ascending. *)
Definition headerClick (col : string) (sortKeys : list (string * string))
  : list (string * string) :=
  if existsb (fun s => String.eqb s.1 col) sortKeys
  then updateFirst (fun s => String.eqb s.1 col)
         (fun s => (s.1, if String.eqb s.2 "asc" then "desc" else "asc"))
         sortKeys
  else [(col, "asc")].

End TableView.

(** ** The charts of the dashboard ([renderCharts]) *)

Module Charts.
Import JsString JsNum JsVal Luxon App Views.

(** A [Map] from text to numbers, as the list of its entries in the order
    of insertion. *)
Definition mapGet (m : list (string * jsnum)) (k : string) : option jsnum :=
  snd <$> find (fun kv => String.eqb kv.1 k) m.

Definition mapSet (m : list (string * jsnum)) (k : string) (v : jsnum)
  : list (string * jsnum) :=
  if existsb (fun kv => String.eqb kv.1 k) m
  then map (fun kv => if String.eqb kv.1 k then (k, v) else kv) m
  else m ++ [(k, v)].

(** [m.get(k) || 0] *)
Definition getOr0 (m : list (string * jsnum)) (k : string) : jsnum :=
  match mapGet m k with
  | Some n => if JsNum.truthy n then n else zero
  | None => zero
  end.

(** [a[idx] += v] on an array of numbers, for an index that is in range *)
Definition bump (a : list jsnum) (idx : Z) (v : jsnum) : list jsnum :=
  alter (fun x => add x v) (Z.to_nat idx) a.

Section WithDates.
Context {L : DateLib}.
(** [dt.day], the day of the month *)
Variable day : Z -> Z.

Definition weekIndex (d : jsval) : Z :=
  match fromISO (JsVal.toString d) with
  | None => -1
  | Some dt =>
      if day dt <=? 7 then 0
      else if day dt <=? 14 then 1
      else if day dt <=? 21 then 2
      else 3
  end.

(** The loop over [state.data.income] for the chart by week *)
Definition weeklyIncomeStep (ym : string) (week : list jsnum)
  (item : gmap string jsval) : list jsnum :=
  if inMonth ym (get item "date") then
    let idx := weekIndex (get item "date") in
    if 0 <=? idx then bump week idx (amountOf (get item "amount")) else week
  else week.

(** The loop over [state.data.transactions] for the chart by week: the pair
    is [(weeklyIncome, weeklyExpenses)]. *)
Definition weeklyTransactionStep (ym : string)
  (acc : list jsnum * list jsnum) (t : gmap string jsval)
  : list jsnum * list jsnum :=
  let amt := amountOf (get t "amount") in
  if inMonth ym (get t "date") then
    let idx := weekIndex (get t "date") in
    if idx <? 0 then acc
    else if ltb zero amt then (bump acc.1 idx amt, acc.2)
    else (acc.1, bump acc.2 idx (abs amt))
  else acc.

(** The two data sets of the chart of income and expenses by week. *)
Definition weeklyTotals (st : state) : list jsnum * list jsnum :=
  let ym := currentMonth st in
  let fromIncome :=
    fold_left (weeklyIncomeStep ym) (income (store st))
      [zero; zero; zero; zero] in
  fold_left (weeklyTransactionStep ym) (transactions (store st))
    (fromIncome, [zero; zero; zero; zero]).

End WithDates.

Section WithDates.
Context {L : DateLib}.

(** The loop that fills [expenseByCat] ([fallback] is ['Uncategorized']) and
    [actualByCat] ([fallback] is ['']): the expenses of the month, summed by
    category. *)
Definition expenseStep (ym fallback : string) (m : list (string * jsnum))
  (t : gmap string jsval) : list (string * jsnum) :=
  let amt := amountOf (get t "amount") in
  if negb (inMonth ym (get t "date")) || geb amt zero then m
  else
    let cat := JsVal.toString (or (get t "category") (VStr fallback)) in
    mapSet m cat (add (getOr0 m cat) (abs amt)).

Definition expensesByCategory (ym fallback : string)
  (txs : list (gmap string jsval)) : list (string * jsnum) :=
  fold_left (expenseStep ym fallback) txs [].

(** The labels and the data of the chart of spending by category: the six
    categories with the highest spending, and the rest under [Other]. *)
Definition spendingChart (st : state) : list string * list jsnum :=
  let sortedCats :=
    sortWith (fun a b : string * jsnum => sub b.2 a.2)
      (expensesByCategory (currentMonth st) "Uncategorized"
         (transactions (store st))) in
  let topCats := take 6 sortedCats in
  let otherTotal := fold_left (fun s kv => add s kv.2) (drop 6 sortedCats) zero in
  (map fst topCats ++ (if ltb zero otherTotal then ["Other"] else []),
   map snd topCats ++ (if ltb zero otherTotal then [otherTotal] else [])).

(** The labels and the two data sets of the chart of budgets against actual
    spending: [(budgetLabels, budgeted, actual)]. *)
Definition budgetChart (st : state) : list string * list jsnum * list jsnum :=
  let budgetLabels :=
    map (fun b => JsVal.toString (or (get b "name") (VStr ""))) (budgets (store st)) in
  let budgeted := map (fun b => amountOf (get b "amount")) (budgets (store st)) in
  let actualByCat :=
    expensesByCategory (currentMonth st) "" (transactions (store st)) in
  (budgetLabels, budgeted, map (getOr0 actualByCat) budgetLabels).

End WithDates.

(** [dt.day] for the dates of [Civil] *)
Definition civilDay (t : Z) : Z :=
  let '(_, _, d) := civilFromDays (t / msPerDay) in d.

End Charts.

(** ** Saving the transactions ([saveTransactionsToCSV]) *)

Module TransactionsCsv.
Import JsString JsNum JsVal Csv.

Definition transactionColumns : list string :=
  ["id"; "date"; "description"; "category"; "amount"; "status"].

(** The template of one line: each field as [String] prints it, a missing
    one as [undefined]. *)
Definition transactionLine (t : gmap string jsval) : string :=
  join "," (map (fun k => JsVal.toString (get t k)) transactionColumns).

(** The text [csv] that [saveTransactionsToCSV] builds and hands to the
    writer. *)
Definition transactionsCSV (txs : list (gmap string jsval)) : string :=
  fold_left (fun csv t => (csv ++ transactionLine t ++ newline)%string) txs
            (join "," transactionColumns ++ newline)%string.

End TransactionsCsv.

(** ** The totals of [utils/dataHelpers.js] *)

Module DataHelpers.
Import JsString JsNum JsConv JsVal App.

(** [parseFloat] on a text: white space in front is skipped, and the
    longest prefix that is a decimal literal is read; what follows it is
    ignored, and so is an exponent without digits. *)
Definition parseFloatText (s : string) : jsnum :=
  let '(sneg, s1) := read_sign (trimStart s) in
  if startsWith "Infinity" s1 then (if sneg then NInf else PInf)
  else
    let '(i, ni, s2) := read_digits 10 0 0 s1 in
    let '(f, nf, s3) := read_fraction s2 in
    match ni, nf with
    | O, O => NaN
    | _, _ =>
        let e := match read_exponent s3 with Some (e, _) => e | None => 0 end in
        let m := ((Z.of_N i * Zpos (pow10 nf) + Z.of_N f)
                  * Zpos (pow10 (Z.to_nat e)))%Z in
        Fin (dec (if sneg then - m else m) (nf + Z.to_nat (- e)))
    end.

(** [parseFloat(v)]: the text that [String] prints for [v] is read; for a
    number that text denotes the number again. *)
Definition parseFloat (v : jsval) : jsnum :=
  match v with
  | VNum n => n
  | _ => parseFloatText (JsVal.toString v)
  end.

(** [parseFloat(v || 0)], and [0] in place of [NaN] *)
Definition floatOr0 (v : jsval) : jsnum :=
  let n := parseFloat (or v (VNum zero)) in
  if isNaN n then zero else n.

(** [x.toFixed(0)] for a magnitude below [10^21]: the nearest integer,
    halves away from zero, in decimal notation. *)
Definition toFixed0 (x : jsnum) : string :=
  match x with
  | Fin q =>
      let a := (if bool_decide (q < 0)%Qc then - q else q)%Qc in
      ((if bool_decide (q < 0)%Qc then "-" else "")
       ++ N_to_string (Z.to_N (Qfloor (a + Q2Qc (1 # 2))%Qc)))%string
  | _ => JsConv.toString x
  end.

Record totals : Type := Totals {
  totalIncome : jsnum;
  totalExpenses : jsnum;
  netAmount : jsnum;
  budgetUtilization : jsval
}.

(** [calculateTotals(data, options)]; [includePositive] is the option
    [includePositiveTransactionsAsIncome], true when it is not given.  The
    utilisation is the number [0] without budgets and a text otherwise. *)
Definition calculateTotals (d : data) (includePositive : bool) : totals :=
  let amount (r : gmap string jsval) : jsnum :=
    parseFloat (or (get r "amount") (VNum zero)) in
  let incomeFromIncome :=
    fold_left (fun sum item => add sum (floatOr0 (get item "amount")))
      (income d) zero in
  let incomeFromTransactions :=
    if includePositive then
      fold_left (fun sum t => add sum (floatOr0 (get t "amount")))
        (filter (fun t => ltb zero (amount t) = true) (transactions d)) zero
    else zero in
  let totalIncome := add incomeFromIncome incomeFromTransactions in
  let totalExpenses :=
    fold_left
      (fun sum t =>
         let v := abs (amount t) in add sum (if isNaN v then zero else v))
      (filter (fun t => ltb (amount t) zero = true) (transactions d)) zero in
  let budgetUtilization :=
    match budgets d with
    | [] => VNum zero
    | bs =>
        VStr (toFixed0
                (div (fold_left
                        (fun sum b => add sum (floatOr0 (get b "utilization")))
                        bs zero)
                     (ofZ (Z.of_nat (length bs)))))
    end in
  Totals totalIncome totalExpenses (sub totalIncome totalExpenses)
    budgetUtilization.

End DataHelpers.

Example parseFloat_examples :
  DataHelpers.parseFloatText "  12.5abc" = Fin (Q2Qc (25 # 2))
  /\ DataHelpers.parseFloatText "1e" = JsNum.ofZ 1
  /\ DataHelpers.parseFloatText "-.5e1x" = JsNum.ofZ (-5)
  /\ DataHelpers.parseFloatText "0x10" = JsNum.zero
  /\ DataHelpers.parseFloatText "abc" = NaN
  /\ DataHelpers.parseFloatText "" = NaN
  /\ DataHelpers.toFixed0 (Fin (Q2Qc (5 # 2))) = "3"
  /\ DataHelpers.toFixed0 (Fin (Q2Qc (- 5 # 2))) = "-3"
  /\ DataHelpers.toFixed0 (Fin (Q2Qc (149 # 100))) = "1".
Proof. repeat split; apply (bool_decide_unpack _); by vm_compute. Qed.

(** ** The list of the bills module ([src/bills.js]) *)

Module BillsModule.
Import JsString JsNum JsVal Luxon.

Record groups : Type := Groups {
  Overdue : list (gmap string jsval);
  DueSoon : list (gmap string jsval);
  Upcoming : list (gmap string jsval);
  Paid : list (gmap string jsval)
}.

Section WithDates.
Context {L : DateLib}.
(** [dt.plus({ days: n })] *)
Variable plusDays : Z -> Z -> Z.

(** [DateTime.fromISO(b.due)]: no text gives no date. *)
Definition dueOf (b : gmap string jsval) : option Z :=
  match get b "due" with
  | VUndef | VNull => None
  | v => fromISO (JsVal.toString v)
  end.

(** The body of [bills.forEach] in [renderTable]: the bill is pushed to
    one of the four groups; [now] is [DateTime.now()]. *)
Definition groupStep (now : Z) (g : groups) (b : gmap string jsval) : groups :=
  if bool_decide (get b "status" = VStr "Paid")
  then Groups (Overdue g) (DueSoon g) (Upcoming g) (Paid g ++ [b])
  else
    match dueOf b with
    | Some due =>
        if due <? now
        then Groups (Overdue g ++ [b]) (DueSoon g) (Upcoming g) (Paid g)
        else if due <=? plusDays now 7
        then Groups (Overdue g) (DueSoon g ++ [b]) (Upcoming g) (Paid g)
        else Groups (Overdue g) (DueSoon g) (Upcoming g ++ [b]) (Paid g)
    | None => Groups (Overdue g) (DueSoon g) (Upcoming g ++ [b]) (Paid g)
    end.

Definition groupBills (now : Z) (bills : list (gmap string jsval)) : groups :=
  fold_left (groupStep now) bills (Groups [] [] [] []).

End WithDates.

End BillsModule.

(** * Properties *)

(** ** The undo history *)

Module UndoFacts.
Import JsNum JsVal App.

Lemma json_record_safe (o : gmap string jsval) :
  json_safe_record o -> json_record o = o.
Proof.
  intros Hsafe. apply map_eq. intros k. unfold json_record.
  rewrite lookup_omap. destruct (o !! k) as [v|] eqn:Hk; simpl; [|done].
  exact (Hsafe k v Hk).
Qed.

Lemma json_clone_safe (l : list (gmap string jsval)) :
  Forall json_safe_record l -> json_clone l = l.
Proof.
  induction 1 as [|o l Ho _ IH]; simpl; [done|].
  by rewrite json_record_safe, IH.
Qed.

Lemma last_tail_snoc {A} (l : list A) (x : A) :
  last (tail (l ++ [x])) = (if l is [] then None else Some x).
Proof.
  destruct l as [|a l]; simpl; [done|]. apply last_snoc.
Qed.

(** The entry that [pushUndo] has just added is the one [pop] returns, also
    when the oldest entry was dropped to make room. *)
Lemma pushUndo_last t st :
  last (undoStack (pushUndo t st)) = Some (t, json_clone (getTab t (store st))).
Proof.
  unfold pushUndo. simpl.
  destruct (20 <? length _)%nat eqn:Hlen; [|apply last_snoc].
  rewrite last_tail_snoc. destruct (undoStack st); [|done].
  simpl in Hlen. discriminate.
Qed.

Lemma pushUndo_store t st : store (pushUndo t st) = store st.
Proof. done. Qed.

(** The history never grows beyond twenty entries. *)
Lemma pushUndo_cap t st :
  (length (undoStack st) <= 20)%nat ->
  (length (undoStack (pushUndo t st)) <= 20)%nat.
Proof.
  intros Hle. unfold pushUndo. simpl.
  destruct (20 <? length _)%nat eqn:Hlen.
  - rewrite length_tl, length_app. apply Nat.ltb_lt in Hlen. rewrite length_app in Hlen. simpl in *. lia.
  - apply Nat.ltb_ge in Hlen. done.
Qed.

(** On overflow it is the oldest entry, the head of the array, that goes. *)
Lemma pushUndo_evicts_oldest t st e es :
  undoStack st = e :: es -> length es = 19%nat ->
  undoStack (pushUndo t st) = es ++ [(t, json_clone (getTab t (store st)))].
Proof.
  intros Hst Hlen. unfold pushUndo. rewrite Hst. simpl.
  rewrite length_app, Hlen. done.
Qed.

Lemma pushUndo_below_cap t st :
  (length (undoStack st) < 20)%nat ->
  undoStack (pushUndo t st)
  = undoStack st ++ [(t, json_clone (getTab t (store st)))].
Proof.
  intros Hlt. unfold pushUndo. simpl.
  destruct (20 <? length _)%nat eqn:Hlen; [|done].
  apply Nat.ltb_lt in Hlen. rewrite length_app in Hlen. simpl in Hlen. lia.
Qed.

Lemma setTab_getTab t l d : getTab t (setTab t l d) = l.
Proof. by destruct t. Qed.

Lemma setTab_getTab_ne t t' l d : t ≠ t' -> getTab t' (setTab t l d) = getTab t' d.
Proof. by destruct t, t'. Qed.

Lemma setTab_setTab t l l' d : setTab t l (setTab t l' d) = setTab t l d.
Proof. by destruct t. Qed.

Lemma setTab_same t d : setTab t (getTab t d) d = d.
Proof. by destruct t, d. Qed.

Lemma deleteRow_last t id st :
  last (undoStack (deleteRow t id st))
  = Some (t, json_clone (getTab t (store st))).
Proof.
  unfold deleteRow.
  destruct (findIndex _ _); simpl; apply pushUndo_last.
Qed.

(** What an undo restores does not depend on whether its message is
    shown. *)
Lemma undoLastAction_restores st t snapshot :
  last (undoStack st) = Some (t, snapshot) ->
  store (undoLastAction st) = setTab t snapshot (store st)
  /\ undoStack (undoLastAction st) = removelast (undoStack st).
Proof. intros Hlast. unfold undoLastAction. rewrite Hlast. by destruct (saved t). Qed.

Lemma deleteRow_store t id st :
  exists l, store (deleteRow t id st) = setTab t l (store st).
Proof.
  unfold deleteRow. rewrite pushUndo_store.
  destruct (findIndex _ _); simpl.
  - eauto.
  - exists (getTab t (store st)). by rewrite setTab_same.
Qed.

(** Whatever the records hold, delete followed by undo installs the JSON
    copy of the collection as it was before the delete. *)
Lemma undo_deleteRow_store t id st :
  store (undoLastAction (deleteRow t id st))
  = setTab t (json_clone (getTab t (store st))) (store st).
Proof.
  destruct (undoLastAction_restores _ _ _ (deleteRow_last t id st)) as [-> _].
  destruct (deleteRow_store t id st) as [l ->]. apply setTab_setTab.
Qed.

End UndoFacts.

(** Closed goals about records are decided by evaluation. *)
Ltac by_evaluation := apply (bool_decide_unpack _); vm_compute; exact I.

Module UndoClaims.
Import JsNum JsVal App UndoFacts.

Definition salary : gmap string jsval :=
  {[ "id" := VStr "1"; "source" := VStr "Salary";
     "amount" := VNum (ofZ 1000); "date" := VStr "2024-01-05" ]}.

Definition refund : gmap string jsval :=
  {[ "id" := VStr "2"; "source" := VStr "Refund";
     "amount" := VNum (ofZ 5); "date" := VStr "2024-01-09" ]}.

(** A row whose amount cell was edited in the grid to a text that is not a
    number: [persistGridEdits] stores [Number(newVal)], which is [NaN]. *)
Definition mistyped : gmap string jsval :=
  {[ "id" := VStr "1"; "source" := VStr "Salary"; "amount" := VNum NaN ]}.

Definition storeOf (incomeRows : list (gmap string jsval)) : state :=
  State (Data [] incomeRows [] [] []) "2024-01" [] [].

(** C3 as stated fails.  With the income rows [mistyped] and [refund],
    deleting row 2 and undoing brings back two rows, but the amount of the
    first is [null] where it was [NaN]: the snapshot is a JSON copy. *)
Lemma delete_undo_loses_nan :
  income (store (undoLastAction (deleteRow Income "2" (storeOf [mistyped; refund]))))
  = [ <["amount" := VNull]> mistyped; refund ]
  /\ income (store (undoLastAction (deleteRow Income "2" (storeOf [mistyped; refund]))))
     ≠ income (store (storeOf [mistyped; refund])).
Proof. split; by_evaluation. Qed.

(** C3, amended.  When the records of the collection hold only values that
    a JSON copy preserves (strings, finite numbers, [null]), deleting a row
    by id and undoing at once restores the whole store; and undo on an
    empty history changes no collection and shows "Nothing to undo.". *)
Theorem delete_undo_restores t id st :
  (Forall json_safe_record (getTab t (store st)) ->
   store (undoLastAction (deleteRow t id st)) = store st)
  /\ (undoStack st = [] ->
      store (undoLastAction st) = store st
      /\ undoStack (undoLastAction st) = []
      /\ alerts (undoLastAction st) = alerts st ++ ["Nothing to undo."]).
Proof.
  split.
  - intros Hsafe. rewrite undo_deleteRow_store, json_clone_safe by done.
    apply setTab_same.
  - intros Hempty. unfold undoLastAction. rewrite Hempty. done.
Qed.

Lemma delete_undo_restores_witness :
  store (undoLastAction (deleteRow Income "2" (storeOf [salary; refund])))
  = store (storeOf [salary; refund])
  /\ alerts (undoLastAction (storeOf [salary; refund])) = ["Nothing to undo."].
Proof.
  destruct (delete_undo_restores Income "2" (storeOf [salary; refund]))
    as [Hdel Hempty].
  split.
  - apply Hdel. by_evaluation.
  - apply Hempty. reflexivity.
Defined.

(** Deleting a row through [deleteRow] does take its snapshot first. *)
Lemma deleteRow_takes_snapshot t id st :
  (length (undoStack st) < 20)%nat ->
  undoStack (deleteRow t id st)
  = undoStack st ++ [(t, json_clone (getTab t (store st)))].
Proof.
  intros Hlt. unfold deleteRow.
  destruct (findIndex _ _); simpl; by apply pushUndo_below_cap.
Qed.

(** [deleteBill] and the bulk delete leave the history as it is. *)
Lemma deleteBill_undoStack id ok st :
  undoStack (deleteBill id ok st) = undoStack st.
Proof. unfold deleteBill. by destruct ok. Qed.

Lemma bulkDelete_undoStack t checked ok st :
  undoStack (bulkDelete t checked ok st) = undoStack st.
Proof. unfold bulkDelete. by destruct checked, ok. Qed.

(** C4: the code at the failing input.  The income rows are [salary] and
    [refund] and the history is empty; ticking row 2 and confirming
    "Delete Selected" removes the row and pushes nothing, so that an undo
    right after finds nothing to restore. *)
Theorem bulkDelete_pushes_no_snapshot :
  let st' := bulkDelete Income ["2"] true (storeOf [salary; refund]) in
  income (store st') = [salary]
  /\ undoStack st' = []
  /\ income (store (undoLastAction st')) = [salary]
  /\ alerts (undoLastAction st') = ["Nothing to undo."].
Proof. repeat split; by_evaluation. Qed.

(** The same for [deleteBill] on a bill that carries an [id]. *)
Example deleteBill_pushes_no_snapshot :
  let st := State (Data [salary; refund] [] [] [] []) "2024-01" [] [] in
  bills (store (deleteBill "2" true st)) = [salary]
  /\ undoStack (deleteBill "2" true st) = [].
Proof. split; by_evaluation. Qed.

End UndoClaims.

(** ** Quick actions on bills *)

Module BillFacts.
Import JsString JsNum JsVal Luxon App Views.

Lemma updateFirst_length {A} (p : A -> bool) (f : A -> A) (l : list A) :
  length (updateFirst p f l) = length l.
Proof. induction l as [|x l IH]; simpl; [done|]. destruct (p x); simpl; lia. Qed.

(** [updateFirst] changes the element at the index that [findIndex] finds,
    and no other. *)
Lemma updateFirst_lookup {A} (p : A -> bool) (f : A -> A) (l : list A) (i : nat) :
  updateFirst p f l !! i
  = (if bool_decide (findIndex p l = Some i) then f <$> l !! i else l !! i).
Proof.
  revert i. induction l as [|x l IH]; intros i; [done|].
  cbn [updateFirst findIndex]. destruct (p x) eqn:Hp.
  - destruct i as [|i].
    + by rewrite bool_decide_eq_true_2.
    + by rewrite bool_decide_eq_false_2.
  - destruct i as [|i].
    + rewrite bool_decide_eq_false_2; [done|]. by destruct (findIndex p l).
    + cbn [lookup list_lookup]. rewrite IH.
      destruct (findIndex p l) as [j|]; cbn [fmap option_fmap option_map].
      * destruct (decide (j = i)) as [->|Hne].
        -- by rewrite !bool_decide_eq_true_2.
        -- rewrite !bool_decide_eq_false_2; [done| |]; congruence.
      * by rewrite !bool_decide_eq_false_2.
Qed.


Lemma find_none_updateFirst {A} (p : A -> bool) (f : A -> A) (l : list A) :
  find p l = None -> updateFirst p f l = l.
Proof.
  induction l as [|y l IH]; simpl; [done|]. destruct (p y); [done|].
  intros H. by rewrite IH.
Qed.

End BillFacts.

Module QuickActionClaims.
Import JsString JsNum JsVal Luxon App Views BillFacts.

(** C10.  [billsActionMarkPaid] leaves the income, transactions, categories
    and budgets, the selected month and the undo history as they are; the
    bills keep their number and positions; a bill keeps every field other
    than [Status] and [Paid_Date]; and the only bill that can differ from
    before is the target, the first one whose [Bill_ID] prints as [id]. *)
Theorem billsActionMarkPaid_frame (id todayIso : string) (st : state) :
  let st' := billsActionMarkPaid id todayIso st in
  income (store st') = income (store st)
  /\ transactions (store st') = transactions (store st)
  /\ categories (store st') = categories (store st)
  /\ budgets (store st') = budgets (store st)
  /\ currentMonth st' = currentMonth st
  /\ undoStack st' = undoStack st
  /\ length (bills (store st')) = length (bills (store st))
  /\ forall (i : nat) (b : gmap string jsval),
       bills (store st) !! i = Some b ->
       exists b' : gmap string jsval,
         bills (store st') !! i = Some b'
         /\ (forall k : string, k ≠ "Status" -> k ≠ "Paid_Date" -> b' !! k = b !! k)
         /\ (b' ≠ b ->
             findIndex (hasId "Bill_ID" id) (bills (store st)) = Some i
             /\ b' = <["Paid_Date" := VStr todayIso]> (<["Status" := VStr "Paid"]> b)).
Proof.
  simpl. repeat split; try done.
  - apply updateFirst_length.
  - intros i b Hb. rewrite updateFirst_lookup, Hb.
    case_bool_decide as Hi; simpl.
    + eexists. split; [done|]. split; [|done].
      intros k Hs Hp. by rewrite !lookup_insert_ne.
    + exists b. done.
Qed.

(** A bill of the telephone company, not paid yet. *)
Definition phone : gmap string jsval :=
  {[ "Bill_ID" := VStr "9"; "Bill_Name" := VStr "Phone";
     "Amount_Due" := VNum (ofZ 30); "Due_Date" := VStr "2024-01-20";
     "Status" := VStr "Pending" ]}.

Lemma billsActionMarkPaid_frame_witness :
  let st := State (Data [phone] [] [] [] []) "2024-01" [] [] in
  exists b' : gmap string jsval,
    bills (store (billsActionMarkPaid "9" "2024-01-15" st)) !! 0%nat = Some b'
    /\ findIndex (hasId "Bill_ID" "9") (bills (store st)) = Some 0%nat
    /\ b' = <["Paid_Date" := VStr "2024-01-15"]> (<["Status" := VStr "Paid"]> phone).
Proof.
  intros st.
  pose proof (billsActionMarkPaid_frame "9" "2024-01-15" st) as H.
  cbv zeta in H. destruct H as (_ & _ & _ & _ & _ & _ & _ & H).
  destruct (H 0%nat phone eq_refl) as (b' & Hb' & _ & Hdiff).
  exists b'. split; [exact Hb'|]. apply Hdiff.
  assert (bills (store (billsActionMarkPaid "9" "2024-01-15" st)) !! 0%nat
          = Some (<["Paid_Date" := VStr "2024-01-15"]>
                    (<["Status" := VStr "Paid"]> phone))) as Hpaid
    by by_evaluation.
  rewrite Hpaid in Hb'. injection Hb' as <-. by_evaluation.
Defined.

End QuickActionClaims.

Module MarkPaidClaims.
Import JsString JsNum JsVal Luxon App Views BillFacts.

(** The bill of the scenario of the specification. *)
Definition rent : gmap string jsval :=
  {[ "Bill_ID" := VStr "1"; "Bill_Name" := VStr "Rent";
     "Category" := VStr "Housing"; "Amount_Due" := VNum (ofZ 1200);
     "Due_Date" := VStr "2024-01-01"; "Paid_Date" := VStr "";
     "Status" := VStr "Pending"; "Recurring" := VStr "false";
     "Frequency" := VStr "Monthly" ]}.


Definition billsOnly (l : list (gmap string jsval)) : state :=
  State (Data l [] [] [] []) "2024-01" [] [].



Section WithDates.
Context {L : DateLib}.


End WithDates.

(** The scenario of the specification: bill 1, "Rent", 1200 due, marked
    paid on 2024-01-15 while January 2024 is selected. *)
Example markBillPaid_scenario :
  let st' := markBillPaid (L := Civil) "1" "2024-01-15" 1705312800000
               1705312800001 false (billsOnly [rent]) in
  bills (store st')
  = [ <["Paid_Date" := VStr "2024-01-15"]> (<["Status" := VStr "Paid"]> rent) ]
  /\ transactions (store st')
     = [ {[ "id" := VNum (ofZ 1705312800000); "date" := VStr "2024-01-01";
            "description" := VStr "Rent"; "category" := VStr "Bills";
            "amount" := VNum (ofZ (-1200)); "status" := VStr "Paid" ]} ].
Proof. split; by_evaluation. Qed.


(** The button of the bills table calls [billsActionMarkPaid], which
    records no transaction for the same scenario. *)
Example billsActionMarkPaid_scenario :
  let st' := billsActionMarkPaid "1" "2024-01-15" (billsOnly [rent]) in
  bills (store st')
  = [ <["Paid_Date" := VStr "2024-01-15"]> (<["Status" := VStr "Paid"]> rent) ]
  /\ transactions (store st') = [].
Proof. split; by_evaluation. Qed.

End MarkPaidClaims.

(** ** Month scoping and the overdue predicate *)

Module ScopeClaims.
Import JsString JsNum JsVal Luxon App Views.

Lemma startsWith_prefix (p s : string) :
  startsWith p s = true <-> exists r : string, s = (p ++ r)%string.
Proof.
  revert s. induction p as [|a p IH]; intros s; simpl.
  - split; [eauto|done].
  - destruct s as [|b s].
    + split; [done|]. by intros [r Hr].
    + rewrite andb_true_iff, IH. split.
      * intros [Hab [r ->]]. apply Ascii.eqb_eq in Hab as ->. eauto.
      * intros [r [= -> ->]]. split; [apply Ascii.eqb_refl|eauto].
Qed.

(** The status text of a bill, in lower case: [String(b.Status || '')
    .toLowerCase()]. *)
Definition lowerStatus (b : gmap string jsval) : string :=
  toLowerCase (JsVal.toString (or (get b "Status") (VStr ""))).

(** The day of an instant in the zone of [Civil]. *)
Definition dayOf (t : Z) : Z := t / msPerDay.

(** A pending bill that is due on 2024-01-15. *)
Definition dueToday : gmap string jsval :=
  {[ "Bill_ID" := VStr "3"; "Bill_Name" := VStr "Water";
     "Amount_Due" := VNum (ofZ 40); "Due_Date" := VStr "2024-01-15";
     "Status" := VStr "Pending" ]}.

(** 2024-01-15 at 10:30 *)
Definition midMorning : Z := 1705276800000 + 37800000.

(** C6 as stated fails.  At 10:30 on 2024-01-15 the pending bill that is
    due on that very day is overdue for the code, which compares the due
    date (its midnight) with the current instant, although the due day is
    not before the current day. *)
Lemma due_today_is_overdue :
  isOverdue (L := Civil) midMorning dueToday = true
  /\ lowerStatus dueToday = "pending"
  /\ toDT (L := Civil) (get dueToday "Due_Date") = Some 1705276800000
  /\ toISODate (DateLib := Civil) midMorning = "2024-01-15"
  /\ ~ (dayOf 1705276800000 < dayOf midMorning).
Proof. repeat split; by_evaluation. Qed.

Section WithDates.
Context {L : DateLib}.

(** C6, amended.  A bill is overdue exactly when its status text is
    "overdue" in any case, or the status is neither "paid" nor "auto-paid"
    and the due date is a valid date that lies strictly before the current
    instant [today]: a bill due today is overdue once the day has begun. *)
Theorem isOverdue_iff (today : Z) (b : gmap string jsval) :
  isOverdue today b = true
  <-> lowerStatus b = "overdue"
      \/ (lowerStatus b ≠ "paid" /\ lowerStatus b ≠ "auto-paid"
          /\ exists due : Z, toDT (get b "Due_Date") = Some due /\ due < today).
Proof.
  unfold isOverdue. fold (lowerStatus b).
  destruct (String.eqb_spec (lowerStatus b) "overdue") as [Ho|Ho].
  { split; [by left|done]. }
  destruct (String.eqb_spec (lowerStatus b) "paid") as [Hp|Hp]; simpl.
  { split; [done|]. intros [?|(? & _)]; done. }
  destruct (String.eqb_spec (lowerStatus b) "auto-paid") as [Ha|Ha].
  { split; [done|]. intros [?|(_ & ? & _)]; done. }
  destruct (toDT (get b "Due_Date")) as [due|].
  - rewrite Z.ltb_lt. split.
    + intros Hlt. right. eauto.
    + intros [?|(_ & _ & due' & [= <-] & Hlt)]; done.
  - split; [done|]. intros [?|(_ & _ & due' & ? & _)]; done.
Qed.

(** A field of a record holds a date of the selected month: the field is
    set, its text is a valid date, the month is valid, and the date lies
    between the start and the end of the month, both included. *)
Definition dateInMonth (ym : string) (v : jsval) : Prop :=
  exists dt first : Z,
    truthy v = true
    /\ fromISO (JsVal.toString v) = Some dt
    /\ fromFormat (ym ++ "-01")%string = Some first
    /\ first <= dt <= endOfMonth first.

Lemma inWindow_toDT (ym : string) (v : jsval) :
  inWindow ym (toDT v) = true <-> dateInMonth ym v.
Proof.
  unfold inWindow, toDT, dateInMonth, monthEnd, monthStart.
  destruct (truthy v); [|split; [done|by intros (? & ? & ? & _)]].
  destruct (fromISO _) as [dt|]; [|split; [done|by intros (? & ? & _ & ? & _)]].
  destruct (fromFormat _) as [first|]; simpl;
    [|split; [done|by intros (? & ? & _ & _ & ? & _)]].
  rewrite andb_true_iff, !Z.leb_le. split.
  - intros Hle. exists dt, first. done.
  - intros (dt' & first' & _ & [= <-] & [= <-] & Hle). done.
Qed.

(** C5.  Month scoping keeps a bill exactly when its due date or its paid
    date is a date of the selected month; keeps an income or transaction
    record exactly when the text of its date starts with the selected
    month; keeps all categories and budgets; and keeps the records in
    their order.  It is a total function: a bill whose dates are missing
    or not valid is left out. *)
Theorem filterToCurrentMonth_spec (ym : string)
  (items : list (gmap string jsval)) :
  (forall b : gmap string jsval,
     b ∈ filterToCurrentMonth Bills ym items
     <-> b ∈ items
         /\ (dateInMonth ym (get b "Due_Date")
             \/ dateInMonth ym (get b "Paid_Date")))
  /\ (forall (t : tab) (r : gmap string jsval),
        t = Income \/ t = Transactions ->
        r ∈ filterToCurrentMonth t ym items
        <-> r ∈ items
            /\ exists rest : string,
                 JsVal.toString (or (get r "date") (VStr ""))
                 = (ym ++ rest)%string)
  /\ filterToCurrentMonth Categories ym items = items
  /\ filterToCurrentMonth Budgets ym items = items
  /\ (forall t : tab, sublist (filterToCurrentMonth t ym items) items)
  /\ (forall b : gmap string jsval,
        toDT (get b "Due_Date") = None -> toDT (get b "Paid_Date") = None ->
        b ∉ filterToCurrentMonth Bills ym items).
Proof.
  split; [|split; [|split; [done|split; [done|split]]]].
  - intros b. unfold filterToCurrentMonth.
    rewrite list_elem_of_filter, orb_true_iff, !inWindow_toDT. tauto.
  - intros t r Ht.
    assert (filterToCurrentMonth t ym items
            = filter (fun item =>
                startsWith ym (JsVal.toString (or (get item "date") (VStr "")))
                = true) items) as -> by (by destruct Ht as [-> | ->]).
    rewrite list_elem_of_filter, startsWith_prefix. tauto.
  - intros t. destruct t; simpl; try done; apply sublist_filter.
  - intros b Hdue Hpaid. unfold filterToCurrentMonth.
    rewrite list_elem_of_filter, Hdue, Hpaid. unfold inWindow. simpl.
    by intros [? _].
Qed.

End WithDates.

Lemma filterToCurrentMonth_spec_witness :
  UndoClaims.salary
  ∈ filterToCurrentMonth (L := Civil) Income "2024-01"
      [UndoClaims.salary; UndoClaims.refund].
Proof.
  destruct (filterToCurrentMonth_spec (L := Civil) "2024-01"
              [UndoClaims.salary; UndoClaims.refund]) as (_ & Hdated & _).
  apply (Hdated Income UndoClaims.salary (or_introl eq_refl)).
  split; [by_evaluation|]. exists "-05". by_evaluation.
Defined.

(** The scenario of the specification: the bill "Rent", due 2024-01-01, is
    in the view of January 2024 and not in that of February. *)
Example filterToCurrentMonth_scenario :
  filterToCurrentMonth (L := Civil) Bills "2024-01" [MarkPaidClaims.rent]
  = [MarkPaidClaims.rent]
  /\ filterToCurrentMonth (L := Civil) Bills "2024-02" [MarkPaidClaims.rent] = [].
Proof. split; by_evaluation. Qed.

(** A date that is not valid keeps a bill out of every month. *)
Example filterToCurrentMonth_invalid_date :
  filterToCurrentMonth (L := Civil) Bills "2024-01"
    [ {[ "Bill_ID" := VStr "4"; "Due_Date" := VStr "soon" ]} ] = [].
Proof. by_evaluation. Qed.

End ScopeClaims.

(** ** Arithmetic of the number model *)

Module NumFacts.
Import JsNum.

Lemma Qclt_irrefl (x : Qc) : ~ (x < x)%Qc.
Proof. apply (irreflexivity Qclt). Qed.

Lemma Qclt_asym (x y : Qc) : (x < y)%Qc -> ~ (y < x)%Qc.
Proof. intros H1 H2. exact (Qclt_irrefl x (Qclt_trans _ _ _ H1 H2)). Qed.

Lemma add_comm (a b : jsnum) : add a b = add b a.
Proof. destruct a, b; simpl; try done. f_equal. ring. Qed.

Lemma add_assoc (a b c : jsnum) : add a (add b c) = add (add a b) c.
Proof. destruct a, b, c; simpl; try done. f_equal. ring. Qed.

Lemma add_zero_r (a : jsnum) : add a zero = a.
Proof. destruct a; simpl; try done. f_equal. apply Qcplus_0_r. Qed.

Lemma add_zero_l (a : jsnum) : add zero a = a.
Proof. by rewrite add_comm, add_zero_r. Qed.

Lemma sub_zero_zero : sub zero zero = zero.
Proof. by_evaluation. Qed.

(** [reduce] with [+] from any start is the start plus the sum. *)
Lemma fold_add_start (l : list jsnum) (s : jsnum) :
  fold_left add l s = add s (sum l).
Proof.
  unfold sum. revert s. induction l as [|x l IH]; intros s; cbn [fold_left].
  - by rewrite add_zero_r.
  - rewrite IH, (IH (add zero x)), add_zero_l. symmetry. apply add_assoc.
Qed.

Lemma sum_cons (x : jsnum) (l : list jsnum) : sum (x :: l) = add x (sum l).
Proof. unfold sum at 1. cbn [fold_left]. by rewrite fold_add_start, add_zero_l. Qed.

Lemma sum_nil : sum [] = zero.
Proof. done. Qed.

End NumFacts.

(** ** Dashboard figures *)

Module KpiClaims.
Import JsString JsNum JsVal Luxon App Views NumFacts.

Lemma amountOf_not_NaN (v : jsval) : amountOf v ≠ NaN.
Proof.
  unfold amountOf. destruct (numberOr0 v) as [| | |q]; simpl; try done.
  by destruct (bool_decide (q = 0%Qc)).
Qed.

(** A value that is not a number, or is missing, counts as zero. *)
Lemma amountOf_non_numeric (v : jsval) : toNumber v = NaN -> amountOf v = zero.
Proof.
  intros Hnan. unfold amountOf, numberOr0, or.
  destruct (truthy v); [by rewrite Hnan|done].
Qed.

Lemma utilizationOf_not_NaN (b : gmap string jsval) : utilizationOf b ≠ NaN.
Proof. unfold utilizationOf. by destruct (numberOr0 _). Qed.




Lemma sign_cases (v : jsnum) :
  v ≠ NaN ->
  (geb v zero = true /\ ltb v zero = false /\ (ltb zero v = true \/ v = zero))
  \/ (geb v zero = false /\ ltb v zero = true /\ ltb zero v = false).
Proof.
  intros Hv. destruct v as [| | |q]; [done|left|right|]; try by_evaluation.
  unfold geb, ltb, eqb, zero, ofZ.
  change (Q2Qc (inject_Z 0)) with 0%Qc.
  destruct (Qc_dec 0 q) as [[Hlt|Hgt]|Heq].
  - left. rewrite (bool_decide_eq_true_2 _ Hlt). simpl.
    rewrite bool_decide_eq_false_2; [by auto|]. by apply Qclt_asym.
  - right. rewrite (bool_decide_eq_true_2 _ Hgt).
    rewrite bool_decide_eq_false_2 by (by apply Qclt_asym).
    rewrite bool_decide_eq_false_2; [done|].
    intros ->. exact (Qclt_irrefl _ Hgt).
  - subst q. left. rewrite !(bool_decide_eq_false_2 (0 < 0)%Qc) by apply Qclt_irrefl.
    rewrite bool_decide_eq_true_2 by done. auto.
Qed.

Section WithDates.
Context {L : DateLib}.

(** The amount of a record as the dashboard reads it. *)
Definition amountIn (r : gmap string jsval) : jsnum := amountOf (get r "amount").

(** The records of a collection whose date lies in the month. *)
Definition ofMonth (ym : string) (l : list (gmap string jsval))
  : list (gmap string jsval) :=
  filter (fun r => inMonth ym (get r "date") = true) l.

Definition gains (l : list (gmap string jsval)) : list jsnum :=
  map amountIn (filter (fun r => ltb zero (amountIn r) = true) l).

Definition losses (l : list (gmap string jsval)) : list jsnum :=
  map (fun r => abs (amountIn r)) (filter (fun r => ltb (amountIn r) zero = true) l).

Lemma gains_cons (r : gmap string jsval) (l : list (gmap string jsval)) :
  gains (r :: l)
  = (if ltb zero (amountIn r) then amountIn r :: gains l else gains l).
Proof.
  unfold gains. destruct (ltb zero (amountIn r)) eqn:H.
  - by rewrite filter_cons_True.
  - rewrite filter_cons_False; [done|]. by rewrite H.
Qed.

Lemma losses_cons (r : gmap string jsval) (l : list (gmap string jsval)) :
  losses (r :: l)
  = (if ltb (amountIn r) zero then abs (amountIn r) :: losses l else losses l).
Proof.
  unfold losses. destruct (ltb (amountIn r) zero) eqn:H.
  - by rewrite filter_cons_True.
  - rewrite filter_cons_False; [done|]. by rewrite H.
Qed.

(** Each loop adds the amounts one after the other to what it starts
    from. *)
Lemma income_running (ym : string) (l : list (gmap string jsval)) (s : jsnum) :
  fold_left (incomeStep ym) l s = fold_left add (map amountIn (ofMonth ym l)) s.
Proof.
  revert s. induction l as [|r l IH]; intros s; cbn [fold_left]; [done|].
  rewrite IH. unfold incomeStep, incomeLoop, ofMonth.
  destruct (inMonth ym (get r "date")) eqn:Hin.
  - by rewrite filter_cons_True.
  - by rewrite filter_cons_False by (by rewrite Hin).
Qed.

Lemma transaction_running (ym : string) (l : list (gmap string jsval))
  (a b : jsnum) :
  fold_left (transactionStep ym) l (a, b)
  = (fold_left add (gains (ofMonth ym l)) a,
     fold_left add (losses (ofMonth ym l)) b).
Proof.
  revert a b. induction l as [|r l IH]; intros a b; cbn [fold_left]; [done|].
  unfold transactionStep at 2, transactionLoop, ofMonth.
  destruct (inMonth ym (get r "date")) eqn:Hin.
  - rewrite filter_cons_True by done. fold (ofMonth ym l).
    fold (amountIn r). cbn [fst snd]. rewrite gains_cons, losses_cons.
    destruct (sign_cases (amountIn r) (amountOf_not_NaN _))
      as [(Hge & Hlt & Hpos)|(Hge & Hlt & Hpos)]; rewrite Hge, IH, Hlt.
    + destruct Hpos as [Hpos|Hzero]; [by rewrite Hpos|].
      rewrite Hzero, add_zero_r.
      by replace (ltb zero zero) with false by by_evaluation.
    + by rewrite Hpos.
  - rewrite filter_cons_False by (by rewrite Hin). apply IH.
Qed.

Lemma fold_add_running {A} (f : A -> jsnum) (l : list A) (s : jsnum) :
  fold_left (fun s x => add s (f x)) l s = fold_left add (map f l) s.
Proof. revert s. induction l as [|x l IH]; intros s; cbn [fold_left map]; auto. Qed.



(** *** The figures in the words of the specification *)

(** The date of a field lies in the month: the text of the field is a
    valid date, the month is valid, and the date lies between the start
    and the end of the month, both included. *)
Definition datedIn (ym : string) (v : jsval) : Prop :=
  exists dt first : Z,
    fromISO (JsVal.toString v) = Some dt
    /\ fromFormat (ym ++ "-01")%string = Some first
    /\ first <= dt <= endOfMonth first.

#[global] Instance datedIn_dec (ym : string) (v : jsval) : Decision (datedIn ym v).
Proof.
  unfold datedIn.
  destruct (fromISO (JsVal.toString v)) as [dt|];
    [|right; by intros (? & ? & ? & _)].
  destruct (fromFormat (ym ++ "-01")%string) as [first|];
    [|right; by intros (? & ? & _ & ? & _)].
  destruct (decide (first <= dt <= endOfMonth first)) as [Hin|Hout].
  - left. by exists dt, first.
  - right. by intros (? & ? & [= <-] & [= <-] & ?).
Defined.


Lemma inMonth_datedIn (ym : string) (v : jsval) :
  inMonth ym v = true <-> datedIn ym v.
Proof.
  unfold inMonth, inWindow, datedIn, monthEnd, monthStart.
  destruct (fromISO _) as [dt|]; [|split; [done|by intros (? & ? & ? & _)]].
  destruct (fromFormat _) as [first|]; simpl;
    [|split; [done|by intros (? & ? & _ & ? & _)]].
  rewrite andb_true_iff, !Z.leb_le. split.
  - intros Hle. by exists dt, first.
  - by intros (? & ? & [= <-] & [= <-] & ?).
Qed.


(** The two loops keep running sums in every arithmetic: each amount of
    the month is added to the total it belongs to, in the order of the
    records, and nothing else happens to the totals. *)
Section AnyArithmetic.
Context {N : Type} (plus : N -> N -> N) (magnitude : N -> N)
  (nonneg : N -> bool) (amount : jsval -> N).

Definition amountsWith (ym : string) (l : list (gmap string jsval)) : list N :=
  map (fun r => amount (get r "amount"))
    (filter (fun r => datedIn ym (get r "date")) l).

Lemma incomeLoop_running (ym : string) (l : list (gmap string jsval)) (s : N) :
  fold_left (incomeLoop plus amount ym) l s
  = fold_left plus (amountsWith ym l) s.
Proof.
  unfold amountsWith.
  revert s. induction l as [|r l IH]; intros s; cbn [fold_left]; [done|].
  rewrite IH. unfold incomeLoop.
  destruct (inMonth ym (get r "date")) eqn:Hin.
  - by rewrite filter_cons_True by (by apply inMonth_datedIn).
  - rewrite filter_cons_False; [done|].
    rewrite <- inMonth_datedIn. by rewrite Hin.
Qed.

Lemma transactionLoop_running (ym : string) (l : list (gmap string jsval))
  (a b : N) :
  fold_left (transactionLoop plus magnitude nonneg amount ym) l (a, b)
  = (fold_left plus (filter (fun v => nonneg v = true) (amountsWith ym l)) a,
     fold_left plus
       (map magnitude (filter (fun v => nonneg v = false) (amountsWith ym l)))
       b).
Proof.
  unfold amountsWith.
  revert a b. induction l as [|r l IH]; intros a b; cbn [fold_left]; [done|].
  unfold transactionLoop at 2.
  destruct (inMonth ym (get r "date")) eqn:Hin.
  - rewrite filter_cons_True by (by apply inMonth_datedIn). cbn [map fst snd].
    destruct (nonneg (amount (get r "amount"))) eqn:Hsign; rewrite IH.
    + rewrite filter_cons_True by done.
      by rewrite filter_cons_False by (by rewrite Hsign).
    + rewrite filter_cons_False by (by rewrite Hsign).
      by rewrite filter_cons_True by done.
  - rewrite filter_cons_False; [apply IH|].
    rewrite <- inMonth_datedIn. by rewrite Hin.
Qed.

End AnyArithmetic.

(** So it is in the arithmetic of the platform: the total income is the
    running sum of the income amounts of the month followed by the
    transaction amounts of the month that are not negative, the total
    expenses that of the absolute values of the others. *)
Lemma binary64_running_totals (st : state) :
  let incomes :=
    amountsWith Binary64.amountOf (currentMonth st) (income (store st)) in
  let amounts :=
    amountsWith Binary64.amountOf (currentMonth st) (transactions (store st)) in
  Binary64.totals st
  = (Binary64.sum
       (incomes
        ++ filter (fun v => Binary64.geb v Binary64.zero = true) amounts),
     Binary64.sum
       (map Binary64.abs
          (filter (fun v => Binary64.geb v Binary64.zero = false) amounts))).
Proof.
  intros incomes amounts.
  unfold Binary64.totals, Binary64.transactionStep, Binary64.incomeStep.
  rewrite transactionLoop_running, incomeLoop_running.
  unfold Binary64.sum. by rewrite fold_left_app.
Qed.


End WithDates.

(** January 2024: a salary of 1000, a refund of 20.50 and rent of 1200 lie
    in the month, a transaction of February does not, and one amount is no
    number; the budgets are used at 40 and 75 per cent. *)
Definition januaryLedger : state :=
  State
    (Data []
       [ {[ "id" := VStr "1"; "amount" := VNum (ofZ 1000); "date" := VStr "2024-01-05" ]} ]
       [ {[ "id" := VStr "2"; "amount" := VStr "20.50"; "date" := VStr "2024-01-09" ]};
         {[ "id" := VStr "3"; "amount" := VNum (ofZ (-1200)); "date" := VStr "2024-01-01" ]};
         {[ "id" := VStr "4"; "amount" := VNum (ofZ (-70)); "date" := VStr "2024-02-01" ]};
         {[ "id" := VStr "5"; "amount" := VStr "n/a"; "date" := VStr "2024-01-20" ]} ]
       []
       [ {[ "name" := VStr "Food"; "utilization" := VNum (ofZ 40) ]};
         {[ "name" := VStr "Fuel"; "utilization" := VStr "75" ]} ])
    "2024-01" [] [].




Example updateDashboardKPIs_example :
  updateDashboardKPIs (L := Civil) januaryLedger
  = Kpis (Fin (Q2Qc (2041 # 2))) (ofZ 1200) (Fin (Q2Qc (- 359 # 2))) (ofZ 58).
Proof. by_evaluation. Qed.

End KpiClaims.

(** ** Summary statistics *)

Module AnalyticsClaims.
Import JsString JsNum JsVal App Views NumFacts.

Definition incomeColumns : list string :=
  ["source"; "amount"; "date"; "recurrence"; "status"].





(** An amount that is a text and not a number is not read as zero here:
    the total, the average, the maximum and the minimum are all [NaN]. *)
Example renderAnalytics_text_amount :
  renderAnalytics incomeColumns
    [ {[ "id" := VStr "1"; "source" := VStr "Gift"; "amount" := VStr "n/a" ]};
      {[ "id" := VStr "2"; "source" := VStr "Salary"; "amount" := VNum (ofZ 1000) ]} ]
  = Some (Some (Stats NaN NaN NaN NaN), 2%nat).
Proof. by_evaluation. Qed.





Example renderAnalytics_example :
  renderAnalytics incomeColumns [UndoClaims.salary; UndoClaims.refund]
  = Some (Some (Stats (ofZ 1005) (Fin (Q2Qc (1005 # 2))) (ofZ 1000) (ofZ 5)),
          2%nat).
Proof. by_evaluation. Qed.

End AnalyticsClaims.

(** ** Sorting *)

Module SortFacts.
Import JsString JsNum JsVal App Views NumFacts.

Lemma ltb_irrefl (a : jsnum) : ltb a a = false.
Proof.
  destruct a as [| | |q]; simpl; try done.
  apply bool_decide_eq_false_2, Qclt_irrefl.
Qed.

Lemma ltb_trans (a b c : jsnum) :
  ltb a b = true -> ltb b c = true -> ltb a c = true.
Proof.
  destruct a as [| | |x], b as [| | |y], c as [| | |z]; simpl; try done.
  rewrite !bool_decide_eq_true. apply Qclt_trans.
Qed.

Lemma ltb_asym (a b : jsnum) : ltb a b = true -> ltb b a = false.
Proof.
  intros Hab. destruct (ltb b a) eqn:Hba; [|done].
  by rewrite <- (ltb_irrefl a), <- (ltb_trans a b a Hab Hba).
Qed.

Lemma ltb_total (a b : jsnum) :
  a ≠ NaN -> b ≠ NaN -> a ≠ b -> ltb a b = true \/ ltb b a = true.
Proof.
  destruct a as [| | |x], b as [| | |y]; simpl; try done; auto.
  intros _ _ Hne. rewrite !bool_decide_eq_true.
  destruct (Qc_dec x y) as [[?|?]|?]; [auto..|congruence].
Qed.

(** The sign of a difference of two numbers. *)
Lemma sub_positive (a b : jsnum) :
  a ≠ NaN -> b ≠ NaN -> ltb zero (sub a b) = ltb b a.
Proof.
  destruct a as [| | |x], b as [| | |y]; simpl; try done. intros _ _.
  apply bool_decide_ext. change (Q2Qc (inject_Z 0)) with 0%Qc.
  symmetry. apply Qclt_minus_iff.
Qed.

Lemma neg_sub (a b : jsnum) : neg (sub a b) = sub b a.
Proof.
  destruct a as [| | |x], b as [| | |y]; simpl; try done. f_equal. ring.
Qed.

Lemma eqb_zero_not_positive (a : jsnum) :
  JsNum.eqb a zero = true -> ltb zero a = false.
Proof.
  destruct a as [| | |x]; simpl; try done.
  rewrite bool_decide_eq_true. intros ->. apply bool_decide_eq_false_2.
  apply Qclt_irrefl.
Qed.

Section Insertion.
Context {A : Type} (key : A -> jsnum) (up down : A -> A -> jsnum).

(** [up] sorts by increasing key and [down] by decreasing key. *)
Hypothesis up_after : forall x y : A,
  key x ≠ NaN -> key y ≠ NaN -> goesAfter up x y = ltb (key y) (key x).
Hypothesis down_after : forall x y : A,
  key x ≠ NaN -> key y ≠ NaN -> goesAfter down x y = ltb (key x) (key y).

Definition ascending (l : list A) : Prop :=
  StronglySorted (fun a b => ltb (key a) (key b) = true) l.

Lemma insertSorted_elem_of (cmp : A -> A -> jsnum) (x z : A) (l : list A) :
  z ∈ insertSorted cmp x l <-> z = x \/ z ∈ l.
Proof.
  induction l as [|y l IH]; simpl.
  - rewrite list_elem_of_singleton, elem_of_nil. tauto.
  - destruct (goesAfter cmp x y); rewrite !elem_of_cons; [rewrite IH|]; tauto.
Qed.

Lemma sortWith_elem_of (cmp : A -> A -> jsnum) (z : A) (l : list A) :
  z ∈ sortWith cmp l <-> z ∈ l.
Proof.
  induction l as [|y l IH]; simpl; [done|].
  rewrite insertSorted_elem_of, elem_of_cons, IH. tauto.
Qed.

Lemma insertSorted_Permutation (cmp : A -> A -> jsnum) (x : A) (l : list A) :
  insertSorted cmp x l ≡ₚ x :: l.
Proof.
  induction l as [|y l IH]; simpl; [done|].
  destruct (goesAfter cmp x y); [|done]. rewrite IH. apply Permutation_swap.
Qed.

(** Sorting rearranges: nothing is lost and nothing is added. *)
Lemma sortWith_Permutation (cmp : A -> A -> jsnum) (l : list A) :
  sortWith cmp l ≡ₚ l.
Proof.
  induction l as [|y l IH]; simpl; [done|].
  rewrite insertSorted_Permutation. by rewrite IH.
Qed.

(** An element that does not move behind [y] stays in front of it. *)
Lemma insertSorted_snoc (cmp : A -> A -> jsnum) (x y : A) (l : list A) :
  goesAfter cmp x y = false ->
  insertSorted cmp x (l ++ [y]) = insertSorted cmp x l ++ [y].
Proof.
  intros Hxy. induction l as [|z l IH]; simpl.
  - by rewrite Hxy.
  - destruct (goesAfter cmp x z); [by rewrite IH|done].
Qed.

(** An element that moves behind all others ends up last. *)
Lemma insertSorted_last (cmp : A -> A -> jsnum) (x : A) (l : list A) :
  Forall (fun z => goesAfter cmp x z = true) l ->
  insertSorted cmp x l = l ++ [x].
Proof.
  induction 1 as [|z l Hz _ IH]; simpl; [done|]. by rewrite Hz, IH.
Qed.

Lemma insertSorted_ascending (x : A) (s : list A) :
  key x ≠ NaN -> Forall (fun z => key z ≠ NaN) s ->
  Forall (fun z => key z ≠ key x) s ->
  ascending s -> ascending (insertSorted up x s).
Proof.
  intros Hx Hnan Hfresh Hs. induction Hs as [|y s Hs IH Hy]; simpl.
  - repeat constructor.
  - inversion_clear Hnan as [|? ? Hynan Hsnan].
    inversion_clear Hfresh as [|? ? Hyx Hsx].
    rewrite up_after by done. destruct (ltb (key y) (key x)) eqn:Hlt.
    + constructor; [by apply IH|].
      apply Forall_forall. intros z Hz.
      apply insertSorted_elem_of in Hz as [->|Hz]; [done|].
      by eapply Forall_forall in Hy.
    + assert (ltb (key x) (key y) = true) as Hxy.
      { destruct (ltb_total (key x) (key y)); [done|done|congruence|done|congruence]. }
      constructor; [by constructor|]. constructor; [done|].
      eapply Forall_impl; [exact Hy|]. intros z Hz. by eapply ltb_trans.
Qed.

Lemma sortWith_ascending (l : list A) :
  Forall (fun z => key z ≠ NaN) l -> NoDup (key <$> l) ->
  ascending (sortWith up l).
Proof.
  intros Hnan Hdup. induction l as [|x l IH]; simpl; [constructor|].
  inversion_clear Hnan as [|? ? Hx Hl].
  apply NoDup_cons in Hdup as [Hfresh Hdup].
  apply insertSorted_ascending; [done| | |by apply IH].
  - apply Forall_forall. intros z Hz. apply sortWith_elem_of in Hz.
    by eapply Forall_forall in Hl.
  - apply Forall_forall. intros z Hz Heq. apply sortWith_elem_of in Hz.
    apply Hfresh. rewrite <- Heq. by apply list_elem_of_fmap_2.
Qed.

(** Inserting for the decreasing order into the reversed list mirrors
    inserting for the increasing order. *)
Lemma insertSorted_reverse (x : A) (s : list A) :
  key x ≠ NaN -> Forall (fun z => key z ≠ NaN) s ->
  Forall (fun z => key z ≠ key x) s ->
  ascending s ->
  insertSorted down x (reverse s) = reverse (insertSorted up x s).
Proof.
  intros Hx Hnan Hfresh Hs. induction Hs as [|y s Hs IH Hy]; [done|].
  inversion_clear Hnan as [|? ? Hynan Hsnan].
  inversion_clear Hfresh as [|? ? Hyx Hsx].
  cbn [insertSorted]. rewrite up_after by done.
  destruct (ltb (key y) (key x)) eqn:Hlt.
  - rewrite !reverse_cons, <- IH by done.
    apply insertSorted_snoc. rewrite down_after by done. by apply ltb_asym.
  - assert (ltb (key x) (key y) = true) as Hxy.
    { destruct (ltb_total (key x) (key y)); [done|done|congruence|done|congruence]. }
    rewrite (reverse_cons _ x). apply insertSorted_last.
    apply Forall_forall. intros z Hz.
    rewrite elem_of_reverse, elem_of_cons in Hz.
    destruct Hz as [->|Hz]; [by rewrite down_after|].
    rewrite down_after; [|done|by eapply Forall_forall in Hsnan].
    eapply ltb_trans; [exact Hxy|]. by eapply Forall_forall in Hy.
Qed.

Lemma sortWith_reverse (l : list A) :
  Forall (fun z => key z ≠ NaN) l -> NoDup (key <$> l) ->
  sortWith down l = reverse (sortWith up l).
Proof.
  intros Hnan Hdup. induction l as [|x l IH]; [done|].
  inversion Hnan as [|? ? Hx Hl]; subst.
  pose proof Hdup as Hdup'. apply NoDup_cons in Hdup' as [Hfresh Hdupl].
  cbn [sortWith foldr]. fold (sortWith down l). fold (sortWith up l).
  rewrite IH by done. apply insertSorted_reverse; [done| | |].
  - apply Forall_forall. intros z Hz. apply sortWith_elem_of in Hz.
    by eapply Forall_forall in Hl.
  - apply Forall_forall. intros z Hz Heq. apply sortWith_elem_of in Hz.
    apply Hfresh. rewrite <- Heq. by apply list_elem_of_fmap_2.
  - by apply sortWith_ascending.
Qed.

(** Sorting a list that is in increasing order changes nothing. *)
Lemma sortWith_sorted (s : list A) :
  Forall (fun z => key z ≠ NaN) s -> ascending s -> sortWith up s = s.
Proof.
  intros Hnan Hs. induction Hs as [|y s Hs IH Hy]; [done|].
  inversion_clear Hnan as [|? ? Hynan Hsnan].
  cbn [sortWith foldr]. fold (sortWith up s). rewrite IH by done.
  destruct s as [|z s]; [done|]. cbn [insertSorted].
  apply Forall_cons in Hy as [Hyz _]. apply Forall_cons in Hsnan as [Hz _].
  rewrite up_after by done. by rewrite (ltb_asym _ _ Hyz).
Qed.

End Insertion.

(** *** Sorting by an order *)

Section SortedBy.
Context {A : Type} (cmp : A -> A -> jsnum) (P : A -> Prop) (le : A -> A -> Prop).

Hypothesis le_trans : forall x y z : A, P x -> P y -> P z -> le x y -> le y z -> le x z.
Hypothesis after_le : forall x y : A, P x -> P y -> goesAfter cmp x y = true -> le y x.
Hypothesis before_le : forall x y : A, P x -> P y -> goesAfter cmp x y = false -> le x y.

Lemma insertSorted_sorted_by (x : A) (l : list A) :
  P x -> Forall P l -> StronglySorted le l ->
  StronglySorted le (insertSorted cmp x l).
Proof.
  intros Hx HP Hl. induction Hl as [|y l Hl IH Hy]; simpl.
  - by repeat constructor.
  - apply Forall_cons in HP as [HPy HP].
    destruct (goesAfter cmp x y) eqn:Hxy.
    + constructor; [by apply IH|]. apply Forall_forall. intros w Hw.
      apply insertSorted_elem_of in Hw as [->|Hw]; [by apply after_le|].
      by eapply Forall_forall in Hy.
    + constructor; [by constructor|]. constructor; [by apply before_le|].
      apply Forall_forall. intros w Hw.
      apply le_trans with y; [done|done| |by apply before_le|].
      * by eapply Forall_forall in HP.
      * by eapply Forall_forall in Hy.
Qed.

Lemma sortWith_sorted_by (l : list A) :
  Forall P l -> StronglySorted le (sortWith cmp l).
Proof.
  induction 1 as [|x l Hx Hl IH]; simpl; [constructor|].
  apply insertSorted_sorted_by; [done| |done].
  apply Forall_forall. intros w Hw. apply sortWith_elem_of in Hw.
  by eapply Forall_forall in Hl.
Qed.

End SortedBy.

Lemma ltb_false_trans (a b c : jsnum) :
  a ≠ NaN -> b ≠ NaN -> c ≠ NaN ->
  ltb b a = false -> ltb c b = false -> ltb c a = false.
Proof.
  intros Ha Hb Hc Hab Hbc. destruct (ltb c a) eqn:Hca; [|done].
  destruct (decide (b = c)) as [->|Hne]; [congruence|].
  destruct (ltb_total b c Hb Hc Hne) as [H|H]; [|congruence].
  by rewrite (ltb_trans _ _ _ H Hca) in Hab.
Qed.

End SortFacts.

Module SortClaims.
Import JsString JsNum JsVal App Views NumFacts SortFacts.

Definition first : gmap string jsval :=
  {[ "id" := VStr "1"; "source" := VStr "Salary"; "amount" := VNum (ofZ 5) ]}.

Definition second : gmap string jsval :=
  {[ "id" := VStr "2"; "source" := VStr "Refund"; "amount" := VNum (ofZ 5) ]}.

Definition third : gmap string jsval :=
  {[ "id" := VStr "3"; "source" := VStr "Bonus"; "amount" := VNum (ofZ 12) ]}.

(** C9 as stated fails.  Two records with the same amount keep their order
    under both directions, the sort being stable, so the descending order
    is not the reverse of the ascending one. *)
Lemma sort_ties_not_reversed :
  multiColumnSort (C := CodeUnits) [first; second] [("amount", "asc")]
  = [first; second]
  /\ multiColumnSort (C := CodeUnits) [first; second] [("amount", "desc")]
     = [first; second]
  /\ multiColumnSort (C := CodeUnits)
       (multiColumnSort (C := CodeUnits) [first; second] [("amount", "asc")])
       [("amount", "desc")]
     = [first; second]
  /\ [first; second] ≠ reverse [first; second].
Proof. repeat split; by_evaluation. Qed.

(** The number that a record holds in a column, [NaN] when it holds
    something else. *)
Definition numberAt (key : string) (r : gmap string jsval) : jsnum :=
  match get r key with
  | VNum n => n
  | _ => NaN
  end.

Section WithCollator.
Context {C : Collator}.

Lemma numberAt_get (key : string) (r : gmap string jsval) :
  numberAt key r ≠ NaN -> get r key = VNum (numberAt key r).
Proof. unfold numberAt. by destruct (get r key). Qed.

Lemma ascending_after (key : string) (x y : gmap string jsval) :
  numberAt key x ≠ NaN -> numberAt key y ≠ NaN ->
  goesAfter (compareKeys [(key, "asc")]) x y
  = ltb (numberAt key y) (numberAt key x).
Proof.
  intros Hx Hy. unfold goesAfter, compareKeys.
  rewrite (numberAt_get key x Hx), (numberAt_get key y Hy).
  cbn [is_number toNumber String.eqb Ascii.eqb Bool.eqb].
  destruct (JsNum.eqb _ zero) eqn:Hz; cbn [negb].
  - rewrite <- (sub_positive (numberAt key x)) by done.
    rewrite (eqb_zero_not_positive _ Hz). by_evaluation.
  - by apply sub_positive.
Qed.

Lemma descending_after (key dir : string) (x y : gmap string jsval) :
  dir ≠ "asc" ->
  numberAt key x ≠ NaN -> numberAt key y ≠ NaN ->
  goesAfter (compareKeys [(key, dir)]) x y
  = ltb (numberAt key x) (numberAt key y).
Proof.
  intros Hdir Hx Hy. unfold goesAfter, compareKeys.
  rewrite (numberAt_get key x Hx), (numberAt_get key y Hy).
  cbn [is_number toNumber]. apply String.eqb_neq in Hdir as ->.
  rewrite <- (sub_positive (numberAt key y) (numberAt key x)) by done.
  rewrite <- (neg_sub (numberAt key x)).
  destruct (JsNum.eqb _ zero) eqn:Hz; cbn [negb]; [|done].
  replace (ltb zero zero) with false by by_evaluation. symmetry.
  destruct (sub _ _) as [| | |q]; try done.
  simpl in Hz. apply bool_decide_eq_true_1 in Hz as ->. by_evaluation.
Qed.

(** C9, amended.  When every record holds a number other than [NaN] in
    the column and no two records hold the same number, sorting by the
    column in descending order gives exactly the reverse of sorting by it
    in ascending order, from the collection as it stands as well as from
    the collection already sorted in ascending order. *)
Theorem sort_descending_reverses (key : string)
  (items : list (gmap string jsval)) :
  Forall (fun r => numberAt key r ≠ NaN) items ->
  NoDup (numberAt key <$> items) ->
  multiColumnSort items [(key, "desc")]
  = reverse (multiColumnSort items [(key, "asc")])
  /\ multiColumnSort (multiColumnSort items [(key, "asc")]) [(key, "desc")]
     = reverse (multiColumnSort items [(key, "asc")])
  /\ StronglySorted
       (fun a b => ltb (numberAt key a) (numberAt key b) = true)
       (multiColumnSort items [(key, "asc")]).
Proof.
  intros Hnum Hdup. unfold multiColumnSort.
  pose proof (ascending_after key) as Hup.
  pose proof (fun x y => descending_after key "desc" x y ltac:(done)) as Hdown.
  pose proof (sortWith_ascending (numberAt key) _ Hup items Hnum Hdup) as Hsorted.
  assert (Forall (fun r => numberAt key r ≠ NaN)
            (sortWith (compareKeys [(key, "asc")]) items)) as Hnum'.
  { apply Forall_forall. intros z Hz. apply sortWith_elem_of in Hz.
    by eapply Forall_forall in Hnum. }
  split; [by apply (sortWith_reverse (numberAt key))|]. split; [|done].
  rewrite (sortWith_reverse (numberAt key) _ _ Hup Hdown).
  - by rewrite (sortWith_sorted (numberAt key) _ Hup).
  - done.
  - by rewrite (sortWith_Permutation _ items).
Qed.

End WithCollator.

Lemma sort_descending_reverses_witness :
  multiColumnSort (C := CodeUnits) [third; first] [("amount", "desc")]
  = reverse (multiColumnSort (C := CodeUnits) [third; first] [("amount", "asc")]).
Proof.
  apply (sort_descending_reverses (C := CodeUnits) "amount" [third; first]);
    by_evaluation.
Defined.

Example sort_example :
  multiColumnSort (C := CodeUnits) [third; first] [("amount", "asc")]
  = [first; third]
  /\ multiColumnSort (C := CodeUnits) [third; first] [("amount", "desc")]
     = [third; first].
Proof. split; by_evaluation. Qed.

End SortClaims.

(** ** Strings: trimming, splitting and joining *)

Module StringFacts.
Import JsString.

(** The character [c] does not occur in the string. *)
Fixpoint lacks (c : ascii) (s : string) : Prop :=
  match s with
  | EmptyString => True
  | String a r => a ≠ c /\ lacks c r
  end.

#[global] Instance lacks_dec (c : ascii) (s : string) : Decision (lacks c s).
Proof. induction s; simpl; apply _. Defined.

Lemma append_cons (x : ascii) (a b : string) :
  (String x a ++ b)%string = String x (a ++ b).
Proof. done. Qed.

Lemma append_nil_l (b : string) : ("" ++ b)%string = b.
Proof. done. Qed.

Lemma append_nil_r (s : string) : (s ++ "")%string = s.
Proof. induction s as [|a s IH]; [done|]. by rewrite append_cons, IH. Qed.

Lemma append_assoc (a b c : string) :
  ((a ++ b) ++ c)%string = (a ++ (b ++ c))%string.
Proof. induction a as [|x a IH]; [done|]. by rewrite !append_cons, IH. Qed.

Lemma lacks_append (c : ascii) (a b : string) :
  lacks c (a ++ b) <-> lacks c a /\ lacks c b.
Proof.
  induction a as [|x a IH]; [rewrite append_nil_l; simpl; tauto|].
  rewrite append_cons. simpl. rewrite IH. tauto.
Qed.

(** *** Trimming *)

Lemma trimStart_lacks (c : ascii) (s : string) : lacks c s -> lacks c (trimStart s).
Proof.
  induction s as [|a s IH]; simpl; [done|]. intros [Ha Hs].
  destruct (is_ws a); [by apply IH|done].
Qed.

Lemma trimEnd_lacks (c : ascii) (s : string) : lacks c s -> lacks c (trimEnd s).
Proof.
  induction s as [|a s IH]; simpl; [done|]. intros [Ha Hs].
  specialize (IH Hs). destruct (trimEnd s); [|done].
  by destruct (is_ws a).
Qed.

Lemma trim_lacks (c : ascii) (s : string) : lacks c s -> lacks c (trim s).
Proof. intros H. by apply trimEnd_lacks, trimStart_lacks. Qed.

(** The string is empty or starts with a character that is not white
    space. *)
Definition startsSolid (s : string) : Prop :=
  match s with
  | EmptyString => True
  | String a _ => is_ws a = false
  end.

Lemma trimStart_startsSolid (s : string) : startsSolid (trimStart s).
Proof.
  induction s as [|a s IH]; simpl; [done|].
  by destruct (is_ws a) eqn:Ha.
Qed.

Lemma startsSolid_trimStart (s : string) : startsSolid s -> trimStart s = s.
Proof. destruct s as [|a s]; simpl; [done|]. by intros ->. Qed.

Lemma trimEnd_startsSolid (s : string) : startsSolid s -> startsSolid (trimEnd s).
Proof.
  destruct s as [|a s]; simpl; [done|]. intros Ha.
  destruct (trimEnd s); [by rewrite Ha|done].
Qed.

Lemma trimEnd_idem (s : string) : trimEnd (trimEnd s) = trimEnd s.
Proof.
  induction s as [|a s IH]; simpl; [done|].
  destruct (trimEnd s) as [|b r] eqn:Hr.
  - destruct (is_ws a) eqn:Ha; simpl; [done|]. by rewrite Ha.
  - change (trimEnd (String a (String b r))) with
      (match trimEnd (String b r) with
       | EmptyString => if is_ws a then EmptyString else String a EmptyString
       | r' => String a r'
       end).
    by rewrite IH.
Qed.

(** A trimmed text stays as it is when trimmed again. *)
Lemma trim_idem (s : string) : trim (trim s) = trim s.
Proof.
  unfold trim.
  rewrite (startsSolid_trimStart (trimEnd (trimStart s))).
  - apply trimEnd_idem.
  - apply trimEnd_startsSolid, trimStart_startsSolid.
Qed.

Lemma trimEnd_cons (a : ascii) (s : string) :
  trimEnd s ≠ "" -> trimEnd (String a s) = String a (trimEnd s).
Proof. simpl. by destruct (trimEnd s). Qed.

(** White space in front of a text that does not trim to nothing is kept
    by [trimEnd]. *)
Lemma trimEnd_append (a b : string) :
  trimEnd b ≠ "" -> trimEnd (a ++ b) = (a ++ trimEnd b)%string.
Proof.
  intros Hb. induction a as [|x a IH]; [done|].
  rewrite !append_cons, trimEnd_cons; rewrite IH; [done|].
  destruct a; [done|]. by rewrite append_cons.
Qed.

Lemma trimEnd_newline (s : string) :
  trimEnd (s ++ String LF "") = trimEnd s.
Proof.
  induction s as [|a s IH]; [done|].
  rewrite append_cons. simpl. by rewrite IH.
Qed.

(** *** Splitting at a character *)

Lemma split_nonempty (sep : ascii) (s : string) : split sep s ≠ [].
Proof.
  destruct s as [|a s]; simpl; [done|].
  destruct (Ascii.eqb a sep); [done|]. by destruct (split sep s).
Qed.

Lemma split_lacks (sep c : ascii) (s : string) :
  c = sep \/ lacks c s -> Forall (lacks c) (split sep s).
Proof.
  induction s as [|a s IH]; simpl.
  - intros _. by repeat constructor.
  - intros H. destruct (Ascii.eqb_spec a sep) as [->|Hne].
    + constructor; [done|]. apply IH. destruct H as [?|[_ ?]]; auto.
    + assert (a ≠ c) as Hac by (destruct H as [->|[? _]]; done).
      assert (Forall (lacks c) (split sep s)) as Hs
        by (apply IH; destruct H as [?|[_ ?]]; auto).
      destruct (split sep s) as [|h t]; [by repeat constructor|].
      inversion_clear Hs. by constructor.
Qed.

Lemma split_lacking (sep : ascii) (s : string) :
  lacks sep s -> split sep s = [s].
Proof.
  induction s as [|a s IH]; simpl; [done|]. intros [Ha Hs].
  apply Ascii.eqb_neq in Ha as ->. by rewrite IH.
Qed.

Lemma split_append (sep : ascii) (a b : string) :
  lacks sep a ->
  split sep (a ++ String sep b) = a :: split sep b.
Proof.
  induction a as [|x a IH]; [rewrite append_nil_l|rewrite append_cons]; simpl.
  - by rewrite Ascii.eqb_refl.
  - intros [Hx Ha]. apply Ascii.eqb_neq in Hx as ->. by rewrite IH.
Qed.

(** Splitting undoes joining when no field holds the separator. *)
Lemma split_join (sep : ascii) (fields : list string) :
  fields ≠ [] -> Forall (lacks sep) fields ->
  split sep (join (String sep "") fields) = fields.
Proof.
  intros Hne Hall. induction Hall as [|f fs Hf Hfs IH]; [done|].
  destruct fs as [|g fs]; [by apply split_lacking|].
  change (join (String sep "") (f :: g :: fs))
    with (f ++ String sep "" ++ join (String sep "") (g :: fs))%string.
  rewrite append_cons, append_nil_l, split_append by done. by rewrite IH.
Qed.

(** *** Splitting into lines *)

Lemma splitLines_lacks_step (a : ascii) (s : string) :
  Forall (lacks LF) (splitLines s) ->
  Forall (lacks LF) (splitLines (match s with String _ r => r | _ => s end)) ->
  Forall (lacks LF) (splitLines (String a s)).
Proof.
  intros Hs Hr.
  assert (a ≠ LF ->
          Forall (lacks LF)
            match splitLines s with
            | h :: t => String a h :: t
            | [] => [String a ""]
            end) as Hkeep.
  { intros Ha. destruct (splitLines s) as [|h t]; [by repeat constructor|].
    inversion_clear Hs. by constructor. }
  cbn [splitLines]. destruct (Ascii.eqb_spec a LF) as [->|Ha]; [by constructor|].
  destruct (Ascii.eqb a CR); [|by apply Hkeep].
  destruct s as [|b s]; [by apply Hkeep|].
  destruct (Ascii.eqb b LF); [|by apply Hkeep].
  by constructor.
Qed.

(** No line holds a line feed. *)
Lemma splitLines_lacks (s : string) : Forall (lacks LF) (splitLines s).
Proof.
  enough (Forall (lacks LF) (splitLines s)
          /\ forall a, Forall (lacks LF) (splitLines (String a s))) by tauto.
  induction s as [|b s [IH1 IH2]].
  - split; [by repeat constructor|]. intros a.
    apply splitLines_lacks_step; by repeat constructor.
  - split; [apply IH2|]. intros a. by apply splitLines_lacks_step.
Qed.

Lemma splitLines_lacking (l : string) : lacks LF l -> splitLines l = [l].
Proof.
  induction l as [|c l IH]; [done|]. intros [Hc Hl].
  cbn [splitLines]. rewrite (IH Hl). apply Ascii.eqb_neq in Hc as ->.
  destruct (Ascii.eqb c CR); [|done].
  destruct l as [|c' l]; [done|]. destruct Hl as [Hc' _].
  by apply Ascii.eqb_neq in Hc' as ->.
Qed.

(** The text does not end in white space. *)
Definition endsSolid (s : string) : Prop := trimEnd s = s.

Lemma endsSolid_tail (c : ascii) (s : string) :
  endsSolid (String c s) -> endsSolid s.
Proof.
  unfold endsSolid. simpl. destruct (trimEnd s) as [|b r] eqn:Hr.
  - destruct (is_ws c); [done|]. by intros [= <-].
  - by intros [= <-].
Qed.

Lemma endsSolid_not_ws (c : ascii) : endsSolid (String c "") -> is_ws c = false.
Proof. unfold endsSolid. simpl. by destruct (is_ws c). Qed.

Lemma endsSolid_cons (c : ascii) (s : string) :
  endsSolid s -> s ≠ "" \/ is_ws c = false -> endsSolid (String c s).
Proof.
  unfold endsSolid. intros Hs Hc. simpl. rewrite Hs.
  destruct s as [|b r]; [|done]. destruct Hc as [?| ->]; done.
Qed.

Lemma endsSolid_append (a b : string) :
  endsSolid b -> b ≠ "" -> endsSolid (a ++ b).
Proof.
  unfold endsSolid. intros Hb Hne. rewrite trimEnd_append; rewrite Hb; done.
Qed.

(** A line that ends solidly is cut off at the line feed that follows. *)
Lemma splitLines_append (l rest : string) :
  lacks LF l -> endsSolid l ->
  splitLines (l ++ String LF rest) = l :: splitLines rest.
Proof.
  induction l as [|c l IH]; [done|]. intros [Hc Hl] Hsolid.
  rewrite append_cons. cbn [splitLines].
  rewrite (IH Hl (endsSolid_tail _ _ Hsolid)).
  apply Ascii.eqb_neq in Hc as ->.
  destruct (Ascii.eqb_spec c CR) as [->|_]; [|done].
  destruct l as [|c' l].
  - by apply endsSolid_not_ws in Hsolid.
  - rewrite append_cons. destruct Hl as [Hc' _].
    by apply Ascii.eqb_neq in Hc' as ->.
Qed.

Lemma join_cons2 (sep f g : string) (fs : list string) :
  join sep (f :: g :: fs) = (f ++ sep ++ join sep (g :: fs))%string.
Proof. done. Qed.

(** Splitting into lines undoes joining lines that hold no line feed and
    end solidly. *)
Lemma splitLines_join (ls : list string) :
  ls ≠ [] -> Forall (fun l => lacks LF l /\ endsSolid l) ls ->
  splitLines (join (String LF "") ls) = ls.
Proof.
  intros Hne Hall. induction Hall as [|l ls [Hl Hs] Hls IH]; [done|].
  destruct ls as [|g ls]; [by apply splitLines_lacking|].
  rewrite join_cons2, append_cons, append_nil_l, splitLines_append by done.
  by rewrite IH.
Qed.

Lemma join_lines_solid (ls : list string) :
  ls ≠ [] -> Forall (fun l => endsSolid l /\ l ≠ "") ls ->
  endsSolid (join (String LF "") ls) /\ join (String LF "") ls ≠ "".
Proof.
  intros Hne Hall. induction Hall as [|l ls [Hl Hs] Hls IH]; [done|].
  destruct ls as [|g ls]; [done|].
  destruct IH as [IH1 IH2]; [done|]. rewrite join_cons2. split.
  - apply endsSolid_append; [|done]. rewrite append_cons, append_nil_l.
    apply endsSolid_cons; auto.
  - destruct l; [|done]. by rewrite append_nil_l, append_cons.
Qed.

Lemma lacks_join (c sep : ascii) (fs : list string) :
  sep ≠ c -> Forall (lacks c) fs -> lacks c (join (String sep "") fs).
Proof.
  intros Hsep Hall. induction Hall as [|f fs Hf Hfs IH]; [done|].
  destruct fs as [|g fs]; [done|].
  rewrite join_cons2, !lacks_append. simpl. auto.
Qed.

(** Fields that end solidly, joined by a separator that is not white
    space, end solidly. *)
Lemma join_fields_solid (sep : ascii) (fs : list string) :
  is_ws sep = false -> Forall endsSolid fs -> endsSolid (join (String sep "") fs).
Proof.
  intros Hsep Hall. induction Hall as [|f fs Hf Hfs IH]; [done|].
  destruct fs as [|g fs]; [done|].
  rewrite join_cons2, append_cons, append_nil_l.
  apply endsSolid_append; [|done]. apply endsSolid_cons; auto.
Qed.

Lemma join_fields_starts (sep : ascii) (f g : string) (fs : list string) :
  is_ws sep = false -> startsSolid f ->
  startsSolid (join (String sep "") (f :: g :: fs))
  /\ join (String sep "") (f :: g :: fs) ≠ "".
Proof.
  intros Hsep Hf. rewrite join_cons2, append_cons, append_nil_l.
  destruct f as [|c f]; [by rewrite append_nil_l|by rewrite append_cons].
Qed.

Lemma trim_fixed_parts (s : string) :
  trim s = s -> startsSolid s /\ endsSolid s.
Proof.
  intros Hs. split.
  - rewrite <- Hs. apply trimEnd_startsSolid, trimStart_startsSolid.
  - unfold endsSolid. rewrite <- Hs at 1. unfold trim.
    by rewrite trimEnd_idem.
Qed.

Lemma trim_solid (s : string) : startsSolid s -> endsSolid s -> trim s = s.
Proof. intros H1 H2. unfold trim. by rewrite startsSolid_trimStart. Qed.

End StringFacts.

(** ** The CSV round trip *)

Module CsvFacts.
Import JsString JsNum JsVal Csv StringFacts.

(** The text of a cell as [parseCSV] hands it on: trimmed, and free of
    commas and line feeds. *)
Definition clean (s : string) : Prop :=
  trim s = s /\ lacks "," s /\ lacks LF s.

(** A number whose text reads back as the number and is a clean cell. *)
Definition printable (n : jsnum) : Prop :=
  JsConv.ofString (JsConv.toString n) = n
  /\ clean (JsConv.toString n)
  /\ JsConv.toString n ≠ "".

Definition numericHeader (k : string) : bool :=
  test_ci "amount" k || test_ci "utilization" k.

(** A record as [parseCSV] builds it from a text with the columns of the
    bills schema: each column of the schema holds the value of a clean
    cell, and there are no other properties. *)
Definition billRecord (r : gmap string jsval) : Prop :=
  forall k : string,
    if decide (k ∈ billColumns)
    then exists raw : string, clean raw /\ r !! k = Some (parseCell k raw)
    else r !! k = None.

Definition printableRecord (r : gmap string jsval) : Prop :=
  forall (k : string) (n : jsnum), r !! k = Some (VNum n) -> printable n.

Lemma parseCell_cases (k raw : string) :
  parseCell k raw = VStr raw
  \/ (numericHeader k = true /\ raw ≠ "" /\ JsConv.ofString raw ≠ NaN
      /\ parseCell k raw = VNum (JsConv.ofString raw)).
Proof.
  unfold parseCell. fold (numericHeader k).
  destruct (numericHeader k); [|by left].
  destruct (String.eqb_spec raw ""); [by left|]. simpl.
  destruct (JsConv.ofString raw) eqn:Hn; simpl; [by left|right..]; done.
Qed.

Lemma parseCell_number (k : string) (n : jsnum) :
  numericHeader k = true -> printable n -> n ≠ NaN ->
  parseCell k (JsConv.toString n) = VNum n.
Proof.
  intros Hk (Hread & _ & Hne) Hn. unfold parseCell. fold (numericHeader k).
  rewrite Hk, Hread. apply String.eqb_neq in Hne as ->. simpl.
  by destruct n.
Qed.

Lemma fillRow_lookup_notin (headers values : list string)
  (obj : gmap string jsval) (k : string) :
  k ∉ headers -> fillRow headers values obj !! k = obj !! k.
Proof.
  revert values obj. induction headers as [|h hs IH]; intros values obj Hk; [done|].
  apply not_elem_of_cons in Hk as [Hkh Hk]. simpl.
  rewrite IH by done. unfold setField.
  destruct (String.eqb h protoKey); [done|]. by rewrite lookup_insert_ne.
Qed.

Lemma setField_lookup (k : string) (v : jsval) (obj : gmap string jsval) :
  k ≠ protoKey -> setField k v obj !! k = Some v.
Proof.
  intros Hk. unfold setField. apply String.eqb_neq in Hk as ->.
  apply lookup_insert_eq.
Qed.

Lemma fillRow_lookup_in (headers values : list string)
  (obj : gmap string jsval) (k : string) :
  NoDup headers -> k ∈ headers -> k ≠ protoKey ->
  exists v : string,
    (v ∈ values \/ v = "")
    /\ fillRow headers values obj !! k = Some (parseCell k (trim v)).
Proof.
  revert values obj.
  induction headers as [|h hs IH]; intros values obj Hdup Hk Hplain.
  { by apply elem_of_nil in Hk. }
  apply NoDup_cons in Hdup as [Hh Hdup]. simpl.
  destruct (decide (k = h)) as [->|Hne].
  - rewrite fillRow_lookup_notin, setField_lookup by done.
    destruct values as [|v vs]; [exists ""|exists v]; split; auto. by left; left.
  - apply elem_of_cons in Hk as [?|Hk]; [done|].
    destruct (IH (tail values) (setField h (parseCell h
                 match values with v :: _ => trim v | [] => "" end) obj)
                Hdup Hk Hplain) as (v & Hv & Hlook).
    exists v. split; [|done]. destruct Hv as [Hv|?]; [left|by right].
    destruct values; [done|]. by right.
Qed.

(** The cells of one line, read against the headers they were written
    for. *)
Lemma fillRow_map (f : string -> string) (headers : list string)
  (obj : gmap string jsval) (k : string) :
  NoDup headers -> k ∈ headers -> k ≠ protoKey ->
  fillRow headers (f <$> headers) obj !! k = Some (parseCell k (trim (f k))).
Proof.
  revert obj. induction headers as [|h hs IH]; intros obj Hdup Hk Hplain.
  { by apply elem_of_nil in Hk. }
  apply NoDup_cons in Hdup as [Hh Hdup]. simpl.
  destruct (decide (k = h)) as [->|Hne].
  - by rewrite fillRow_lookup_notin, setField_lookup.
  - apply elem_of_cons in Hk as [?|Hk]; [done|]. by apply IH.
Qed.

Lemma clean_trim (v : string) : lacks "," v -> lacks LF v -> clean (trim v).
Proof.
  intros Hc Hl. split; [apply trim_idem|]. split; by apply trim_lacks.
Qed.

Lemma parseRow_billRecord (headers : list string) (line : string) :
  headers ≡ₚ billColumns -> lacks LF line ->
  billRecord (parseRow headers line).
Proof.
  intros Hperm Hline k. unfold parseRow.
  assert (NoDup headers) as Hdup.
  { rewrite Hperm. by_evaluation. }
  destruct (decide (k ∈ billColumns)) as [Hk|Hk].
  - assert (k ≠ protoKey) as Hplain.
    { intros ->. revert Hk. by_evaluation. }
    rewrite <- Hperm in Hk.
    destruct (fillRow_lookup_in headers (split "," line) ∅ k Hdup Hk Hplain)
      as (v & Hv & ->).
    exists (trim v). split; [|done]. destruct Hv as [Hv| ->]; [|by_evaluation].
    apply clean_trim.
    + pose proof (split_lacks "," "," line (or_introl eq_refl)) as Hall.
      by eapply Forall_forall in Hall.
    + pose proof (split_lacks "," LF line (or_intror Hline)) as Hall.
      by eapply Forall_forall in Hall.
  - rewrite <- Hperm in Hk. by rewrite fillRow_lookup_notin.
Qed.

Lemma flattenNewlines_lacking (s : string) : lacks LF s -> flattenNewlines s = s.
Proof.
  induction s as [|c s IH]; [done|]. intros [Hc Hs]. simpl.
  apply Ascii.eqb_neq in Hc as ->. by rewrite IH.
Qed.

(** What [saveBillsToCSV] writes for a column is a clean cell that reads
    back as the value the record holds. *)
Lemma billField_reads_back (r : gmap string jsval) (k raw : string) :
  printableRecord r -> clean raw -> r !! k = Some (parseCell k raw) ->
  clean (billField r k) /\ parseCell k (billField r k) = parseCell k raw.
Proof.
  intros Hprint Hraw Hk. unfold billField, get. rewrite Hk. simpl.
  destruct (parseCell_cases k raw) as [Hs|(Hnum & Hne & Hnan & Hn)].
  - rewrite Hs. simpl. rewrite flattenNewlines_lacking by apply Hraw.
    by destruct (String.eqb k "Notes").
  - rewrite Hn in *. simpl.
    destruct (Hprint k _ Hk) as (Hread & Hclean & Hnonempty).
    rewrite flattenNewlines_lacking by apply Hclean.
    assert (parseCell k (JsConv.toString (JsConv.ofString raw))
            = VNum (JsConv.ofString raw)) as Hback
      by (by apply parseCell_number).
    by destruct (String.eqb k "Notes").
Qed.

Lemma billField_clean (r : gmap string jsval) (k : string) :
  billRecord r -> printableRecord r -> k ∈ billColumns ->
  clean (billField r k) /\ Some (parseCell k (billField r k)) = r !! k.
Proof.
  intros Hr Hprint Hk. specialize (Hr k). rewrite decide_True in Hr by done.
  destruct Hr as (raw & Hraw & Hlook).
  destruct (billField_reads_back r k raw Hprint Hraw Hlook) as [Hc Hp].
  split; [done|]. by rewrite Hp.
Qed.

(** Reading the line written for a record gives the record back. *)
Lemma parseRow_billLine (r : gmap string jsval) :
  billRecord r -> printableRecord r -> parseRow billColumns (billLine r) = r.
Proof.
  intros Hr Hprint. unfold parseRow, billLine.
  rewrite split_join.
  - apply map_eq. intros k. destruct (decide (k ∈ billColumns)) as [Hk|Hk].
    + rewrite fillRow_map; [|by_evaluation|done|].
      2:{ intros ->. revert Hk. by_evaluation. }
      destruct (billField_clean r k Hr Hprint Hk) as [(Htrim & _) <-].
      by rewrite Htrim.
    + rewrite fillRow_lookup_notin by done. specialize (Hr k).
      by rewrite decide_False in Hr.
  - done.
  - apply Forall_fmap, Forall_forall. intros k Hk.
    by destruct (billField_clean r k Hr Hprint Hk) as [(_ & ? & _) _].
Qed.

End CsvFacts.

Module CsvRoundTrip.
Import JsString JsNum JsVal Csv StringFacts CsvFacts.

Definition headerLine : string := join "," billColumns.

(** The lines after the header, each closed by a line feed. *)
Fixpoint body (bills : list (gmap string jsval)) : string :=
  match bills with
  | [] => ""
  | b :: rest => (billLine b ++ newline ++ body rest)%string
  end.

Lemma billsCSV_loop (bills : list (gmap string jsval)) (csv : string) :
  fold_left (fun csv b => (csv ++ billLine b ++ newline)%string) bills csv
  = (csv ++ body bills)%string.
Proof.
  revert csv. induction bills as [|b rest IH]; intros csv; simpl.
  - by rewrite append_nil_r.
  - by rewrite IH, !append_assoc.
Qed.

Lemma lines_body (l : string) (bills : list (gmap string jsval)) :
  (join newline (l :: (billLine <$> bills)) ++ newline)%string
  = (l ++ newline ++ body bills)%string.
Proof.
  revert l. induction bills as [|b rest IH]; intros l.
  - simpl. by rewrite append_nil_r.
  - cbn [fmap list_fmap body]. rewrite join_cons2, !append_assoc.
    by rewrite <- IH.
Qed.

(** The text written is the header line and one line for each record, in
    order, each followed by a line feed. *)
Lemma billsCSV_lines (bills : list (gmap string jsval)) :
  billsCSV bills
  = (join newline (headerLine :: (billLine <$> bills)) ++ newline)%string.
Proof. unfold billsCSV. by rewrite billsCSV_loop, lines_body, append_assoc. Qed.

Definition wellFormed (r : gmap string jsval) : Prop :=
  billRecord r /\ printableRecord r.

Lemma billLine_solid (r : gmap string jsval) :
  wellFormed r ->
  lacks LF (billLine r) /\ startsSolid (billLine r)
  /\ endsSolid (billLine r) /\ billLine r ≠ "".
Proof.
  intros [Hr Hprint].
  assert (Forall clean (map (billField r) billColumns)) as Hclean.
  { apply Forall_fmap, Forall_forall. intros k Hk.
    by destruct (billField_clean r k Hr Hprint Hk). }
  unfold billLine. split; [|split; [|split]].
  - apply lacks_join; [done|].
    eapply Forall_impl; [exact Hclean|]. by intros f (_ & _ & ?).
  - apply Forall_cons in Hclean as [(Hf & _) _].
    apply join_fields_starts; [done|]. by apply trim_fixed_parts.
  - apply join_fields_solid; [done|].
    eapply Forall_impl; [exact Hclean|]. intros f (Hf & _).
    by apply trim_fixed_parts.
  - apply Forall_cons in Hclean as [(Hf & _) _].
    apply join_fields_starts; [done|]. by apply trim_fixed_parts.
Qed.

Lemma headerLine_solid :
  lacks LF headerLine /\ startsSolid headerLine
  /\ endsSolid headerLine /\ headerLine ≠ "".
Proof. repeat split; by_evaluation. Qed.

Lemma solid_nonblank (l : string) :
  startsSolid l -> endsSolid l -> l ≠ "" -> nonblank l = true.
Proof.
  intros H1 H2 H3. unfold nonblank. rewrite trim_solid by done.
  by apply String.eqb_neq in H3 as ->.
Qed.

Lemma startsSolid_append (a b : string) :
  startsSolid a -> a ≠ "" -> startsSolid (a ++ b) /\ (a ++ b)%string ≠ "".
Proof. destruct a as [|c a]; [done|]. by rewrite append_cons. Qed.

Lemma join_lines_starts (l : string) (ls : list string) :
  startsSolid l -> l ≠ "" ->
  startsSolid (join newline (l :: ls)) /\ join newline (l :: ls) ≠ "".
Proof.
  intros H1 H2. destruct ls as [|g ls]; [done|].
  rewrite join_cons2. by apply startsSolid_append.
Qed.

Lemma filter_all {A} (P : A -> Prop) `{!forall x, Decision (P x)} (l : list A) :
  Forall P l -> filter P l = l.
Proof.
  induction 1 as [|x l Hx _ IH]; [done|].
  by rewrite filter_cons_True, IH.
Qed.

Lemma csvLines_billsCSV (bills : list (gmap string jsval)) :
  Forall wellFormed bills ->
  csvLines (billsCSV bills) = headerLine :: (billLine <$> bills).
Proof.
  intros Hall.
  assert (Forall (fun l => lacks LF l /\ startsSolid l /\ endsSolid l /\ l ≠ "")
            (headerLine :: (billLine <$> bills))) as Hlines.
  { constructor; [apply headerLine_solid|].
    apply Forall_fmap. eapply Forall_impl; [exact Hall|].
    intros r Hr. by apply billLine_solid. }
  destruct (join_lines_solid (headerLine :: (billLine <$> bills)))
    as [Hsolid Hne]; [done| |].
  { eapply Forall_impl; [exact Hlines|]. by intros l (_ & _ & ? & ?). }
  destruct (join_lines_starts headerLine (billLine <$> bills)) as [Hstart _];
    [apply headerLine_solid..|].
  unfold csvLines. rewrite billsCSV_lines.
  assert (trim (join newline (headerLine :: (billLine <$> bills)) ++ newline)
          = join newline (headerLine :: (billLine <$> bills))) as ->.
  { unfold trim. rewrite startsSolid_trimStart.
    - by rewrite trimEnd_newline.
    - by apply startsSolid_append. }
  rewrite splitLines_join; [|done|].
  - apply filter_all. eapply Forall_impl; [exact Hlines|].
    intros l (_ & ? & ? & ?). by apply solid_nonblank.
  - eapply Forall_impl; [exact Hlines|]. by intros l (? & _ & ? & _).
Qed.

(** Parsing what [saveBillsToCSV] writes for well-formed records gives the
    records back. *)
Lemma parseCSV_billsCSV (bills : list (gmap string jsval)) :
  Forall wellFormed bills -> parseCSV (billsCSV bills) = bills.
Proof.
  intros Hall. unfold parseCSV.
  rewrite csvLines_billsCSV by done.
  assert (String.eqb (billsCSV bills) "" = false) as ->.
  { apply String.eqb_neq. rewrite billsCSV_lines. intros Hnil.
    destruct (join_lines_starts headerLine (billLine <$> bills)) as [_ Hne];
      [apply headerLine_solid..|].
    destruct (join newline _); [done|]. by rewrite append_cons in Hnil. }
  change (csvHeaders headerLine) with billColumns.
  induction Hall as [|r rest [Hr Hp] _ IH]; [done|].
  cbn [fmap list_fmap map]. rewrite parseRow_billLine by done.
  f_equal. exact IH.
Qed.

(** The header of a text names the columns of the bills schema, in any
    order. *)
Definition billsHeader (text : string) : Prop :=
  match csvLines text with
  | h :: _ => csvHeaders h ≡ₚ billColumns
  | [] => True
  end.

Lemma csvLines_lack (text : string) : Forall (lacks LF) (csvLines text).
Proof.
  unfold csvLines. apply Forall_forall. intros l Hl.
  apply list_elem_of_filter in Hl as [_ Hl].
  pose proof (splitLines_lacks (trim text)) as Hall.
  by eapply Forall_forall in Hall.
Qed.

Lemma parseCSV_billRecords (text : string) :
  billsHeader text -> Forall billRecord (parseCSV text).
Proof.
  unfold billsHeader, parseCSV. intros Hhead.
  destruct (String.eqb text ""); [done|].
  pose proof (csvLines_lack text) as Hlack.
  destruct (csvLines text) as [|h rows]; [done|].
  apply Forall_cons in Hlack as [_ Hrows].
  apply Forall_fmap. eapply Forall_impl; [exact Hrows|].
  intros line Hline. by apply parseRow_billRecord.
Qed.

End CsvRoundTrip.

(** ** Numbers as text *)

Module NumberText.
Import JsString JsNum JsConv StringFacts CsvFacts.

(** A character of a number in decimal notation. *)
Definition plainChar (c : ascii) : bool :=
  is_digit c || Ascii.eqb c "-" || Ascii.eqb c ".".

Fixpoint plain (s : string) : Prop :=
  match s with
  | EmptyString => True
  | String c r => plainChar c = true /\ plain r
  end.

Lemma plain_append (a b : string) : plain a -> plain b -> plain (a ++ b).
Proof.
  induction a as [|c a IH]; [done|]. rewrite append_cons. simpl.
  intros [Hc Ha] Hb. auto.
Qed.

Lemma plainChar_solid (c : ascii) :
  plainChar c = true -> is_ws c = false /\ c ≠ ","%char /\ c ≠ LF.
Proof.
  destruct c as [[] [] [] [] [] [] [] []]; try discriminate; by_evaluation.
Qed.

Lemma plain_solid (s : string) :
  plain s -> startsSolid s /\ endsSolid s /\ lacks "," s /\ lacks LF s.
Proof.
  induction s as [|c s IH]; [done|]. intros [Hc Hs].
  destruct (plainChar_solid c Hc) as (Hws & Hcomma & Hlf).
  destruct (IH Hs) as (_ & Hend & Hcs & Hls).
  repeat split; try done. apply endsSolid_cons; auto.
Qed.

Lemma plain_clean (s : string) : plain s -> clean s.
Proof.
  intros Hs. destruct (plain_solid s Hs) as (H1 & H2 & H3 & H4).
  split; [by apply trim_solid|done].
Qed.

Lemma small_digit (P : N -> Prop) (d : N) :
  (d < 10)%N ->
  P 0%N -> P 1%N -> P 2%N -> P 3%N -> P 4%N -> P 5%N -> P 6%N -> P 7%N ->
  P 8%N -> P 9%N -> P d.
Proof.
  intros Hd. destruct d as [|p]; [done|].
  do 4 (destruct p as [p|p|]; try done; try lia).
Qed.

Lemma digit_char_digit (d : N) : (d < 10)%N -> is_digit (digit_char d) = true.
Proof.
  intros Hd. by apply (small_digit (fun d => is_digit (digit_char d) = true) d Hd).
Qed.

Lemma digit_char_plain (d : N) : (d < 10)%N -> plainChar (digit_char d) = true.
Proof. intros Hd. unfold plainChar. by rewrite digit_char_digit. Qed.

Lemma digit_char_read (d : N) : (d < 10)%N -> digit_in 10 (digit_char d) = Some d.
Proof.
  intros Hd. by apply (small_digit (fun d => digit_in 10 (digit_char d) = Some d) d Hd).
Qed.

Lemma mod10_lt (n : N) : (n mod 10 < 10)%N.
Proof. apply N.mod_lt. lia. Qed.

(** *** The integer part *)

Lemma digits_of_plain (fuel : nat) (n : N) (acc : string) :
  plain acc -> plain (digits_of fuel n acc).
Proof.
  revert n acc. induction fuel as [|fuel IH]; intros n acc Hacc; simpl.
  - split; [|done]. apply digit_char_plain, mod10_lt.
  - assert (plain (String (digit_char (n mod 10)) acc)) as Hstep.
    { split; [|done]. apply digit_char_plain, mod10_lt. }
    destruct (n / 10 =? 0)%N; [done|]. by apply IH.
Qed.

Lemma digits_of_nonempty (fuel : nat) (n : N) (acc : string) :
  exists c r, digits_of fuel n acc = String c r /\ is_digit c = true.
Proof.
  revert n acc. induction fuel as [|fuel IH]; intros n acc; simpl.
  - eexists _, _. split; [done|]. apply digit_char_digit, mod10_lt.
  - destruct (n / 10 =? 0)%N; [|apply IH].
    eexists _, _. split; [done|]. apply digit_char_digit, mod10_lt.
Qed.

(** Reading the digits written for [n] adds [n] to what was read, shifted
    by the number of digits. *)
Lemma digits_of_read (fuel : nat) (n : N) (rest : string) :
  (n < 10 ^ N.of_nat (S fuel))%N ->
  exists j : nat,
    forall (acc : N) (cnt : nat),
      read_digits 10 acc cnt (digits_of fuel n rest)
      = read_digits 10 (acc * 10 ^ N.of_nat (S j) + n) (cnt + S j) rest.
Proof.
  assert (forall (d : N) (r : string) (acc : N) (cnt : nat),
            (d < 10)%N ->
            read_digits 10 acc cnt (String (digit_char d) r)
            = read_digits 10 (acc * 10 ^ N.of_nat 1 + d) (cnt + 1) r) as Hone.
  { intros d r acc cnt Hd. cbn [read_digits]. rewrite digit_char_read by done.
    change (N.of_nat 1) with 1%N. rewrite N.pow_1_r.
    by replace (cnt + 1)%nat with (S cnt) by lia. }
  revert n rest. induction fuel as [|fuel IH]; intros n rest Hn.
  - exists O. intros acc cnt. cbn [digits_of].
    change (N.of_nat 1) with 1%N in Hn. rewrite N.pow_1_r in Hn.
    rewrite N.mod_small by done. by apply Hone.
  - cbn [digits_of]. destruct (N.eqb_spec (n / 10) 0) as [Hz|Hz].
    + exists O. intros acc cnt.
      assert (n < 10)%N as Hsmall.
      { pose proof (N.div_mod' n 10). pose proof (mod10_lt n). lia. }
      rewrite N.mod_small by done. by apply Hone.
    + destruct (IH (n / 10)%N (String (digit_char (n mod 10)) rest)) as [j Hj].
      { apply N.Div0.div_lt_upper_bound.
        by rewrite (Nat2N.inj_succ (S fuel)), N.pow_succ_r' in Hn. }
      exists (S j). intros acc cnt. rewrite Hj, Hone by apply mod10_lt.
      f_equal; [|lia].
      rewrite (Nat2N.inj_succ (S j)), N.pow_succ_r'.
      change (N.of_nat 1) with 1%N. rewrite N.pow_1_r.
      pose proof (N.div_mod' n 10). lia.
Qed.

Lemma N_to_string_read (n : N) (rest : string) :
  exists j : nat,
    forall (acc : N) (cnt : nat),
      read_digits 10 acc cnt (N_to_string n ++ rest)
      = read_digits 10 (acc * 10 ^ N.of_nat (S j) + n) (cnt + S j) rest.
Proof.
  assert (forall fuel m tl, (digits_of fuel m tl)
            = (digits_of fuel m "" ++ tl)%string) as Happ.
  { induction fuel as [|fuel IH]; intros m tl; simpl; [done|].
    destruct (m / 10 =? 0)%N; [done|].
    rewrite IH, (IH _ (String _ "")), append_assoc. done. }
  unfold N_to_string. rewrite <- Happ. apply digits_of_read.
  rewrite Nat2N.inj_succ, N2Nat.id. eapply N.lt_le_trans; [apply N.size_gt|].
  rewrite N.pow_succ_r'.
  assert (2 ^ N.size n <= 10 ^ N.size n)%N by (apply N.pow_le_mono_l; lia).
  assert (0 < 10 ^ N.size n)%N by (apply N.neq_0_lt_0, N.pow_nonzero; lia).
  lia.
Qed.

(** *** The fraction *)

Ltac same_reading :=
  repeat match goal with |- (_, _) = (_, _) => f_equal end; try done; try lia.

Lemma frac_digit_bound (rem den : N) :
  (rem < den)%N -> (rem * 10 / den < 10)%N /\ (rem * 10 mod den < den)%N.
Proof.
  intros Hlt. split.
  - apply N.Div0.div_lt_upper_bound. lia.
  - apply N.mod_lt. lia.
Qed.

Lemma frac_digits_plain (fuel : nat) (rem den : N) :
  (rem < den)%N -> plain (frac_digits fuel rem den).
Proof.
  revert rem. induction fuel as [|fuel IH]; intros rem Hlt; [done|].
  destruct (frac_digit_bound rem den Hlt) as [Hd Hr]. simpl.
  split; [by apply digit_char_plain|].
  destruct (_ =? 0)%N; [done|]. by apply IH.
Qed.

(** Long division: the digits read back are the numerator of the
    fraction over the power of ten of their number. *)
Lemma frac_digits_read (fuel : nat) (rem den : N) :
  (rem < den)%N -> (den | rem * 10 ^ N.of_nat fuel)%N ->
  exists (F : N) (j : nat),
    (F * den = rem * 10 ^ N.of_nat j)%N
    /\ forall (acc : N) (cnt : nat),
         read_digits 10 acc cnt (frac_digits fuel rem den)
         = ((acc * 10 ^ N.of_nat j + F)%N, (cnt + j)%nat, "").
Proof.
  revert rem. induction fuel as [|fuel IH]; intros rem Hlt Hdiv.
  - exists 0%N, O. change (N.of_nat 0) with 0%N in *.
    rewrite N.pow_0_r, N.mul_1_r in *.
    assert (rem = 0)%N as ->.
    { destruct (N.eq_dec rem 0%N) as [|Hne]; [done|].
      apply N.divide_pos_le in Hdiv; lia. }
    split; [done|]. intros acc cnt. cbn [frac_digits read_digits].
    same_reading.
  - destruct (frac_digit_bound rem den Hlt) as [Hd Hr].
    pose proof (N.div_mod' (rem * 10) den) as Hdm.
    cbn [frac_digits]. destruct (N.eqb_spec (rem * 10 mod den) 0) as [Hz|Hz].
    + exists (rem * 10 / den)%N, 1%nat.
      change (N.of_nat 1) with 1%N. rewrite N.pow_1_r.
      split; [lia|]. intros acc cnt. cbn [read_digits].
      rewrite digit_char_read by done. same_reading.
    + destruct (IH (rem * 10 mod den)%N Hr) as (F & j & HF & Hread).
      { apply N.Lcm0.mod_divide.
        rewrite N.Div0.mul_mod_idemp_l.
        apply N.Lcm0.mod_divide.
        rewrite Nat2N.inj_succ, N.pow_succ_r' in Hdiv.
        by rewrite <- N.mul_assoc. }
      exists (rem * 10 / den * 10 ^ N.of_nat j + F)%N, (S j).
      rewrite Nat2N.inj_succ, N.pow_succ_r'. split; [nia|].
      intros acc cnt. cbn [read_digits]. rewrite digit_char_read by done.
      rewrite Hread. same_reading.
Qed.

(** *** How many digits a decimal fraction needs *)

Lemma pow10_N (k : nat) : Npos (pow10 k) = (10 ^ N.of_nat k)%N.
Proof.
  induction k as [|k IH]; [done|].
  rewrite Nat2N.inj_succ, N.pow_succ_r', <- IH. done.
Qed.

Lemma pow10_Z (k : nat) : Zpos (pow10 k) = (10 ^ Z.of_nat k)%Z.
Proof.
  induction k as [|k IH]; [done|].
  rewrite Nat2Z.inj_succ, Z.pow_succ_r, <- IH by lia. done.
Qed.

Lemma two_or_five (d : N) (k : nat) :
  (1 < d)%N -> (d | 10 ^ N.of_nat k)%N -> (2 | d)%N \/ (5 | d)%N.
Proof.
  intros Hd. induction k as [|k IH]; intros Hdiv.
  - apply N.divide_1_r in Hdiv. lia.
  - rewrite Nat2N.inj_succ, N.pow_succ_r' in Hdiv.
    destruct (N.eq_dec (N.gcd d 10) 1%N) as [Hg|Hg].
    { apply IH. by apply (N.gauss d 10%N). }
    pose proof (N.gcd_divide_l d 10%N) as Hgd.
    pose proof (N.gcd_divide_r d 10%N) as Hg10.
    assert (N.gcd d 10 <= 10)%N as Hle by (apply N.divide_pos_le; [lia|done]).
    assert (N.gcd d 10 ≠ 0)%N as Hnz.
    { intros Hz. rewrite Hz in Hg10. destruct Hg10 as [c Hc]. lia. }
    assert (N.gcd d 10 = 2 \/ N.gcd d 10 = 5 \/ N.gcd d 10 = 10)%N
      as [Hv|[Hv|Hv]].
    { destruct Hg10 as [c Hc]. revert Hc Hg Hle Hnz.
      generalize (N.gcd d 10%N). intros g Hc Hg Hle Hnz.
      assert (g = 1 \/ g = 2 \/ g = 3 \/ g = 4 \/ g = 5 \/ g = 6 \/ g = 7
              \/ g = 8 \/ g = 9 \/ g = 10)%N as Hcases by lia.
      destruct Hcases as [->|[->|[->|[->|[->|[->|[->|[->|[->| ->]]]]]]]]]; lia. }
    + left. by rewrite <- Hv.
    + right. by rewrite <- Hv.
    + left. rewrite Hv in Hgd. eapply N.divide_trans; [|exact Hgd]. by exists 5%N.
Qed.

(** A denominator that divides a power of ten divides the power of ten
    whose exponent is the number of its binary digits. *)
Lemma pow10_divide_bound (m : nat) (d : N) (k : nat) :
  (0 < d)%N -> (d < 2 ^ N.of_nat m)%N -> (d | 10 ^ N.of_nat k)%N ->
  (d | 10 ^ N.of_nat m)%N.
Proof.
  revert d. induction m as [|m IH]; intros d Hpos Hlt Hdiv.
  { change (N.of_nat 0) with 0%N in Hlt. rewrite N.pow_0_r in Hlt. lia. }
  rewrite Nat2N.inj_succ, N.pow_succ_r' in *.
  destruct (N.eq_dec d 1%N) as [->|Hne]; [apply N.divide_1_l|].
  destruct (two_or_five d k) as [[c Hc]|[c Hc]]; [lia|done|..].
  - destruct (IH c) as [e He]; [lia|lia| |].
    { eapply N.divide_trans; [|exact Hdiv]. exists 2%N. lia. }
    exists (5 * e)%N. rewrite He, Hc. lia.
  - destruct (IH c) as [e He]; [lia|lia| |].
    { eapply N.divide_trans; [|exact Hdiv]. exists 5%N. lia. }
    exists (2 * e)%N. rewrite He, Hc. lia.
Qed.

Lemma divide_pos_N (a b : positive) : (Zpos a | Zpos b)%Z -> (Npos a | Npos b)%N.
Proof.
  intros [c Hc]. exists (Z.to_N c). apply N2Z.inj.
  rewrite N2Z.inj_mul, Z2N.id by nia. done.
Qed.

(** The denominator of a decimal fraction in lowest terms divides a power
    of ten. *)
Lemma dec_den (m : Z) (k : nat) :
  (Npos (Qden (dec m k)) | 10 ^ N.of_nat k)%N.
Proof.
  rewrite <- pow10_N. apply divide_pos_N. unfold dec. cbn [this Q2Qc].
  pose proof (Qred_correct (m # pow10 k)) as Heq.
  pose proof (gcd_Qred (m # pow10 k)) as Hgcd.
  unfold Qeq in Heq. cbn [Qnum Qden] in Heq.
  apply (Z.gauss _ (Qnum (Qred (m # pow10 k)))).
  - exists m. rewrite Heq. lia.
  - by rewrite Z.gcd_comm.
Qed.

(** *** Reading back what was printed *)

Lemma plainChar_radix (c : ascii) : plainChar c = true -> radixOf c = None.
Proof. destruct c as [[] [] [] [] [] [] [] []]; try discriminate; done. Qed.

Lemma digit_not_sign (c : ascii) :
  is_digit c = true ->
  Ascii.eqb c "-" = false /\ Ascii.eqb c "+" = false
  /\ Ascii.eqb c "I" = false /\ digit_in 10 c ≠ None.
Proof. destruct c as [[] [] [] [] [] [] [] []]; try discriminate; done. Qed.

Lemma ofString_plain (c : ascii) (r : string) :
  plain (String c r) -> ofString (String c r) = parse_decimal (String c r).
Proof.
  intros Hs. unfold ofString.
  destruct (plain_clean _ Hs) as (-> & _).
  destruct r as [|c' r]; [done|].
  destruct Hs as (_ & Hc' & _). rewrite (plainChar_radix c' Hc').
  by destruct (Ascii.eqb c "0").
Qed.

Lemma dec_eq (M : Z) (k : nat) (q : Qc) :
  (M * Zpos (Qden q) = Qnum q * Zpos (pow10 k))%Z -> dec M k = q.
Proof.
  intros H. apply Qc_is_canon. unfold dec. cbn [this Q2Qc].
  etransitivity; [apply Qred_correct|]. exact H.
Qed.

(** The digits of a number that is not negative, read as a decimal
    literal. *)
Lemma read_digits_point (acc : N) (cnt : nat) (s : string) :
  read_digits 10 acc cnt (String "." s) = (acc, cnt, String "." s).
Proof. done. Qed.

Lemma read_fraction_point (s : string) :
  read_fraction (String "." s) = read_digits 10 0 0 s.
Proof. done. Qed.

Lemma parse_printed (sneg : bool) (ip rem : N) (k : nat) (q : Qc) :
  let den := Npos (Qden q) in
  let tail := if (rem =? 0)%N then ""
              else ("." ++ frac_digits (N.to_nat (N.size den)) rem den)%string in
  let body := (N_to_string ip ++ tail)%string in
  (rem < den)%N -> (den | 10 ^ N.of_nat k)%N ->
  (Qnum q = (if sneg then -1 else 1) * Z.of_N (ip * den + rem))%Z ->
  parse_decimal ((if sneg then "-" else "") ++ body) = Fin q.
Proof.
  intros den tail body Hlt Hden Hval.
  destruct (digits_of_nonempty (N.to_nat (N.size ip)) ip "") as (c & r & Hc & Hdig).
  fold (N_to_string ip) in Hc.
  destruct (digit_not_sign c Hdig) as (Hminus & Hplus & HI & _).
  assert (read_sign ((if sneg then "-" else "") ++ body) = (sneg, body)) as Hsign.
  { destruct sneg; [done|]. rewrite append_nil_l. unfold body.
    rewrite Hc, append_cons. simpl. by rewrite Hminus, Hplus. }
  unfold parse_decimal. rewrite Hsign.
  assert (String.eqb body "Infinity" = false) as ->.
  { unfold body. rewrite Hc, append_cons. simpl. by rewrite HI. }
  destruct (N_to_string_read ip tail) as [j Hj]. fold body in Hj.
  rewrite Hj, N.mul_0_l, N.add_0_l. cbn [Nat.add].
  destruct (N.eqb_spec rem 0) as [Hz|Hz].
  - subst tail rem. cbn [read_digits read_fraction read_exponent].
    f_equal. apply dec_eq.
    change (Z.to_nat 0) with 0%nat. change (Z.to_nat (- 0)) with 0%nat.
    cbn [pow10 Nat.add]. rewrite Hval.
    change (Z.pos (Qden q)) with (Z.of_N den). destruct sneg; lia.
  - subst tail. rewrite append_cons, append_nil_l.
    rewrite read_digits_point, read_fraction_point.
    destruct (frac_digits_read (N.to_nat (N.size den)) rem den Hlt)
      as (F & jf & HF & Hread).
    { apply N.divide_mul_r.
      apply (pow10_divide_bound _ den k); [done| |done].
      rewrite N2Nat.id. apply N.size_gt. }
    rewrite Hread. cbn [read_exponent].
    destruct jf as [|jf].
    + exfalso. change (N.of_nat 0) with 0%N in HF. rewrite N.pow_0_r in HF.
      assert (den <= F * den)%N; [|lia].
      destruct F as [|F]; [lia|]. nia.
    + f_equal. apply dec_eq. rewrite <- pow10_N in HF.
      change (Z.to_nat 0) with 0%nat. change (Z.to_nat (- 0)) with 0%nat.
      replace (0 + S jf + 0)%nat with (S jf) by lia.
      replace (0 + S jf)%nat with (S jf) by lia.
      change (pow10 0) with 1%positive. rewrite Hval, N.mul_0_l, N.add_0_l.
      change (Z.pos (Qden q)) with (Z.of_N den).
      generalize dependent (pow10 (S jf)). intros P HF.
      destruct sneg; nia.
Qed.

Lemma N_to_string_plain (n : N) : plain (N_to_string n).
Proof. by apply digits_of_plain. Qed.

(** A decimal fraction prints to a clean text that reads back as the
    fraction. *)
Lemma printable_dec (m : Z) (k : nat) : printable (Fin (dec m k)).
Proof.
  set (q := dec m k). unfold printable. cbn [toString].
  set (den := Npos (Qden q)). set (a := Z.abs_N (Qnum q)).
  assert (a mod den < den)%N as Hrem by (apply N.mod_lt; done).
  assert (plain (Qc_to_string q)) as Hplain.
  { unfold Qc_to_string. fold den a. apply plain_append.
    { by destruct (Qnum q <? 0)%Z. }
    apply plain_append; [apply N_to_string_plain|].
    destruct (a mod den =? 0)%N; [done|].
    rewrite append_cons, append_nil_l. split; [done|].
    by apply frac_digits_plain. }
  assert (exists c r, Qc_to_string q = String c r) as (c & r & Hcr).
  { unfold Qc_to_string. fold den a.
    destruct (digits_of_nonempty (N.to_nat (N.size (a / den))) (a / den) "")
      as (c & r & Hc & _). fold (N_to_string (a / den)) in Hc. rewrite Hc.
    destruct (Qnum q <? 0)%Z; rewrite ?append_nil_l, !append_cons; eauto. }
  split; [|split; [by apply plain_clean|by rewrite Hcr]].
  rewrite Hcr, ofString_plain by (by rewrite <- Hcr). rewrite <- Hcr.
  unfold Qc_to_string. fold den a.
  apply (parse_printed (Qnum q <? 0)%Z (a / den) (a mod den) k q).
  - done.
  - apply dec_den.
  - fold den. pose proof (N.div_mod' a den) as Hdm.
    replace (a / den * den + a mod den)%N with a by lia. unfold a.
    destruct (Z.ltb_spec (Qnum q) 0); lia.
Qed.

Lemma parse_radix_decimal (base : N) (s : string) (q : Qc) :
  parse_radix base s = Fin q -> exists m k, q = dec m k.
Proof.
  unfold parse_radix. destruct (read_digits base 0 0 s) as [[v [|n]] [|]];
    try done.
  intros [= <-]. by exists (Z.of_N v), O.
Qed.

Lemma parse_decimal_decimal (s : string) (q : Qc) :
  parse_decimal s = Fin q -> exists m k, q = dec m k.
Proof.
  unfold parse_decimal. destruct (read_sign s) as [sneg s1].
  destruct (String.eqb s1 "Infinity"); [by destruct sneg|].
  destruct (read_digits 10 0 0 s1) as [[i ni] s2].
  destruct (read_fraction s2) as [[f nf] s3].
  destruct (read_exponent s3) as [[e [|]]|]; destruct ni, nf; try done;
    intros [= <-]; eauto.
Qed.

(** Every finite number that [Number] reads from a text is a decimal
    fraction. *)
Lemma ofString_decimal (s : string) (q : Qc) :
  ofString s = Fin q -> exists m k, q = dec m k.
Proof.
  unfold ofString. destruct (trim s) as [|c0 [|c r]].
  - intros [= <-]. by exists 0%Z, O.
  - apply parse_decimal_decimal.
  - destruct (if Ascii.eqb c0 "0" then radixOf c else None).
    + apply parse_radix_decimal.
    + apply parse_decimal_decimal.
Qed.

(** A number read from a text prints to a clean text that reads back as
    the same number. *)
Lemma ofString_printable (s : string) :
  ofString s ≠ NaN -> printable (ofString s).
Proof.
  destruct (ofString s) as [| | |q] eqn:Hs; [done| | |]; intros _.
  - repeat split; by_evaluation.
  - repeat split; by_evaluation.
  - destruct (ofString_decimal s q Hs) as (m & k & ->). apply printable_dec.
Qed.

End NumberText.

Module CsvClaims.
Import JsString JsNum JsVal Csv StringFacts CsvFacts CsvRoundTrip NumberText.

Lemma billRecord_printable (r : gmap string jsval) :
  billRecord r -> printableRecord r.
Proof.
  intros Hr k n Hk. specialize (Hr k).
  destruct (decide (k ∈ billColumns)); [|congruence].
  destruct Hr as (raw & _ & Hraw). rewrite Hraw in Hk.
  destruct (parseCell_cases k raw) as [Hs|(_ & _ & Hnan & Hn)]; [congruence|].
  rewrite Hn in Hk. injection Hk as <-. by apply ofString_printable.
Qed.

(** A bills file with its columns in another order, an amount written
    with a trailing zero, a missing cell and CR LF line ends. *)
Definition sampleText : string :=
  ("Bill_Name, Amount_Due ,Bill_ID,Category,Due_Date,Paid_Date,Status,Recurring,Frequency,Payment_Method,Notes"
   ++ String CR newline
   ++ "Rent, 1200.50 ,1,Housing,2024-01-01,,Pending,true,Monthly,Bank,first of month"
   ++ String CR newline ++ newline
   ++ "Water,n/a,2,Utilities,2024-01-15,,Pending,false,,Card"
   ++ newline)%string.

(** C1.  For every CSV text whose header names the columns of the bills
    schema, in any order, serializing the records parsed from the text
    and parsing the result gives the same records again; records are
    compared as maps from column to value, so the order of the columns
    does not matter.  As the parser has no quoting, every comma and line
    break of the text separates cells and lines. *)
Theorem csv_round_trip (text : string) :
  billsHeader text ->
  parseCSV (billsCSV (parseCSV text)) = parseCSV text.
Proof.
  intros Hhead. apply parseCSV_billsCSV.
  eapply Forall_impl; [by apply parseCSV_billRecords|].
  intros r Hr. split; [done|]. by apply billRecord_printable.
Qed.

Lemma csv_round_trip_witness :
  billsHeader sampleText
  /\ parseCSV (billsCSV (parseCSV sampleText)) = parseCSV sampleText.
Proof.
  assert (billsHeader sampleText) as Hhead by by_evaluation.
  split; [exact Hhead|]. exact (csv_round_trip sampleText Hhead).
Defined.

Example sampleText_records :
  parseCSV sampleText
  = [ {[ "Bill_ID" := VStr "1"; "Bill_Name" := VStr "Rent";
         "Category" := VStr "Housing";
         "Amount_Due" := VNum (Fin (Q2Qc (2401 # 2)));
         "Due_Date" := VStr "2024-01-01"; "Paid_Date" := VStr "";
         "Status" := VStr "Pending"; "Recurring" := VStr "true";
         "Frequency" := VStr "Monthly"; "Payment_Method" := VStr "Bank";
         "Notes" := VStr "first of month" ]};
      {[ "Bill_ID" := VStr "2"; "Bill_Name" := VStr "Water";
         "Category" := VStr "Utilities"; "Amount_Due" := VStr "n/a";
         "Due_Date" := VStr "2024-01-15"; "Paid_Date" := VStr "";
         "Status" := VStr "Pending"; "Recurring" := VStr "false";
         "Frequency" := VStr ""; "Payment_Method" := VStr "Card";
         "Notes" := VStr "" ]} ]
  /\ billsCSV (parseCSV sampleText)
     = ("Bill_ID,Bill_Name,Category,Amount_Due,Due_Date,Paid_Date,Status,Recurring,Frequency,Payment_Method,Notes"
        ++ newline
        ++ "1,Rent,Housing,1200.5,2024-01-01,,Pending,true,Monthly,Bank,first of month"
        ++ newline
        ++ "2,Water,Utilities,n/a,2024-01-15,,Pending,false,,Card,"
        ++ newline)%string.
Proof. split; by_evaluation. Qed.

(** The header matters: the writer knows the columns of the bills schema
    only, so a text with another column does not come back. *)
Example other_columns_are_lost :
  parseCSV ("id,amount" ++ newline ++ "7,12.50")
  = [ {[ "id" := VStr "7"; "amount" := VNum (Fin (Q2Qc (25 # 2))) ]} ]
  /\ parseCSV (billsCSV (parseCSV ("id,amount" ++ newline ++ "7,12.50")))
     ≠ parseCSV ("id,amount" ++ newline ++ "7,12.50").
Proof. split; by_evaluation. Qed.

End CsvClaims.

(** ** The undo history under every action *)

Module HistoryFacts.
Import JsString JsNum JsVal Luxon App Views Forms UndoFacts.

(** What the user can do to the store. *)
Inductive action : Type :=
  | DeleteRow (t : tab) (id : string)
  | DeleteBill (id : string) (ok : bool)
  | BulkDelete (t : tab) (checked : list string) (ok : bool)
  | Undo
  | Submit (t : tab) (label : string) (fields : list (string * jsval))
      (editId : jsval) (newId : Z)
  | Import (t : tab) (text : string) (timestamp : Z)
  | MarkPaid (id todayIso : string) (stamp stamp' : Z) (ok : bool)
  | QuickPaid (id todayIso : string)
  | QuickUnpaid (id : string)
  | QuickAutoPaid (id : string).

Section WithDates.
Context {L : DateLib}.

Definition perform (st : state) (a : action) : state :=
  match a with
  | DeleteRow t id => deleteRow t id st
  | DeleteBill id ok => deleteBill id ok st
  | BulkDelete t checked ok => bulkDelete t checked ok st
  | Undo => undoLastAction st
  | Submit t label fields editId newId =>
      submitForm t label fields editId newId st
  | Import t text timestamp => importCSV t text timestamp st
  | MarkPaid id todayIso stamp stamp' ok =>
      markBillPaid id todayIso stamp stamp' ok st
  | QuickPaid id todayIso => billsActionMarkPaid id todayIso st
  | QuickUnpaid id => billsActionMarkUnpaid id st
  | QuickAutoPaid id => billsActionToggleAutoPaid id st
  end.

Lemma undoLastAction_length (st : state) :
  length (undoStack (undoLastAction st)) = pred (length (undoStack st)).
Proof.
  destruct (undoStack st) as [|e es] eqn:Hs using rev_ind.
  - unfold undoLastAction. rewrite Hs. simpl. by rewrite Hs.
  - destruct e as [t snapshot].
    destruct (undoLastAction_restores st t snapshot) as [_ ->].
    { by rewrite Hs, last_snoc. }
    rewrite Hs, removelast_last, length_app. simpl. lia.
Qed.

Lemma perform_bounded (st : state) (a : action) :
  (length (undoStack st) <= 20)%nat ->
  (length (undoStack (perform st a)) <= 20)%nat.
Proof.
  intros Hle. destruct a; simpl.
  - unfold deleteRow. destruct (findIndex _ _); by apply pushUndo_cap.
  - unfold deleteBill. by destruct ok.
  - unfold bulkDelete. by destruct checked, ok.
  - rewrite undoLastAction_length. lia.
  - unfold submitForm. apply pushUndo_cap. by destruct (truthy editId).
  - unfold importCSV. by destruct (saved t).
  - unfold markBillPaid. by destruct (find _ _).
  - done.
  - done.
  - done.
Qed.

(** X1.  The history holds at most twenty snapshots, whatever the user does. *)
Theorem history_bounded (actions : list action) (st : state) :
  (length (undoStack st) <= 20)%nat ->
  (length (undoStack (fold_left perform actions st)) <= 20)%nat.
Proof.
  revert st. induction actions as [|a actions IH]; intros st Hle; [done|].
  simpl. apply IH. by apply perform_bounded.
Qed.

End WithDates.

Lemma history_bounded_witness :
  (length
     (undoStack
        (fold_left (perform (L := Civil))
           (repeat (DeleteRow Income "7") 25)
           (UndoClaims.storeOf [UndoClaims.salary]))) <= 20)%nat.
Proof.
  apply (history_bounded (L := Civil)). simpl. lia.
Defined.

Example history_full :
  length
    (undoStack
       (fold_left (perform (L := Civil))
          (repeat (DeleteRow Income "7") 25)
          (UndoClaims.storeOf [UndoClaims.salary]))) = 20%nat.
Proof. by_evaluation. Qed.

End HistoryFacts.

(** ** Deleting rows and undoing *)

Module DeleteFacts.
Import JsString JsNum JsVal Luxon App Views Forms UndoFacts.

(** Every record of every collection survives a JSON copy. *)
Definition json_safe_store (d : data) : Prop :=
  forall t : tab, Forall json_safe_record (getTab t d).

Lemma pushUndo_stack (t : tab) (st : state) :
  (length (undoStack st) <= 20)%nat ->
  undoStack (pushUndo t st)
  = drop (S (length (undoStack st)) - 20) (undoStack st)
    ++ [(t, json_clone (getTab t (store st)))].
Proof.
  intros Hle. unfold pushUndo. cbn [undoStack withUndo].
  rewrite length_app. cbn [length].
  destruct (20 <? _)%nat eqn:Hlen.
  - apply Nat.ltb_lt in Hlen.
    replace (S (length (undoStack st)) - 20)%nat with 1%nat by lia.
    destruct (undoStack st); cbn [length] in *; [lia|]. done.
  - apply Nat.ltb_ge in Hlen.
    by replace (S (length (undoStack st)) - 20)%nat with 0%nat by lia.
Qed.

Lemma deleteRow_undoStack (t : tab) (id : string) (st : state) :
  undoStack (deleteRow t id st) = undoStack (pushUndo t st).
Proof. unfold deleteRow. by destruct (findIndex _ _). Qed.

Lemma deleteRow_safe (t : tab) (id : string) (st : state) :
  json_safe_store (store st) -> json_safe_store (store (deleteRow t id st)).
Proof.
  intros Hsafe t'. unfold deleteRow. rewrite pushUndo_store.
  destruct (findIndex _ _) as [index|]; simpl; [|apply Hsafe].
  destruct (decide (t = t')) as [<-|Hne].
  - rewrite setTab_getTab. apply Forall_delete, Hsafe.
  - rewrite setTab_getTab_ne by done. apply Hsafe.
Qed.

Definition deleteRows (ops : list (tab * string)) (st : state) : state :=
  fold_left (fun s op => deleteRow op.1 op.2 s) ops st.

Lemma undo_deleteRows (ops : list (tab * string)) (st : state) :
  (length ops <= 20)%nat ->
  (length (undoStack st) <= 20)%nat ->
  json_safe_store (store st) ->
  store (Nat.iter (length ops) undoLastAction (deleteRows ops st)) = store st
  /\ undoStack (Nat.iter (length ops) undoLastAction (deleteRows ops st))
     = drop (length (undoStack st) + length ops - 20) (undoStack st).
Proof.
  revert st. induction ops as [|[t id] ops IH]; intros st Hops Hlen Hsafe.
  { simpl. split; [done|].
    replace (length (undoStack st) + 0 - 20)%nat with 0%nat by lia. done. }
  cbn [length] in *. cbn [Nat.iter deleteRows fold_left fst snd].
  fold (deleteRows ops (deleteRow t id st)).
  set (st1 := deleteRow t id st).
  assert (undoStack st1
          = drop (S (length (undoStack st)) - 20) (undoStack st)
            ++ [(t, getTab t (store st))]) as Hs1.
  { unfold st1. rewrite deleteRow_undoStack, pushUndo_stack by done.
    by rewrite json_clone_safe by apply Hsafe. }
  assert (length (undoStack st1) <= 20)%nat as Hlen1.
  { unfold st1. rewrite deleteRow_undoStack. by apply pushUndo_cap. }
  destruct (IH st1) as [Hstore Hstack]; [lia|done|by apply deleteRow_safe|].
  set (st2 := Nat.iter (length ops) undoLastAction (deleteRows ops st1)) in *.
  assert (length (undoStack st1)
          = S (length (undoStack st) - (S (length (undoStack st)) - 20)))%nat
    as Hl1.
  { rewrite Hs1, length_app, length_drop. simpl. lia. }
  rewrite Hl1, Hs1 in Hstack.
  rewrite drop_app_le in Hstack by (rewrite length_drop; lia).
  change (Nat.iter (S (length ops)) undoLastAction (deleteRows ops st1))
    with (undoLastAction st2).
  destruct (undoLastAction_restores st2 t (getTab t (store st))) as [-> ->].
  { by rewrite Hstack, last_snoc. }
  rewrite Hstack, removelast_last, Hstore, drop_drop. split.
  - destruct (deleteRow_store t id st) as [l Hl]. fold st1 in Hl.
    rewrite Hl, setTab_setTab. apply setTab_same.
  - f_equal. lia.
Qed.

(** X2.  Up to twenty deletions in a row, through [deleteRow], are undone by as
    many undos: the store is as before the first deletion.  The records
    are those that a JSON copy preserves. *)
Theorem deletions_undone (ops : list (tab * string)) (st : state) :
  (length ops <= 20)%nat ->
  (length (undoStack st) <= 20)%nat ->
  json_safe_store (store st) ->
  store (Nat.iter (length ops) undoLastAction (deleteRows ops st)) = store st.
Proof. intros. by apply undo_deleteRows. Qed.

Lemma deletions_undone_witness :
  store
    (Nat.iter 2 undoLastAction
       (deleteRows [(Income, "2"); (Income, "1")]
          (UndoClaims.storeOf [UndoClaims.salary; UndoClaims.refund])))
  = store (UndoClaims.storeOf [UndoClaims.salary; UndoClaims.refund]).
Proof.
  apply (deletions_undone [(Income, "2"); (Income, "1")]).
  - simpl. lia.
  - simpl. lia.
  - intros []; by_evaluation.
Defined.

(** With a full history the twenty-first deletion pushes the oldest
    snapshot out, and twenty-one undos do not bring the first row back. *)
Example deletions_beyond_history :
  let rows :=
    map (fun n : nat =>
           {[ "id" := VStr (JsConv.toString (ofZ (Z.of_nat n))) ]} : gmap string jsval)
        (seq 1 21) in
  let ops :=
    map (fun n : nat => (Income, JsConv.toString (ofZ (Z.of_nat n)))) (seq 1 21) in
  length (income (store (Nat.iter 21 undoLastAction
                           (deleteRows ops (UndoClaims.storeOf rows))))) = 20%nat.
Proof. by_evaluation. Qed.

Lemma findIndex_first {A} (p : A -> bool) (l1 l2 : list A) (r : A) :
  Forall (fun x => p x = false) l1 -> p r = true ->
  findIndex p (l1 ++ r :: l2) = Some (length l1).
Proof.
  intros Hl1 Hr. induction Hl1 as [|x l1 Hx _ IH]; simpl.
  - by rewrite Hr.
  - by rewrite Hx, IH.
Qed.

Lemma findIndex_none {A} (p : A -> bool) (l : list A) :
  Forall (fun x => p x = false) l -> findIndex p l = None.
Proof.
  induction 1 as [|x l Hx _ IH]; simpl; [done|]. by rewrite Hx, IH.
Qed.

(** X3.  [deleteRow] removes the first record whose id prints as [id] and no
    other, also when later records carry the same id; when no record has
    the id the store stays as it is, and the snapshot is taken all the
    same. *)
Theorem deleteRow_first_match (t : tab) (id : string) (st : state) :
  (forall (l1 l2 : list (gmap string jsval)) (r : gmap string jsval),
     getTab t (store st) = l1 ++ r :: l2 ->
     Forall (fun x => hasId "id" id x = false) l1 ->
     hasId "id" id r = true ->
     store (deleteRow t id st) = setTab t (l1 ++ l2) (store st))
  /\ (Forall (fun x => hasId "id" id x = false) (getTab t (store st)) ->
      store (deleteRow t id st) = store st
      /\ last (undoStack (deleteRow t id st))
         = Some (t, json_clone (getTab t (store st)))).
Proof.
  split.
  - intros l1 l2 r Hl Hl1 Hr. unfold deleteRow. rewrite pushUndo_store, Hl.
    rewrite findIndex_first by done. simpl.
    by rewrite delete_middle.
  - intros Hnone. split; [|apply deleteRow_last].
    unfold deleteRow. rewrite pushUndo_store, findIndex_none by done. done.
Qed.

Lemma deleteRow_first_match_witness :
  store (deleteRow Income "2"
           (UndoClaims.storeOf [UndoClaims.salary; UndoClaims.refund; UndoClaims.refund]))
  = setTab Income [UndoClaims.salary; UndoClaims.refund]
      (store (UndoClaims.storeOf
                [UndoClaims.salary; UndoClaims.refund; UndoClaims.refund]))
  /\ store (deleteRow Income "9" (UndoClaims.storeOf [UndoClaims.salary]))
     = store (UndoClaims.storeOf [UndoClaims.salary]).
Proof.
  split.
  - destruct (deleteRow_first_match Income "2"
                (UndoClaims.storeOf
                   [UndoClaims.salary; UndoClaims.refund; UndoClaims.refund]))
      as [Hfirst _].
    apply (Hfirst [UndoClaims.salary] [UndoClaims.refund] UndoClaims.refund);
      by_evaluation.
  - destruct (deleteRow_first_match Income "9"
                (UndoClaims.storeOf [UndoClaims.salary])) as [_ Hnone].
    apply Hnone. by_evaluation.
Defined.

(** The id of a record as the delete handlers compare it. *)
Definition idText (r : gmap string jsval) : string := JsVal.toString (get r "id").

Lemma filter_other_ids (id : string) (l : list (gmap string jsval)) :
  id ∉ idText <$> l -> filter (fun i => idText i ∉ [id]) l = l.
Proof.
  induction l as [|r l IH]; [done|]. cbn [fmap list_fmap].
  intros Hnot. apply not_elem_of_cons in Hnot as [Hr Hl].
  rewrite filter_cons_True, IH; [done|done|].
  intros Hin. apply list_elem_of_singleton in Hin. done.
Qed.

(** X4.  When the ids of a collection are distinct, ticking one row and
    confirming [Delete Selected] leaves the same store as [deleteRow] on
    that row. *)
Theorem bulkDelete_one_row (t : tab) (id : string) (st : state) :
  NoDup (idText <$> getTab t (store st)) ->
  store (bulkDelete t [id] true st) = store (deleteRow t id st).
Proof.
  intros Hdup. unfold bulkDelete, deleteRow. rewrite pushUndo_store.
  cbn [store withStore]. fold idText.
  set (l := getTab t (store st)) in *.
  assert (filter (fun i => idText i ∉ [id]) l
          = match findIndex (hasId "id" id) l with
            | Some index => delete index l
            | None => l
            end) as Hl.
  { clearbody l. induction l as [|r l IH]; [done|].
    cbn [fmap list_fmap] in Hdup. apply NoDup_cons in Hdup as [Hr Hdup].
    cbn [findIndex]. unfold hasId at 1. fold (idText r).
    destruct (String.eqb_spec (idText r) id) as [Heq|Hne].
    - rewrite filter_cons_False by (rewrite Heq; intros Hn; apply Hn; by left).
      simpl. apply filter_other_ids. by rewrite <- Heq.
    - rewrite filter_cons_True
        by (intros Hin; apply list_elem_of_singleton in Hin; done).
      rewrite (IH Hdup). by destruct (findIndex _ l). }
  change (filter (fun i => JsVal.toString (get i "id") ∉ [id]) l)
    with (filter (fun i => idText i ∉ [id]) l).
  rewrite Hl. destruct (findIndex _ l); simpl; [done|].
  unfold l. by rewrite setTab_same.
Qed.

Lemma bulkDelete_one_row_witness :
  store (bulkDelete Income ["2"] true
           (UndoClaims.storeOf [UndoClaims.salary; UndoClaims.refund]))
  = store (deleteRow Income "2"
             (UndoClaims.storeOf [UndoClaims.salary; UndoClaims.refund])).
Proof. apply bulkDelete_one_row. by_evaluation. Defined.

(** With two rows of the same id the two ways part: the bulk delete takes
    both, [deleteRow] the first. *)
Example bulkDelete_takes_all :
  let st := UndoClaims.storeOf [UndoClaims.refund; UndoClaims.refund] in
  income (store (bulkDelete Income ["2"] true st)) = []
  /\ income (store (deleteRow Income "2" st)) = [UndoClaims.refund].
Proof. split; by_evaluation. Qed.

End DeleteFacts.

(** ** The forms *)

Module FormFacts.
Import JsString JsNum JsVal Luxon App Views Forms UndoFacts NumFacts DeleteFacts.

Lemma assign_lookup_other (o : gmap string jsval)
  (fields : list (string * jsval)) (k : string) :
  k ∉ fields.*1 -> assign o fields !! k = o !! k.
Proof.
  unfold assign. revert o. induction fields as [|[k' v] fields IH]; intros o Hk.
  - done.
  - cbn [fmap list_fmap fst] in Hk. apply not_elem_of_cons in Hk as [Hne Hk].
    cbn [fold_left]. rewrite IH by done. simpl. by rewrite lookup_insert_ne.
Qed.

Lemma assign_safe (o : gmap string jsval) (fields : list (string * jsval)) :
  json_safe_record o -> Forall (fun kv => json_safe kv.2) fields ->
  json_safe_record (assign o fields).
Proof.
  unfold assign. intros Ho Hfields. revert o Ho.
  induction Hfields as [|[k v] fields Hv _ IH]; intros o Ho; [done|].
  cbn [fold_left]. apply IH. by apply map_Forall_insert_2.
Qed.

Lemma updateFirst_Forall {A} (P : A -> Prop) (p : A -> bool) (f : A -> A)
  (l : list A) :
  (forall x, P x -> P (f x)) -> Forall P l -> Forall P (updateFirst p f l).
Proof.
  intros Hf. induction 1 as [|x l Hx Hl IH]; simpl; [done|].
  destruct (p x); constructor; auto.
Qed.

Lemma undo_pushUndo (t : tab) (st : state) :
  Forall json_safe_record (getTab t (store st)) ->
  store (undoLastAction (pushUndo t st)) = store st.
Proof.
  intros Hsafe.
  destruct (undoLastAction_restores _ _ _ (pushUndo_last t st)) as [-> _].
  rewrite pushUndo_store, json_clone_safe by done. apply setTab_same.
Qed.

(** X5.  Undo right after a form is submitted changes nothing in the store: the
    snapshot is taken after the record is added or edited, so the new
    record stays and the edit stands. *)
Theorem undo_after_submit (t : tab) (label : string)
  (fields : list (string * jsval)) (editId : jsval) (newId : Z) (st : state) :
  Forall json_safe_record (getTab t (store st)) ->
  Forall (fun kv => json_safe kv.2) fields ->
  store (undoLastAction (submitForm t label fields editId newId st))
  = store (submitForm t label fields editId newId st).
Proof.
  intros Hsafe Hfields. unfold submitForm. rewrite pushUndo_store.
  apply undo_pushUndo. destruct (truthy editId); cbn [store alert withStore].
  - rewrite setTab_getTab. apply updateFirst_Forall; [|done].
    intros item Hitem. by apply assign_safe.
  - rewrite setTab_getTab. apply Forall_app. split; [done|].
    constructor; [|done]. apply assign_safe; [|done].
    by apply map_Forall_singleton.
Qed.

Lemma undo_after_submit_witness :
  let st' :=
    submitIncome "Gift" "25" "2024-01-20" "none" "received" VNull 1705312800000
      (UndoClaims.storeOf [UndoClaims.salary]) in
  store (undoLastAction st') = store st'
  /\ length (income (store st')) = 2%nat.
Proof.
  split; [|reflexivity].
  apply undo_after_submit; [by_evaluation|].
  repeat constructor.
Defined.

(** X6.  A record added through a form is removed again by [deleteRow] on its
    id, and the store is as before, when no record had that id. *)
Theorem add_then_delete (t : tab) (label : string)
  (fields : list (string * jsval)) (editId : jsval) (newId : Z) (st : state) :
  truthy editId = false ->
  "id" ∉ fields.*1 ->
  Forall (fun r => hasId "id" (JsConv.toString (ofZ newId)) r = false)
    (getTab t (store st)) ->
  store (deleteRow t (JsConv.toString (ofZ newId))
           (submitForm t label fields editId newId st))
  = store st.
Proof.
  intros Hedit Hid Hfresh. unfold deleteRow, submitForm.
  rewrite !pushUndo_store, Hedit. cbn [store alert withStore].
  rewrite setTab_getTab, findIndex_first; [|done|].
  - cbn [store withStore].
    rewrite delete_middle, app_nil_r, setTab_setTab. apply setTab_same.
  - unfold hasId, get. rewrite assign_lookup_other by done.
    rewrite lookup_singleton_eq. simpl. apply String.eqb_refl.
Qed.

Lemma add_then_delete_witness :
  store
    (deleteRow Income "1705312800000"
       (submitIncome "Gift" "25" "2024-01-20" "none" "received" VNull
          1705312800000 (UndoClaims.storeOf [UndoClaims.salary])))
  = store (UndoClaims.storeOf [UndoClaims.salary]).
Proof.
  apply (add_then_delete Income "Income" _ VNull 1705312800000);
    by_evaluation.
Defined.

End FormFacts.

(** ** The dashboard: figures and charts *)

Module DashboardFacts.
Import JsString JsNum JsVal Luxon App Views Forms Charts NumFacts KpiClaims.
Import SortFacts FormFacts.

Lemma sum_app (l1 l2 : list jsnum) : sum (l1 ++ l2) = add (sum l1) (sum l2).
Proof.
  induction l1 as [|x l1 IH]; cbn [app].
  - by rewrite sum_nil, add_zero_l.
  - by rewrite !sum_cons, IH, add_assoc.
Qed.

(** *** The chart by week *)

(** The days of the month that bar [k] of the chart by week stands for. *)
Definition weekDays (k : nat) (d : Z) : Prop :=
  match k with
  | 0%nat => d <= 7
  | 1%nat => 7 < d <= 14
  | 2%nat => 14 < d <= 21
  | 3%nat => 21 < d
  | _ => False
  end.

#[global] Instance weekDays_dec (k : nat) (d : Z) : Decision (weekDays k d).
Proof. destruct k as [|[|[|[|k]]]]; simpl; apply _. Defined.

Lemma abs_zero : abs zero = zero.
Proof. by_evaluation. Qed.

Section WithDates.
Context {L : DateLib}.
Variable day : Z -> Z.

(** The date of a record is valid and falls on the days of bar [k]. *)
Definition inWeek (k : nat) (r : gmap string jsval) : Prop :=
  match fromISO (JsVal.toString (get r "date")) with
  | Some dt => weekDays k (day dt)
  | None => False
  end.

#[global] Instance inWeek_dec (k : nat) (r : gmap string jsval) :
  Decision (inWeek k r).
Proof. unfold inWeek. destruct (fromISO _); apply _. Defined.

Lemma weekIndex_range (ym : string) (d : jsval) :
  inMonth ym d = true -> 0 <= weekIndex day d < 4.
Proof.
  unfold inMonth, inWindow, weekIndex.
  destruct (fromISO (JsVal.toString d)) as [dt|]; [|done]. intros _.
  repeat (destruct (_ <=? _)); lia.
Qed.

Lemma weekIndex_inWeek (ym : string) (r : gmap string jsval) (k : nat) :
  inMonth ym (get r "date") = true ->
  inWeek k r <-> Z.to_nat (weekIndex day (get r "date")) = k.
Proof.
  unfold inMonth, inWindow, inWeek, weekIndex.
  destruct (fromISO (JsVal.toString (get r "date"))) as [dt|]; [|done].
  intros _.
  destruct (Z.leb_spec (day dt) 7), (Z.leb_spec (day dt) 14),
    (Z.leb_spec (day dt) 21), k as [|[|[|[|k]]]]; simpl; lia.
Qed.

(** A bar is the running sum of the amounts of its days. *)
Lemma weeklyIncome_bar (ym : string) (l : list (gmap string jsval))
  (week : list jsnum) (k : nat) (x : jsnum) :
  week !! k = Some x ->
  fold_left (weeklyIncomeStep day ym) l week !! k
  = Some (fold_left add (map amountIn (filter (inWeek k) (ofMonth ym l))) x).
Proof.
  revert week x. induction l as [|r l IH]; intros week x Hk; cbn [fold_left].
  { done. }
  unfold ofMonth. destruct (inMonth ym (get r "date")) eqn:Hin.
  - rewrite filter_cons_True by done. fold (ofMonth ym l).
    pose proof (weekIndex_range ym _ Hin) as Hidx.
    assert (weeklyIncomeStep day ym week r
            = bump week (weekIndex day (get r "date")) (amountIn r)) as ->.
    { unfold weeklyIncomeStep. rewrite Hin.
      destruct (0 <=? _) eqn:Hpos; [done|]. apply Z.leb_gt in Hpos. lia. }
    unfold bump.
    destruct (decide (Z.to_nat (weekIndex day (get r "date")) = k)) as [Heq|Hne].
    + rewrite filter_cons_True by (by apply (weekIndex_inWeek ym)).
      cbn [map fold_left]. apply IH.
      by rewrite Heq, list_lookup_alter_eq, Hk.
    + rewrite filter_cons_False by (by rewrite (weekIndex_inWeek ym)).
      apply IH. by rewrite list_lookup_alter_ne.
  - rewrite filter_cons_False by (by rewrite Hin). fold (ofMonth ym l).
    apply IH. unfold weeklyIncomeStep. by rewrite Hin.
Qed.

Lemma weeklyTransaction_bar (ym : string) (l : list (gmap string jsval))
  (inc exp : list jsnum) (k : nat) (x y : jsnum) :
  inc !! k = Some x -> exp !! k = Some y ->
  (fold_left (weeklyTransactionStep day ym) l (inc, exp)).1 !! k
  = Some (fold_left add (gains (filter (inWeek k) (ofMonth ym l))) x)
  /\ (fold_left (weeklyTransactionStep day ym) l (inc, exp)).2 !! k
     = Some (fold_left add (losses (filter (inWeek k) (ofMonth ym l))) y).
Proof.
  revert inc exp x y.
  induction l as [|r l IH]; intros inc exp x y Hx Hy; cbn [fold_left].
  { done. }
  unfold ofMonth. destruct (inMonth ym (get r "date")) eqn:Hin.
  - rewrite filter_cons_True by done. fold (ofMonth ym l).
    pose proof (weekIndex_range ym _ Hin) as Hidx.
    pose proof (weekIndex_inWeek ym r k Hin) as Hweek.
    set (idx := weekIndex day (get r "date")) in *.
    assert (weeklyTransactionStep day ym (inc, exp) r
            = (if ltb zero (amountIn r)
               then (bump inc idx (amountIn r), exp)
               else (inc, bump exp idx (abs (amountIn r))))) as ->.
    { unfold weeklyTransactionStep. rewrite Hin. fold idx. fold (amountIn r).
      destruct (idx <? 0) eqn:Hneg; [|done]. apply Z.ltb_lt in Hneg. lia. }
    unfold bump.
    destruct (sign_cases (amountIn r) (amountOf_not_NaN _))
      as [(_ & Hlt & [Hpos|Hzero])|(_ & Hlt & Hpos)].
    + rewrite Hpos.
      destruct (decide (Z.to_nat idx = k)) as [Heq|Hne].
      * rewrite filter_cons_True by (by apply Hweek).
        rewrite gains_cons, losses_cons, Hpos, Hlt. cbn [fold_left].
        apply IH; [|done]. by rewrite Heq, list_lookup_alter_eq, Hx.
      * rewrite filter_cons_False by (by rewrite Hweek).
        apply IH; [|done]. by rewrite list_lookup_alter_ne.
    + rewrite Hzero. replace (ltb zero zero) with false by by_evaluation.
      destruct (decide (Z.to_nat idx = k)) as [Heq|Hne].
      * rewrite filter_cons_True by (by apply Hweek).
        rewrite gains_cons, losses_cons, Hzero.
        replace (ltb zero zero) with false by by_evaluation.
        apply IH; [done|].
        rewrite Heq, list_lookup_alter_eq, Hy. cbn [fmap option_fmap option_map].
        by rewrite abs_zero, add_zero_r.
      * rewrite filter_cons_False by (by rewrite Hweek).
        apply IH; [done|]. by rewrite list_lookup_alter_ne.
    + rewrite Hpos.
      destruct (decide (Z.to_nat idx = k)) as [Heq|Hne].
      * rewrite filter_cons_True by (by apply Hweek).
        rewrite gains_cons, losses_cons, Hpos, Hlt. cbn [fold_left].
        apply IH; [done|]. by rewrite Heq, list_lookup_alter_eq, Hy.
      * rewrite filter_cons_False by (by rewrite Hweek).
        apply IH; [done|]. by rewrite list_lookup_alter_ne.
  - rewrite filter_cons_False by (by rewrite Hin). fold (ofMonth ym l).
    unfold weeklyTransactionStep at 2 4. rewrite Hin. by apply IH.
Qed.

Lemma weeklyIncome_length (ym : string) (l : list (gmap string jsval))
  (week : list jsnum) :
  length (fold_left (weeklyIncomeStep day ym) l week) = length week.
Proof.
  revert week. induction l as [|r l IH]; intros week; cbn [fold_left]; [done|].
  rewrite IH. unfold weeklyIncomeStep, bump.
  destruct (inMonth _ _); [|done]. destruct (0 <=? _); [|done].
  apply length_alter.
Qed.

Lemma weeklyTransaction_length (ym : string) (l : list (gmap string jsval))
  (inc exp : list jsnum) :
  length (fold_left (weeklyTransactionStep day ym) l (inc, exp)).1 = length inc
  /\ length (fold_left (weeklyTransactionStep day ym) l (inc, exp)).2
     = length exp.
Proof.
  revert inc exp.
  induction l as [|r l IH]; intros inc exp; cbn [fold_left]; [done|].
  unfold weeklyTransactionStep at 2 4, bump.
  destruct (inMonth _ _); [|apply IH]. destruct (_ <? 0); [apply IH|].
  destruct (ltb zero _); cbn [fst snd].
  - destruct (IH (alter (fun x => add x (amountOf (get r "amount")))
                    (Z.to_nat (weekIndex day (get r "date"))) inc) exp)
      as [-> ->].
    by rewrite length_alter.
  - destruct (IH inc (alter (fun x => add x (abs (amountOf (get r "amount"))))
                        (Z.to_nat (weekIndex day (get r "date"))) exp))
      as [-> ->].
    by rewrite length_alter.
Qed.

(** X23.  The chart by week has four bars of income and four of expenses.
    The bar of a week is a running sum over the records of the month whose
    day of the month falls in that week, days 1 to 7, 8 to 14, 15 to 21, and
    22 to the end: for the income the amounts of the income records, in
    their order, and after them the positive amounts of the transactions;
    for the expenses the absolute values of the negative amounts of the
    transactions. *)
Theorem weeklyTotals_bars (st : state) :
  let ym := currentMonth st in
  length (weeklyTotals day st).1 = 4%nat
  /\ length (weeklyTotals day st).2 = 4%nat
  /\ forall k : nat,
       (k < 4)%nat ->
       (weeklyTotals day st).1 !! k
       = Some (sum (map amountIn
                      (filter (inWeek k) (ofMonth ym (income (store st))))
                    ++ gains (filter (inWeek k)
                                (ofMonth ym (transactions (store st))))))
       /\ (weeklyTotals day st).2 !! k
          = Some (sum (losses (filter (inWeek k)
                                 (ofMonth ym (transactions (store st)))))).
Proof.
  intros ym. unfold weeklyTotals. fold ym.
  set (fromIncome := fold_left (weeklyIncomeStep day ym) (income (store st))
                       [zero; zero; zero; zero]).
  destruct (weeklyTransaction_length ym (transactions (store st)) fromIncome
              [zero; zero; zero; zero]) as [-> ->].
  split; [apply weeklyIncome_length|]. split; [done|].
  intros k Hk.
  assert ([zero; zero; zero; zero] !! k = Some zero) as Hzero.
  { by destruct k as [|[|[|[|k]]]]; [..|lia]. }
  pose proof (weeklyIncome_bar ym (income (store st)) _ k zero Hzero) as Hinc.
  fold fromIncome in Hinc.
  destruct (weeklyTransaction_bar ym (transactions (store st)) fromIncome
              [zero; zero; zero; zero] k _ zero Hinc Hzero) as [-> ->].
  unfold sum. by rewrite fold_left_app.
Qed.

End WithDates.

(** *** Spending by category *)

Definition positive (v : jsnum) : Prop := ltb zero v = true.

(** A [Map] as the loops of [renderCharts] keep it: one entry for a key,
    and every sum above zero. *)
Definition wellKept (m : list (string * jsnum)) : Prop :=
  NoDup m.*1 /\ Forall (fun kv => positive kv.2) m.

(** The category of a transaction as the charts read it. *)
Definition categoryText (fallback : string) (t : gmap string jsval) : string :=
  JsVal.toString (or (get t "category") (VStr fallback)).

Lemma positive_add (a b : jsnum) :
  a = zero \/ positive a -> positive b -> positive (add a b).
Proof.
  unfold positive. intros [->|Ha] Hb; [by rewrite add_zero_l|].
  destruct a as [| | |x], b as [| | |y]; simpl in *; try done.
  apply bool_decide_eq_true in Ha, Hb. apply bool_decide_eq_true.
  change (Q2Qc (inject_Z 0)) with 0%Qc in *.
  apply Qclt_trans with x; [done|]. apply Qclt_minus_iff.
  by replace (x + y + - x)%Qc with y by ring.
Qed.

Lemma positive_truthy (v : jsnum) : positive v -> JsNum.truthy v = true.
Proof.
  unfold positive. destruct v as [| | |x]; simpl; try done.
  intros Hx. apply bool_decide_eq_true in Hx. apply negb_true_iff.
  apply bool_decide_eq_false_2. intros ->. by apply Qclt_irrefl in Hx.
Qed.

Lemma abs_negative (v : jsnum) :
  ltb v zero = true -> positive (abs v) /\ abs v = neg v.
Proof.
  unfold positive. destruct v as [| | |x]; simpl; try done.
  change (Q2Qc (inject_Z 0)) with 0%Qc.
  intros Hx. rewrite Hx. apply bool_decide_eq_true in Hx.
  split; [|done]. apply bool_decide_eq_true.
  apply Qclt_minus_iff in Hx. by rewrite Qcplus_0_l in Hx.
Qed.

Lemma mapGet_elem (m : list (string * jsnum)) (k : string) (v : jsnum) :
  mapGet m k = Some v -> (k, v) ∈ m.
Proof.
  unfold mapGet. induction m as [|[k' v'] m IH]; [done|]. simpl.
  destruct (String.eqb_spec k' k) as [->|Hne]; simpl.
  - intros [= ->]. by left.
  - intros Hm. right. by apply IH.
Qed.

Lemma getOr0_cases (m : list (string * jsnum)) (k : string) :
  wellKept m ->
  (mapGet m k = None /\ getOr0 m k = zero)
  \/ (exists v, mapGet m k = Some v /\ getOr0 m k = v /\ positive v).
Proof.
  intros [_ Hpos]. unfold getOr0. destruct (mapGet m k) as [v|] eqn:Hget.
  - right. exists v. apply mapGet_elem in Hget.
    eapply Forall_forall in Hpos; [|done]. simpl in Hpos.
    by rewrite positive_truthy.
  - by left.
Qed.

Lemma mapGet_none (m : list (string * jsnum)) (k : string) :
  mapGet m k = None <-> k ∉ m.*1.
Proof.
  unfold mapGet. induction m as [|[k' v'] m IH]; simpl.
  - split; [|done]. intros _. apply not_elem_of_nil.
  - rewrite not_elem_of_cons. destruct (String.eqb_spec k' k) as [->|Hne]; simpl.
    + split; [done|]. by intros [? _].
    + rewrite IH. split; [|tauto]. intros ?. split; [congruence|done].
Qed.

Lemma existsb_key (m : list (string * jsnum)) (k : string) :
  existsb (fun kv => String.eqb kv.1 k) m = true <-> k ∈ m.*1.
Proof.
  induction m as [|[k' v'] m IH]; simpl.
  - split; [done|]. intros H. by apply elem_of_nil in H.
  - rewrite orb_true_iff, IH, elem_of_cons, String.eqb_eq.
    split; intros [?|?]; auto.
Qed.

Lemma map_other_keys (m : list (string * jsnum)) (k : string) (v : jsnum) :
  k ∉ m.*1 -> map (fun kv => if String.eqb kv.1 k then (k, v) else kv) m = m.
Proof.
  induction m as [|[k' v'] m IH]; [done|]. cbn [fmap list_fmap fst].
  intros Hk. apply not_elem_of_cons in Hk as [Hne Hk]. cbn [map fst].
  rewrite IH by done. destruct (String.eqb_spec k' k); congruence.
Qed.

(** [m.set(k, v)] when [m] holds [k]: the entry is replaced where it
    stands. *)
Lemma mapSet_present (m : list (string * jsnum)) (k : string) (v : jsnum) :
  NoDup m.*1 -> k ∈ m.*1 ->
  exists (m1 m2 : list (string * jsnum)) (old : jsnum),
    m = m1 ++ (k, old) :: m2 /\ mapGet m k = Some old
    /\ mapSet m k v = m1 ++ (k, v) :: m2.
Proof.
  intros Hdup Hk. unfold mapSet.
  rewrite (proj2 (existsb_key m k) Hk).
  induction m as [|[k' v'] m IH]; [by apply elem_of_nil in Hk|].
  cbn [fmap list_fmap fst] in *. apply NoDup_cons in Hdup as [Hfresh Hdup].
  cbn [map fst]. unfold mapGet. cbn [find fst].
  destruct (String.eqb_spec k' k) as [->|Hne].
  - exists [], m, v'. rewrite map_other_keys by done. done.
  - apply elem_of_cons in Hk as [?|Hk]; [congruence|].
    destruct (IH Hdup Hk) as (m1 & m2 & old & -> & Hget & Hset).
    exists ((k', v') :: m1), m2, old. by rewrite Hset.
Qed.

Lemma mapSet_absent (m : list (string * jsnum)) (k : string) (v : jsnum) :
  k ∉ m.*1 -> mapSet m k v = m ++ [(k, v)].
Proof.
  intros Hk. unfold mapSet.
  destruct (existsb _ m) eqn:Hex; [|done]. by apply existsb_key in Hex.
Qed.

Lemma mapSet_add (m : list (string * jsnum)) (k : string) (x : jsnum) :
  wellKept m -> positive x ->
  wellKept (mapSet m k (add (getOr0 m k) x))
  /\ sum (mapSet m k (add (getOr0 m k) x)).*2 = add (sum m.*2) x.
Proof.
  intros Hm Hx. pose proof Hm as [Hdup Hpos].
  destruct (getOr0_cases m k Hm) as [[Hnone ->]|(old & Hget & -> & Hold)].
  - apply mapGet_none in Hnone. rewrite mapSet_absent by done.
    rewrite add_zero_l. split; [split|].
    + rewrite fmap_app. apply NoDup_app. split; [done|].
      split; [|apply NoDup_singleton].
      intros k' Hk' Hin. apply list_elem_of_singleton in Hin. by subst.
    + apply Forall_app. split; [done|]. by constructor.
    + rewrite fmap_app, sum_app. cbn [fmap list_fmap snd].
      by rewrite sum_cons, sum_nil, add_zero_r.
  - assert (k ∈ m.*1) as Hk.
    { apply mapGet_elem in Hget. by apply (list_elem_of_fmap_2 fst) in Hget. }
    destruct (mapSet_present m k (add old x) Hdup Hk)
      as (m1 & m2 & old' & Hm12 & Hget' & ->).
    assert (old' = old) as -> by congruence. subst m.
    split; [split|].
    + by rewrite fmap_app in *.
    + apply Forall_app in Hpos as [H1 H2]. apply Forall_cons in H2 as [_ H2].
      apply Forall_app. split; [done|]. constructor; [|done].
      apply positive_add; auto.
    + rewrite !fmap_app, !sum_app. cbn [fmap list_fmap snd].
      rewrite !sum_cons, <- !add_assoc. f_equal. f_equal. apply add_comm.
Qed.

Lemma mapGet_app (m1 m2 : list (string * jsnum)) (k : string) :
  mapGet (m1 ++ m2) k
  = match mapGet m1 k with Some v => Some v | None => mapGet m2 k end.
Proof.
  unfold mapGet. induction m1 as [|[k' v'] m1 IH]; [done|]. simpl.
  by destruct (String.eqb k' k).
Qed.

Lemma mapGet_map (m : list (string * jsnum)) (k cat : string) (v : jsnum) :
  mapGet (map (fun kv => if String.eqb kv.1 k then (k, v) else kv) m) cat
  = (if decide (k = cat)
     then (if existsb (fun kv => String.eqb kv.1 k) m then Some v else None)
     else mapGet m cat).
Proof.
  unfold mapGet. induction m as [|[k' v'] m IH]; cbn [map find existsb fst].
  - by destruct (decide (k = cat)).
  - destruct (decide (k = cat)) as [<-|Hcat].
    + destruct (String.eqb_spec k' k) as [->|Hne]; cbn [fst orb].
      * by rewrite String.eqb_refl.
      * apply String.eqb_neq in Hne as ->. done.
    + destruct (String.eqb_spec k' k) as [->|Hne]; cbn [fst orb].
      * apply String.eqb_neq in Hcat as ->. done.
      * by destruct (String.eqb k' cat).
Qed.

(** [m.get] after [m.set] *)
Lemma mapGet_mapSet (m : list (string * jsnum)) (k cat : string) (v : jsnum) :
  mapGet (mapSet m k v) cat
  = (if decide (k = cat) then Some v else mapGet m cat).
Proof.
  unfold mapSet. destruct (existsb _ m) eqn:Hex.
  - by rewrite mapGet_map, Hex.
  - rewrite mapGet_app. destruct (decide (k = cat)) as [<-|Hne].
    + assert (mapGet m k = None) as ->.
      { apply mapGet_none. intros Hin. apply existsb_key in Hin. congruence. }
      unfold mapGet. simpl. by rewrite String.eqb_refl.
    + destruct (mapGet m cat); [done|]. unfold mapGet. simpl.
      by apply String.eqb_neq in Hne as ->.
Qed.

Lemma getOr0_mapSet (m : list (string * jsnum)) (k cat : string) (v : jsnum) :
  positive v ->
  getOr0 (mapSet m k v) cat = (if decide (k = cat) then v else getOr0 m cat).
Proof.
  intros Hv. unfold getOr0. rewrite mapGet_mapSet.
  destruct (decide (k = cat)); [|done]. by rewrite positive_truthy.
Qed.

Section WithDates.
Context {L : DateLib}.

(** The step of the loop either leaves the map as it is, or adds the
    absolute value of a negative amount of the month to the sum of the
    category of the transaction. *)
Lemma expenseStep_cases (ym fallback : string) (m : list (string * jsnum))
  (t : gmap string jsval) :
  (expenseStep ym fallback m t = m
   /\ losses (ofMonth ym [t]) = [])
  \/ (expenseStep ym fallback m t
      = mapSet m (categoryText fallback t)
          (add (getOr0 m (categoryText fallback t)) (abs (amountIn t)))
      /\ losses (ofMonth ym [t]) = [abs (amountIn t)]
      /\ positive (abs (amountIn t))).
Proof.
  unfold expenseStep, ofMonth. fold (amountIn t). fold (categoryText fallback t).
  destruct (inMonth ym (get t "date")) eqn:Hin; simpl.
  - rewrite filter_cons_True by done. rewrite filter_nil, losses_cons.
    destruct (sign_cases (amountIn t) (amountOf_not_NaN _))
      as [(-> & -> & _)|(-> & Hlt & _)]; [by left|].
    rewrite Hlt. right. split; [done|]. split; [done|].
    by apply abs_negative.
  - rewrite filter_cons_False by (by rewrite Hin). by left.
Qed.

Lemma ofMonth_cons (ym : string) (t : gmap string jsval)
  (l : list (gmap string jsval)) :
  ofMonth ym (t :: l) = ofMonth ym [t] ++ ofMonth ym l.
Proof.
  unfold ofMonth. destruct (inMonth ym (get t "date")) eqn:Hin.
  - by rewrite !filter_cons_True, filter_nil by done.
  - by rewrite !filter_cons_False, filter_nil by (by rewrite Hin).
Qed.

Lemma losses_app (l1 l2 : list (gmap string jsval)) :
  losses (l1 ++ l2) = losses l1 ++ losses l2.
Proof. unfold losses. by rewrite filter_app, map_app. Qed.

Lemma expenses_kept (ym fallback : string) (txs : list (gmap string jsval))
  (m : list (string * jsnum)) :
  wellKept m -> wellKept (fold_left (expenseStep ym fallback) txs m).
Proof.
  revert m. induction txs as [|t txs IH]; intros m Hm; cbn [fold_left]; [done|].
  destruct (expenseStep_cases ym fallback m t) as [[-> _]|(-> & _ & Hpos)].
  - by apply IH.
  - apply IH. by apply mapSet_add.
Qed.

Lemma losses_filter_nil (P : gmap string jsval -> Prop)
  `{!forall r, Decision (P r)} (l : list (gmap string jsval)) :
  losses l = [] -> losses (filter P l) = [].
Proof.
  induction l as [|r l IH]; [done|]. rewrite losses_cons.
  destruct (ltb (amountIn r) zero) eqn:Hneg; [done|]. intros Hl.
  destruct (decide (P r)).
  - rewrite filter_cons_True by done. rewrite losses_cons, Hneg. by apply IH.
  - rewrite filter_cons_False by done. by apply IH.
Qed.

(** The sum that the map holds for a category is the running sum of the
    expenses of the month in that category, added to what the map held. *)
Lemma expenses_category (ym fallback name : string)
  (txs : list (gmap string jsval)) (m : list (string * jsnum)) :
  wellKept m ->
  getOr0 (fold_left (expenseStep ym fallback) txs m) name
  = fold_left add
      (losses (filter (fun t => categoryText fallback t = name) (ofMonth ym txs)))
      (getOr0 m name).
Proof.
  revert m. induction txs as [|t txs IH]; intros m Hm; cbn [fold_left]; [done|].
  rewrite ofMonth_cons, filter_app, losses_app, fold_left_app.
  destruct (expenseStep_cases ym fallback m t)
    as [[-> Hnone]|(-> & Hsome & Hpos)].
  - rewrite IH by done.
    by rewrite (losses_filter_nil (fun t0 => categoryText fallback t0 = name)
                  (ofMonth ym [t])).
  - destruct (mapSet_add m (categoryText fallback t) _ Hm Hpos) as [Hm' _].
    rewrite IH by done. rewrite getOr0_mapSet.
    2:{ apply positive_add; [|done].
        destruct (getOr0_cases m (categoryText fallback t) Hm)
          as [[_ ->]|(v & _ & -> & ?)]; auto. }
    assert (ofMonth ym [t] = [t]) as Ht.
    { unfold ofMonth in *.
      destruct (inMonth ym (get t "date")) eqn:Hin.
      - by rewrite filter_cons_True.
      - rewrite filter_cons_False in Hsome by (by rewrite Hin). done. }
    rewrite Ht in *.
    destruct (decide (categoryText fallback t = name)) as [Heq|Hne].
    + rewrite filter_cons_True, filter_nil by done. by rewrite Hsome, Heq.
    + by rewrite filter_cons_False, filter_nil by done.
Qed.

Lemma sum_positive (l : list jsnum) :
  Forall positive l -> l = [] \/ positive (sum l).
Proof.
  induction 1 as [|x l Hx _ IH]; [by left|]. right. rewrite sum_cons, add_comm.
  apply positive_add; [|done]. destruct IH as [->|?]; auto.
Qed.

Lemma mapGet_entry (m : list (string * jsnum)) (k : string) (v : jsnum) :
  NoDup m.*1 -> (k, v) ∈ m -> mapGet m k = Some v.
Proof.
  unfold mapGet. induction m as [|[k' v'] m IH]; intros Hdup Hin.
  { by apply elem_of_nil in Hin. }
  cbn [fmap list_fmap fst] in Hdup. apply NoDup_cons in Hdup as [Hfresh Hdup].
  cbn [find fst]. apply elem_of_cons in Hin as [[= <- <-]|Hin].
  - by rewrite String.eqb_refl.
  - destruct (String.eqb_spec k' k) as [->|Hne]; [|by apply IH].
    exfalso. apply Hfresh. by apply (list_elem_of_fmap_2 fst) in Hin.
Qed.

Lemma positive_not_NaN (v : jsnum) : positive v -> v ≠ NaN.
Proof. by intros Hv ->. Qed.

(** The entries of the map, the largest sum first. *)
Lemma sortWith_descending (m : list (string * jsnum)) :
  Forall (fun kv => positive kv.2) m ->
  StronglySorted (fun a b : string * jsnum => ltb a.2 b.2 = false)
    (sortWith (fun a b : string * jsnum => sub b.2 a.2) m).
Proof.
  intros Hm.
  apply (sortWith_sorted_by _ (fun kv : string * jsnum => kv.2 ≠ NaN)).
  - intros x y z Hx Hy Hz Hxy Hyz. by apply (ltb_false_trans _ y.2).
  - intros x y Hx Hy. unfold goesAfter. rewrite sub_positive by done.
    apply ltb_asym.
  - intros x y Hx Hy. unfold goesAfter. by rewrite sub_positive.
  - eapply Forall_impl; [exact Hm|]. intros kv. apply positive_not_NaN.
Qed.

(** X24.  The chart of spending by category has at most seven slices and a
    label for each; every slice is above zero; the first six stand in
    descending order; and each of the first six is the spending of the
    category that its label names: the running sum of the absolute values
    of the negative amounts of the month in that category, a transaction
    without category counting as [Uncategorized]. *)
Theorem spendingChart_slices (st : state) :
  let ym := currentMonth st in
  let txs := transactions (store st) in
  length (spendingChart st).1 = length (spendingChart st).2
  /\ (length (spendingChart st).2 <= 7)%nat
  /\ Forall positive (spendingChart st).2
  /\ StronglySorted (fun a b => ltb a b = false) (take 6 (spendingChart st).2)
  /\ forall (i : nat) (c : string),
       (i < 6)%nat ->
       (spendingChart st).1 !! i = Some c ->
       (spendingChart st).2 !! i
       = Some (sum (losses
                      (filter (fun t => categoryText "Uncategorized" t = c)
                         (ofMonth ym txs)))).
Proof.
  intros ym txs. unfold spendingChart. cbn [fst snd]. fold ym txs.
  set (entries := expensesByCategory ym "Uncategorized" txs).
  set (sorted := sortWith _ entries).
  assert (wellKept entries) as [Hdup Hpos].
  { apply expenses_kept. split; constructor. }
  assert (sorted ≡ₚ entries) as Hperm by apply sortWith_Permutation.
  assert (Forall (fun kv => positive kv.2) sorted) as Hsorted
    by (by rewrite Hperm).
  assert (StronglySorted (fun a b : string * jsnum => ltb a.2 b.2 = false)
            sorted) as Horder by (by apply sortWith_descending).
  rewrite <- (take_drop 6 sorted) in Hsorted, Horder.
  apply Forall_app in Hsorted as [Htop Hrest].
  apply StronglySorted_app_1_l in Horder.
  rewrite fold_add_running.
  change (fold_left add ?l zero) with (sum l).
  change (map fst (take 6 sorted)) with (take 6 sorted).*1.
  change (map snd (take 6 sorted)) with (take 6 sorted).*2.
  change (map snd (drop 6 sorted)) with (drop 6 sorted).*2.
  assert (Forall positive (take 6 sorted).*2) as Htop' by (by apply Forall_fmap).
  assert (StronglySorted (fun a b => ltb a b = false) (take 6 sorted).*2)
    as Horder'.
  { by apply (StronglySorted_fmap snd
                (fun a b : string * jsnum => ltb a.2 b.2 = false)
                (fun a b : jsnum => ltb a b = false)). }
  assert (forall (i : nat) (c : string),
            (take 6 sorted).*1 !! i = Some c ->
            (take 6 sorted).*2 !! i
            = Some (sum (losses
                           (filter (fun t => categoryText "Uncategorized" t = c)
                              (ofMonth ym txs))))) as Hslice.
  { intros i c. rewrite !list_lookup_fmap.
    destruct (take 6 sorted !! i) as [[c' v]|] eqn:Hi; [|done].
    intros [= <-]. cbn [fmap option_fmap option_map snd]. f_equal.
    assert ((c', v) ∈ entries) as Hin.
    { rewrite <- Hperm. apply list_elem_of_lookup_2 in Hi.
      rewrite <- (take_drop 6 sorted). apply elem_of_app. by left. }
    assert (positive v) as Hv
      by exact (proj1 (Forall_forall _ _) Hpos _ Hin).
    pose proof (expenses_category ym "Uncategorized" c' txs []
                  (conj (NoDup_nil_2) (Forall_nil_2 _))) as Hcat.
    fold (expensesByCategory ym "Uncategorized" txs) in Hcat. fold entries in Hcat.
    change (getOr0 [] c') with zero in Hcat. fold (sum
      (losses (filter (fun t => categoryText "Uncategorized" t = c')
                 (ofMonth ym txs)))) in Hcat.
    rewrite <- Hcat. unfold getOr0.
    rewrite (mapGet_entry entries c' v) by done. by rewrite positive_truthy. }
  destruct (sum_positive _ (proj2 (Forall_fmap _ _ _) Hrest)) as [Hnil|Hother].
  - rewrite Hnil, sum_nil.
    replace (ltb zero zero) with false by by_evaluation.
    rewrite !app_nil_r, !length_fmap, length_take.
    split; [done|]. split; [lia|]. split; [done|]. split.
    + rewrite take_ge; [done|]. rewrite length_fmap, length_take. lia.
    + intros i c _. apply Hslice.
  - unfold positive in Hother. rewrite Hother.
    assert (length (take 6 sorted) = 6%nat) as Hsix.
    { rewrite length_take. destruct (decide (6 <= length sorted)%nat); [lia|].
      exfalso. rewrite drop_ge in Hother by lia. revert Hother. by_evaluation. }
    rewrite !length_app, !length_fmap, Hsix. cbn [length].
    split; [done|]. split; [lia|]. split.
    { apply Forall_app. split; [done|]. by constructor. }
    split.
    + by rewrite take_app_length' by (by rewrite length_fmap).
    + intros i c Hi. rewrite !lookup_app_l by (rewrite length_fmap; lia).
      apply Hslice.
Qed.


(** X26.  An income added through its form and the figures of the
    dashboard.  When the date typed does not lie in the selected month, no
    figure changes.  When it does, the amount typed, read as a number (zero
    when it is not one), enters the running sum of the total income after
    the incomes that were there and before the transactions.  The total
    expenses and the budget utilisation never change. *)
Theorem income_added (source amount date recurrence status : string)
  (editId : jsval) (newId : Z) (st : state) :
  truthy editId = false ->
  let ym := currentMonth st in
  let st' := submitIncome source amount date recurrence status editId newId st in
  (~ datedIn ym (VStr date) ->
   updateDashboardKPIs st' = updateDashboardKPIs st)
  /\ (datedIn ym (VStr date) ->
      totalIncome (updateDashboardKPIs st')
      = sum (map amountIn (ofMonth ym (income (store st)))
             ++ [amountOf (VStr amount)]
             ++ gains (ofMonth ym (transactions (store st)))))
  /\ totalExpenses (updateDashboardKPIs st')
     = totalExpenses (updateDashboardKPIs st)
  /\ budgetUtilization (updateDashboardKPIs st')
     = budgetUtilization (updateDashboardKPIs st).
Proof.
  intros Hedit ym st'.
  set (new := assign {[ "id" := VNum (ofZ newId) ]}
                [("source", VStr (trim source)); ("amount", VStr amount);
                 ("date", VStr date); ("recurrence", VStr recurrence);
                 ("status", VStr status)]).
  assert (get new "date" = VStr date /\ get new "amount" = VStr amount)
    as [Hdate Hamount].
  { unfold new, assign, get. cbn [fold_left fst snd].
    split; by rewrite !lookup_insert_ne, lookup_insert_eq by done. }
  assert (store st' = setTab Income (income (store st) ++ [new]) (store st)
          /\ currentMonth st' = currentMonth st) as [Hstore Hmonth].
  { unfold st', submitIncome, submitForm. by rewrite Hedit. }
  assert (fold_left (incomeStep ym) (income (store st) ++ [new]) zero
          = (if inMonth ym (VStr date)
             then add (fold_left (incomeStep ym) (income (store st)) zero)
                    (amountOf (VStr amount))
             else fold_left (incomeStep ym) (income (store st)) zero)) as Hloop.
  { rewrite fold_left_app. cbn [fold_left]. unfold incomeStep at 1, incomeLoop.
    by rewrite Hdate, Hamount. }
  unfold updateDashboardKPIs.
  cbn [totalIncome totalExpenses budgetUtilization].
  rewrite Hstore, Hmonth. cbn [income transactions budgets setTab]. fold ym.
  rewrite Hloop. split; [|split; [|split]].
  - intros Hout.
    assert (inMonth ym (VStr date) = false) as ->; [|done].
    destruct (inMonth ym (VStr date)) eqn:Hin; [|done].
    by apply inMonth_datedIn in Hin.
  - intros Hin. apply inMonth_datedIn in Hin as ->.
    rewrite transaction_running, income_running. cbn [fst].
    unfold sum. by rewrite !fold_left_app.
  - by rewrite !transaction_running.
  - done.
Qed.

End WithDates.

(** A store for January 2024. *)
Definition january : state :=
  State
    (Data []
       [ {[ "id" := VStr "1"; "amount" := VNum (ofZ 1000);
            "date" := VStr "2024-01-05" ]} ]
       [ {[ "id" := VStr "2"; "date" := VStr "2024-01-03";
            "category" := VStr "Food"; "amount" := VNum (ofZ (-40)) ]};
         {[ "id" := VStr "3"; "date" := VStr "2024-01-10";
            "category" := VStr "Fuel"; "amount" := VNum (ofZ (-60)) ]};
         {[ "id" := VStr "4"; "date" := VStr "2024-01-25";
            "category" := VStr "Food"; "amount" := VNum (ofZ (-15)) ]};
         {[ "id" := VStr "5"; "date" := VStr "2024-01-16";
            "amount" := VNum (ofZ 20) ]};
         {[ "id" := VStr "6"; "date" := VStr "2024-02-01";
            "category" := VStr "Food"; "amount" := VNum (ofZ (-99)) ]} ]
       []
       [ {[ "name" := VStr "Food"; "amount" := VStr "100" ]};
         {[ "name" := VStr "Rent"; "amount" := VNum (ofZ 1200) ]} ])
    "2024-01" [] [].

Example charts_of_january :
  weeklyTotals (L := Civil) civilDay january
  = ([ofZ 1000; zero; ofZ 20; zero], [ofZ 40; ofZ 60; zero; ofZ 15])
  /\ spendingChart (L := Civil) january = (["Fuel"; "Food"], [ofZ 60; ofZ 55])
  /\ budgetChart (L := Civil) january
     = (["Food"; "Rent"], [ofZ 100; ofZ 1200], [ofZ 55; zero])
  /\ updateDashboardKPIs (L := Civil) january
     = Kpis (ofZ 1020) (ofZ 115) (ofZ 905) zero.
Proof. repeat split; by_evaluation. Qed.


Lemma income_added_witness :
  totalIncome
    (updateDashboardKPIs (L := Civil)
       (submitIncome "Gift" "25.50" "2024-01-20" "none" "received" VNull
          1705312800000 january))
  = sum [ofZ 1000; Fin (Q2Qc (51 # 2)); ofZ 20].
Proof.
  destruct (income_added (L := Civil) "Gift" "25.50" "2024-01-20" "none"
              "received" VNull 1705312800000 january eq_refl) as (_ & H & _).
  rewrite H; by_evaluation.
Defined.

Lemma weeklyTotals_bars_witness :
  (weeklyTotals (L := Civil) civilDay january).1 !! 2%nat = Some (sum [ofZ 20])
  /\ (weeklyTotals (L := Civil) civilDay january).2 !! 0%nat = Some (sum [ofZ 40]).
Proof.
  destruct (weeklyTotals_bars (L := Civil) civilDay january) as (_ & _ & H).
  destruct (H 2%nat) as [Hincome _]; [lia|].
  destruct (H 0%nat) as [_ Hexpenses]; [lia|].
  rewrite Hincome, Hexpenses. split; by_evaluation.
Defined.

Lemma spendingChart_slices_witness :
  (spendingChart (L := Civil) january).2 !! 1%nat
  = Some (sum [ofZ 40; ofZ 15]).
Proof.
  destruct (spendingChart_slices (L := Civil) january) as (_ & _ & _ & _ & H).
  rewrite (H 1%nat "Food"); [by_evaluation|lia|by_evaluation].
Defined.

End DashboardFacts.

(** ** The rows of a table *)

Module TableFacts.
Import JsString JsNum JsVal Luxon App Views TableView SortFacts.

(** The properties of a plain object after an assignment. *)
Lemma setProp_elem_of (o : list (string * string)) (k v k' v' : string) :
  (k', v') ∈ setProp o k v
  <-> (k' = k /\ v' = v) \/ (k' ≠ k /\ (k', v') ∈ o).
Proof.
  unfold setProp. destruct (existsb _ o) eqn:Hex.
  - change (map ?f o) with (f <$> o). rewrite list_elem_of_fmap. split.
    + intros ([k0 v0] & Heq & Hin). cbn [fst] in Heq.
      destruct (String.eqb_spec k0 k) as [->|Hne].
      * left. by injection Heq.
      * right. injection Heq as -> ->. done.
    + intros [[-> ->]|[Hne Hin]].
      * apply existsb_exists in Hex as ([k0 v0] & Hin & Hk).
        apply String.eqb_eq in Hk. cbn [fst] in Hk. subst k0.
        exists (k, v0). cbn [fst]. rewrite String.eqb_refl.
        split; [done|]. by apply list_elem_of_In.
      * exists (k', v'). cbn [fst]. apply String.eqb_neq in Hne as ->. done.
  - rewrite elem_of_app, list_elem_of_singleton. split.
    + intros [Hin|[= -> ->]]; [|auto]. right. split; [|done].
      intros ->. apply not_true_iff_false in Hex. apply Hex.
      apply existsb_exists. exists (k, v'). split; [|apply String.eqb_refl].
      by apply list_elem_of_In.
    + intros [[-> ->]|[_ ?]]; auto.
Qed.

Lemma assignAll_elem_of (b o : list (string * string)) (k v : string) :
  NoDup b.*1 ->
  (k, v) ∈ fold_left (fun o kv => setProp o kv.1 kv.2) b o
  <-> (k, v) ∈ b \/ ((k ∉ b.*1) /\ (k, v) ∈ o).
Proof.
  revert o. induction b as [|[k0 v0] b IH]; intros o Hdup; cbn [fold_left].
  - split; [intros ?; right; split; [apply not_elem_of_nil|done]|].
    intros [H|[_ ?]]; [by apply elem_of_nil in H|done].
  - cbn [fmap list_fmap fst] in *. apply NoDup_cons in Hdup as [Hfresh Hdup].
    rewrite (IH _ Hdup), setProp_elem_of, not_elem_of_cons, elem_of_cons.
    cbn [fst snd]. split.
    + intros [?|[Hk [[-> ->]|[? ?]]]]; auto.
    + intros [[[= -> ->]|Hin]|[[? ?] ?]]; auto.
Qed.

(** [{ ...a, ...b }] holds the properties of [b], and those of [a] that
    [b] does not set. *)
Lemma spread_elem_of (a b : list (string * string)) (k v : string) :
  NoDup a.*1 -> NoDup b.*1 ->
  (k, v) ∈ spread a b <-> (k, v) ∈ b \/ ((k ∉ b.*1) /\ (k, v) ∈ a).
Proof.
  intros Ha Hb. unfold spread. rewrite !assignAll_elem_of by done.
  split; [|intros [?|[? ?]]; auto].
  intros [?|[? [?|[_ H]]]]; auto. by apply elem_of_nil in H.
Qed.

Lemma applyFilters_elem_of (fl : list (string * string))
  (rows : list (gmap string jsval)) (r : gmap string jsval) :
  r ∈ fold_left applyFilter fl rows
  <-> r ∈ rows
      /\ forall k v : string, (k, v) ∈ fl -> trim v ≠ "" ->
           matchesFilter k (toLowerCase (trim v)) r = true.
Proof.
  revert rows. induction fl as [|[k0 v0] fl IH]; intros rows; cbn [fold_left].
  - split; [|by intros [? _]]. intros ?. split; [done|].
    intros k v Hin. by apply elem_of_nil in Hin.
  - rewrite IH. unfold applyFilter. cbn [fst snd].
    destruct (String.eqb_spec (trim v0) "") as [Heq|Hne].
    + split; intros [Hr Hall]; (split; [done|]); intros k v Hin Hv.
      * apply elem_of_cons in Hin as [[= -> ->]|Hin]; [done|]. by apply Hall.
      * apply Hall; [by right|done].
    + rewrite list_elem_of_filter. split.
      * intros [[Hm Hr] Hall]. split; [done|]. intros k v Hin Hv.
        apply elem_of_cons in Hin as [[= -> ->]|Hin]; [done|]. by apply Hall.
      * intros [Hr Hall]. split; [split; [|done]|].
        -- apply Hall; [by left|done].
        -- intros k v Hin Hv. apply Hall; [by right|done].
Qed.

Lemma applyFilters_sublist (fl : list (string * string))
  (rows : list (gmap string jsval)) :
  sublist (fold_left applyFilter fl rows) rows.
Proof.
  revert rows. induction fl as [|kv fl IH]; intros rows; cbn [fold_left]; [done|].
  etrans; [apply IH|]. unfold applyFilter.
  destruct (String.eqb _ _); [done|apply sublist_filter].
Qed.

Section WithPlatform.
Context {L : DateLib} {C : Collator}.

(** X12.  The rows that a table shows.  A record is shown exactly when it is a
    record of the selected month, passes every column filter whose text is
    not blank (the text is compared without regard to case and surrounding
    blanks; a filter given anew replaces the saved one of the same column),
    and, when a search text is given, holds it in one of the columns.  No
    record is shown more often than the collection holds it. *)
Theorem tableRows_spec (t : tab) (ym : string) (columns : list string)
  (items : list (gmap string jsval)) (sortKeys : list (string * string))
  (saved filters : list (string * string)) (search : string) :
  NoDup saved.*1 -> NoDup filters.*1 ->
  tableRows t ym columns items sortKeys saved filters search ⊆+ items
  /\ forall r : gmap string jsval,
       r ∈ tableRows t ym columns items sortKeys saved filters search
       <-> r ∈ filterToCurrentMonth t ym items
           /\ (forall k v : string,
                 (k, v) ∈ filters \/ ((k ∉ filters.*1) /\ (k, v) ∈ saved) ->
                 trim v ≠ "" ->
                 includes (toLowerCase (trim v))
                   (toLowerCase (JsVal.toString (nullish (get r k) (VStr ""))))
                 = true)
           /\ (search ≠ "" ->
               exists col : string,
                 col ∈ columns
                 /\ includes (toLowerCase search)
                      (toLowerCase (JsVal.toString (get r col))) = true).
Proof.
  intros Hsaved Hfilters. unfold tableRows, multiColumnSort. split.
  - rewrite sortWith_Permutation. apply sublist_submseteq.
    assert (sublist (fold_left applyFilter (spread saved filters)
                       (filterToCurrentMonth t ym items)) items) as Hsub.
    { etrans; [apply applyFilters_sublist|].
      destruct t; simpl; try done; apply sublist_filter. }
    destruct (String.eqb search ""); [done|].
    etrans; [apply sublist_filter|done].
  - intros r. rewrite sortWith_elem_of.
    assert (r ∈ fold_left applyFilter (spread saved filters)
                  (filterToCurrentMonth t ym items)
            <-> r ∈ filterToCurrentMonth t ym items
                /\ (forall k v : string,
                      (k, v) ∈ filters \/ ((k ∉ filters.*1) /\ (k, v) ∈ saved) ->
                      trim v ≠ "" ->
                      includes (toLowerCase (trim v))
                        (toLowerCase
                           (JsVal.toString (nullish (get r k) (VStr ""))))
                      = true)) as Hfl.
    { rewrite applyFilters_elem_of. split; intros [Hr Hall]; (split; [done|]).
      - intros k v Hin. apply Hall. by apply spread_elem_of.
      - intros k v Hin. apply Hall. by apply spread_elem_of. }
    destruct (String.eqb_spec search "") as [->|Hne].
    + rewrite Hfl. split; [|by intros (? & ? & _)].
      intros [? ?]. split; [done|]. split; [done|]. done.
    + rewrite list_elem_of_filter, Hfl. unfold matchesSearch.
      rewrite existsb_exists. split.
      * intros [(col & Hcol & Hinc) [? ?]]. split; [done|]. split; [done|].
        intros _. exists col. split; [by apply list_elem_of_In|done].
      * intros (? & ? & Hs). split; [|done].
        destruct (Hs Hne) as (col & Hcol & Hinc). exists col.
        split; [by apply list_elem_of_In|done].
Qed.

End WithPlatform.

Lemma tableRows_spec_witness :
  DashboardFacts.january.(store).(transactions) !! 1%nat
  ∈ Some <$>
      tableRows (L := Civil) (C := CodeUnits) Transactions "2024-01"
        ["date"; "description"; "category"; "amount"; "status"]
        (transactions (store DashboardFacts.january)) [("date", "asc")]
        [("category", "food")] [("category", " FU ")] "".
Proof.
  destruct (tableRows_spec (L := Civil) (C := CodeUnits) Transactions "2024-01"
              ["date"; "description"; "category"; "amount"; "status"]
              (transactions (store DashboardFacts.january)) [("date", "asc")]
              [("category", "food")] [("category", " FU ")] "")
    as [_ Hrows]; [by_evaluation..|].
  apply list_elem_of_fmap. eexists. split; [reflexivity|].
  apply Hrows. split; [by_evaluation|]. split; [|done].
  intros k v [Hin|[Hnot Hin]] _.
  - apply list_elem_of_singleton in Hin as [= -> ->]. by_evaluation.
  - apply list_elem_of_singleton in Hin as [= -> ->].
    exfalso. apply Hnot. by_evaluation.
Defined.

Example tableRows_example :
  tableRows (L := Civil) (C := CodeUnits) Transactions "2024-01"
    ["date"; "description"; "category"; "amount"; "status"]
    (transactions (store DashboardFacts.january)) [("amount", "asc")]
    [] [("category", " FOOD ")] ""
  = [ {[ "id" := VStr "2"; "date" := VStr "2024-01-03";
         "category" := VStr "Food"; "amount" := VNum (ofZ (-40)) ]};
      {[ "id" := VStr "4"; "date" := VStr "2024-01-25";
         "category" := VStr "Food"; "amount" := VNum (ofZ (-15)) ]} ]
  /\ length
       (tableRows (L := Civil) (C := CodeUnits) Transactions "2024-01"
          ["date"; "description"; "category"; "amount"; "status"]
          (transactions (store DashboardFacts.january)) [("amount", "asc")]
          [] [] "undef") = 4%nat.
Proof. split; by_evaluation. Qed.

Lemma sortWith_ties {A} (cmp : A -> A -> jsnum) (l : list A) :
  (forall x y : A, goesAfter cmp x y = false) -> sortWith cmp l = l.
Proof.
  intros Hcmp. induction l as [|x l IH]; simpl; [done|]. rewrite IH.
  destruct l; simpl; [done|]. by rewrite Hcmp.
Qed.

Section WithCollator.
Context {C : Collator}.

(** X13.  Sorting rearranges the rows and neither drops nor repeats one, for
    every list of sort keys; without sort keys the rows stay in their
    order. *)
Theorem multiColumnSort_rearranges (items : list (gmap string jsval))
  (sortKeys : list (string * string)) :
  multiColumnSort items sortKeys ≡ₚ items
  /\ multiColumnSort items [] = items.
Proof.
  split; [apply sortWith_Permutation|].
  apply sortWith_ties. intros x y. by_evaluation.
Qed.

(** X14.  Sorting by a column that holds a number other than [NaN] in every
    record puts the numbers in order, ascending or descending, also when
    some of them are equal. *)
Theorem multiColumnSort_ordered (key : string)
  (items : list (gmap string jsval)) :
  Forall (fun r => SortClaims.numberAt key r ≠ NaN) items ->
  StronglySorted
    (fun a b => ltb (SortClaims.numberAt key b) (SortClaims.numberAt key a) = false)
    (multiColumnSort items [(key, "asc")])
  /\ StronglySorted
       (fun a b => ltb (SortClaims.numberAt key a) (SortClaims.numberAt key b) = false)
       (multiColumnSort items [(key, "desc")]).
Proof.
  intros Hnum. unfold multiColumnSort. split.
  - apply (sortWith_sorted_by _ (fun r => SortClaims.numberAt key r ≠ NaN));
      [| | |done].
    + intros x y z Hx Hy Hz. by apply ltb_false_trans.
    + intros x y Hx Hy. rewrite SortClaims.ascending_after by done.
      apply ltb_asym.
    + intros x y Hx Hy. by rewrite SortClaims.ascending_after by done.
  - apply (sortWith_sorted_by _ (fun r => SortClaims.numberAt key r ≠ NaN));
      [| | |done].
    + intros x y z Hx Hy Hz H1 H2. by apply (ltb_false_trans _ (SortClaims.numberAt key y)).
    + intros x y Hx Hy.
      rewrite (SortClaims.descending_after key "desc") by done.
      apply ltb_asym.
    + intros x y Hx Hy.
      by rewrite (SortClaims.descending_after key "desc") by done.
Qed.

End WithCollator.

Lemma multiColumnSort_ordered_witness :
  StronglySorted
    (fun a b => ltb (SortClaims.numberAt "amount" b) (SortClaims.numberAt "amount" a) = false)
    (multiColumnSort (C := CodeUnits)
       [SortClaims.third; SortClaims.first; SortClaims.second]
       [("amount", "asc")]).
Proof.
  apply (multiColumnSort_ordered (C := CodeUnits) "amount"
           [SortClaims.third; SortClaims.first; SortClaims.second]).
  repeat constructor; by_evaluation.
Defined.

(** *** The order of the bills *)

Lemma ltb_zero_ofZ (z : Z) : ltb zero (ofZ z) = (0 <? z).
Proof.
  unfold ltb, zero, ofZ.
  destruct (Z.ltb_spec 0 z) as [Hz|Hz];
    [apply bool_decide_eq_true_2|apply bool_decide_eq_false_2];
    unfold Qclt; cbn [this Q2Qc]; rewrite !Qred_correct, <- Zlt_Qlt; lia.
Qed.

Section WithPlatform.
Context {L : DateLib} {C : Collator}.

(** A bill may stand before another in the list: it is overdue and the
    other is not; or both are overdue, or neither is, and it is due no
    later than the other, a bill with a valid due date standing before one
    without. *)
Definition mayPrecede (today : Z) (a b : gmap string jsval) : Prop :=
  let group x := if isOverdue today x then 0 else 1 in
  group a < group b
  \/ (group a = group b
      /\ match toDT (get a "Due_Date"), toDT (get b "Due_Date") with
         | Some x, Some y => x <= y
         | None, Some _ => False
         | _, _ => True
         end).

Lemma compareBills_groups (today : Z) (a b : gmap string jsval) :
  compareBills today a b
  = (let byDue :=
       match toDT (get a "Due_Date"), toDT (get b "Due_Date") with
       | Some ad, Some bd => ofZ (ad - bd)
       | Some _, None => ofZ (-1)
       | None, Some _ => ofZ 1
       | None, None =>
           ofZ (localeCompare
                  (JsVal.toString (or (get a "Bill_Name") (VStr "")))
                  (JsVal.toString (or (get b "Bill_Name") (VStr ""))))
       end in
     match isOverdue today a, isOverdue today b with
     | true, false => ofZ (-1)
     | false, true => ofZ 1
     | _, _ => byDue
     end).
Proof.
  unfold compareBills. by destruct (isOverdue today a), (isOverdue today b).
Qed.

(** X16.  The list of bills holds the bills of the store, each once, overdue
    bills first, and within each of the two groups by due date, the bills
    without a valid due date last. *)
Theorem sortedBills_order (today : Z) (bills : list (gmap string jsval)) :
  sortedBills today bills ≡ₚ bills
  /\ StronglySorted (mayPrecede today) (sortedBills today bills).
Proof.
  split; [apply sortWith_Permutation|].
  apply (sortWith_sorted_by _ (fun _ => True)); [| | |by apply Forall_true].
  - intros x y z _ _ _. unfold mayPrecede.
    destruct (isOverdue today x), (isOverdue today y), (isOverdue today z),
      (toDT (get x "Due_Date")), (toDT (get y "Due_Date")),
      (toDT (get z "Due_Date")); intros [?|[? ?]] [?|[? ?]];
      try lia; try done; right; split; try done; lia.
  - intros x y _ _. unfold goesAfter, mayPrecede.
    rewrite compareBills_groups.
    destruct (isOverdue today x), (isOverdue today y);
      rewrite ?ltb_zero_ofZ; try (intros ?; left; lia); try done;
      destruct (toDT (get x "Due_Date")), (toDT (get y "Due_Date"));
      rewrite ?ltb_zero_ofZ; try done; intros Hlt;
      try (apply Z.ltb_lt in Hlt); right; split; try done; lia.
  - intros x y _ _. unfold goesAfter, mayPrecede.
    rewrite compareBills_groups.
    destruct (isOverdue today x), (isOverdue today y);
      rewrite ?ltb_zero_ofZ; try (intros ?; left; lia); try done;
      destruct (toDT (get x "Due_Date")), (toDT (get y "Due_Date"));
      rewrite ?ltb_zero_ofZ; try done; intros Hlt;
      try (apply Z.ltb_ge in Hlt); right; split; try done; lia.
Qed.

End WithPlatform.

Example sortedBills_example :
  let late := {[ "Bill_Name" := VStr "Late"; "Due_Date" := VStr "2024-01-02";
                 "Status" := VStr "Pending" ]} : gmap string jsval in
  let soon := {[ "Bill_Name" := VStr "Soon"; "Due_Date" := VStr "2024-01-20";
                 "Status" := VStr "Pending" ]} : gmap string jsval in
  let paid := {[ "Bill_Name" := VStr "Paid"; "Due_Date" := VStr "2024-01-01";
                 "Status" := VStr "Paid" ]} : gmap string jsval in
  let undated := {[ "Bill_Name" := VStr "Undated"; "Status" := VStr "Pending" ]}
                 : gmap string jsval in
  sortedBills (L := Civil) (C := CodeUnits) ScopeClaims.midMorning
    [undated; soon; paid; late]
  = [late; paid; soon; undated].
Proof. by_evaluation. Qed.

(** *** The sort keys *)

Lemma updateFirst_twice {A} (p : A -> bool) (f g : A -> A) (l : list A) :
  (forall x, p x = true -> p (g x) = true) ->
  updateFirst p f (updateFirst p g l) = updateFirst p (fun x => f (g x)) l.
Proof.
  intros Hp. induction l as [|x l IH]; simpl; [done|].
  destruct (p x) eqn:Hx; simpl.
  - by rewrite Hp.
  - by rewrite Hx, IH.
Qed.

Lemma updateFirst_same {A} (p : A -> bool) (f : A -> A) (l : list A) :
  (forall x, find p l = Some x -> f x = x) -> updateFirst p f l = l.
Proof.
  induction l as [|x l IH]; simpl; [done|].
  destruct (p x) eqn:Hx; intros Hf.
  - by rewrite Hf.
  - by rewrite IH.
Qed.

Lemma existsb_updateFirst {A} (p : A -> bool) (f : A -> A) (l : list A) :
  (forall x, p x = true -> p (f x) = true) ->
  existsb p (updateFirst p f l) = existsb p l.
Proof.
  intros Hp. induction l as [|x l IH]; simpl; [done|].
  destruct (p x) eqn:Hx; simpl.
  - by rewrite Hp.
  - by rewrite Hx, IH.
Qed.

(** X15.  Two clicks on the header of a column that is a sort key, ascending or
    descending, leave the sort keys as they were; two clicks on a column
    that is none make it the only key, descending. *)
Theorem headerClick_twice (col : string) (sortKeys : list (string * string)) :
  (forall s : string * string,
     find (fun s => String.eqb s.1 col) sortKeys = Some s ->
     s.2 = "asc" \/ s.2 = "desc") ->
  headerClick col (headerClick col sortKeys)
  = (if existsb (fun s => String.eqb s.1 col) sortKeys then sortKeys
     else [(col, "desc")]).
Proof.
  intros Hdir. unfold headerClick at 2.
  destruct (existsb _ sortKeys) eqn:Hex.
  - unfold headerClick. rewrite existsb_updateFirst, Hex by done.
    rewrite updateFirst_twice by done. apply updateFirst_same.
    intros [k d] Hs. destruct (Hdir _ Hs) as [Hd|Hd]; simpl in *; by subst.
  - unfold headerClick. simpl. by rewrite String.eqb_refl.
Qed.

Lemma headerClick_twice_witness :
  headerClick "amount" (headerClick "amount" [("date", "asc"); ("amount", "desc")])
  = [("date", "asc"); ("amount", "desc")].
Proof.
  apply (headerClick_twice "amount" [("date", "asc"); ("amount", "desc")]).
  intros s [= <-]. by right.
Defined.

(** A direction that is neither of the two becomes ascending for good. *)
Example headerClick_other_direction :
  headerClick "amount" [("amount", "down")] = [("amount", "asc")]
  /\ headerClick "amount" (headerClick "amount" [("amount", "down")])
     = [("amount", "desc")].
Proof. split; reflexivity. Qed.

End TableFacts.

(** ** Quick actions on bills, composed *)

Module QuickActionFacts.
Import JsString JsNum JsVal Luxon App Views Forms BillFacts TableFacts.

Lemma withStore_same (st : state) : withStore (store st) st = st.
Proof. by destruct st. Qed.

Lemma setTab_bills (d : data) : setTab Bills (bills d) d = d.
Proof. by destruct d. Qed.

Section WithDates.
Context {L : DateLib}.

Lemma setPaid_not_overdue (now : Z) (todayIso : string) (b : gmap string jsval) :
  isOverdue now (setPaid todayIso b) = false.
Proof.
  unfold isOverdue, setPaid, get.
  by rewrite lookup_insert_ne, lookup_insert_eq.
Qed.

(** X17.  A bill that has been marked paid, by the quick action or by
    [markBillPaid], is not overdue, whatever its due date and at every
    later moment. *)
Theorem paid_not_overdue (id todayIso : string) (stamp stamp' now : Z)
  (ok : bool) (st : state) (i : nat) :
  (findIndex (hasId "Bill_ID" id) (bills (store st)) = Some i ->
   exists b' : gmap string jsval,
     bills (store (billsActionMarkPaid id todayIso st)) !! i = Some b'
     /\ isOverdue now b' = false)
  /\ (findIndex (isBill id) (bills (store st)) = Some i ->
      exists b' : gmap string jsval,
        bills (store (markBillPaid id todayIso stamp stamp' ok st)) !! i = Some b'
        /\ isOverdue now b' = false).
Proof.
  split; intros Hi.
  - simpl. rewrite updateFirst_lookup, Hi, bool_decide_eq_true_2 by done.
    destruct (bills (store st) !! i) as [b|] eqn:Hb.
    + exists (setPaid todayIso b). split; [done|]. apply setPaid_not_overdue.
    + exfalso. clear -Hi Hb. revert i Hi Hb.
      induction (bills (store st)) as [|x l IH]; intros i Hi Hb; [done|].
      simpl in Hi. destruct (hasId _ _ x).
      * by injection Hi as <-.
      * destruct (findIndex _ l) as [j|] eqn:Hj; [|done].
        injection Hi as <-. by apply (IH j).
  - unfold markBillPaid.
    assert (exists b, bills (store st) !! i = Some b
                      /\ find (isBill id) (bills (store st)) = Some b)
      as (b & Hb & Hfind).
    { clear -Hi. revert i Hi.
      induction (bills (store st)) as [|x l IH]; intros i Hi; [done|].
      simpl in *. destruct (isBill id x).
      - injection Hi as <-. by exists x.
      - destruct (findIndex _ l) as [j|] eqn:Hj; [|done].
        injection Hi as <-. by apply IH. }
    rewrite Hfind. cbn [store withStore bills setTab].
    rewrite updateFirst_lookup, Hi, bool_decide_eq_true_2, Hb by done.
    exists (setPaid todayIso b). split; [done|]. apply setPaid_not_overdue.
Qed.

End WithDates.

Lemma paid_not_overdue_witness :
  exists b' : gmap string jsval,
    bills (store (billsActionMarkPaid "3" "2024-03-01"
                    (MarkPaidClaims.billsOnly [ScopeClaims.dueToday])))
    !! 0%nat = Some b'
    /\ isOverdue (L := Civil) 1709287200000 b' = false.
Proof.
  destruct (paid_not_overdue (L := Civil) "3" "2024-03-01" 0 0 1709287200000
              false (MarkPaidClaims.billsOnly [ScopeClaims.dueToday]) 0%nat)
    as [H _].
  apply H. reflexivity.
Defined.

Lemma marks_overwrite (d : string) (b : gmap string jsval) :
  <["Paid_Date" := VStr ""]>
    (<["Status" := VStr "Pending"]>
       (<["Paid_Date" := VStr d]> (<["Status" := VStr "Paid"]> b)))
  = <["Paid_Date" := VStr ""]> (<["Status" := VStr "Pending"]> b)
  /\ <["Paid_Date" := VStr d]>
       (<["Status" := VStr "Paid"]>
          (<["Paid_Date" := VStr ""]> (<["Status" := VStr "Pending"]> b)))
     = <["Paid_Date" := VStr d]> (<["Status" := VStr "Paid"]> b).
Proof.
  split; apply map_eq; intros k;
    destruct (decide (k = "Paid_Date")), (decide (k = "Status")); subst;
    try done;
    by repeat (rewrite lookup_insert_eq || rewrite lookup_insert_ne by done).
Qed.

Lemma updateFirst_ext {A} (p : A -> bool) (f g : A -> A) (l : list A) :
  (forall x, f x = g x) -> updateFirst p f l = updateFirst p g l.
Proof.
  intros Hfg. induction l as [|x l IH]; simpl; [done|].
  by rewrite Hfg, IH.
Qed.

Lemma hasId_insert (key id k : string) (v : jsval) (b : gmap string jsval) :
  k ≠ key -> hasId key id (<[k := v]> b) = hasId key id b.
Proof. intros Hk. unfold hasId, get. by rewrite lookup_insert_ne. Qed.

(** A change of the list of bills and of nothing else. *)
Definition onBills (g : list (gmap string jsval) -> list (gmap string jsval))
  (st : state) : state :=
  withStore (setTab Bills (g (bills (store st))) (store st)) st.

Lemma onBills_onBills (g h : list (gmap string jsval) -> list (gmap string jsval))
  (st : state) :
  onBills g (onBills h st) = onBills (fun l => g (h l)) st.
Proof. by destruct st as [[]]. Qed.

(** X18.  Marking a bill unpaid after marking it paid leaves the same state as
    marking it unpaid at once, and the other way round: the later action
    decides the status and the paid date, and the status that the bill had
    before either of them is not brought back. *)
Theorem mark_unpaid_after_paid (id todayIso : string) (st : state) :
  billsActionMarkUnpaid id (billsActionMarkPaid id todayIso st)
  = billsActionMarkUnpaid id st
  /\ billsActionMarkPaid id todayIso (billsActionMarkUnpaid id st)
     = billsActionMarkPaid id todayIso st.
Proof.
  change (billsActionMarkUnpaid id) with
    (onBills (updateFirst (hasId "Bill_ID" id)
                (fun b => <["Paid_Date" := VStr ""]>
                            (<["Status" := VStr "Pending"]> b)))).
  change (billsActionMarkPaid id todayIso) with
    (onBills (updateFirst (hasId "Bill_ID" id)
                (fun b => <["Paid_Date" := VStr todayIso]>
                            (<["Status" := VStr "Paid"]> b)))).
  rewrite !onBills_onBills. unfold onBills. cbn beta.
  rewrite !updateFirst_twice by (intros x Hx; by rewrite !hasId_insert).
  split; do 2 f_equal; apply updateFirst_ext; intros x; apply marks_overwrite.
Qed.

Lemma mark_unpaid_after_paid_example :
  let st := MarkPaidClaims.billsOnly
              [ <["Status" := VStr "Overdue"]> MarkPaidClaims.rent ] in
  bills (store (billsActionMarkUnpaid "1" (billsActionMarkPaid "1" "2024-01-15" st)))
  = [ <["Status" := VStr "Pending"]> MarkPaidClaims.rent ].
Proof. by_evaluation. Qed.

Lemma onBills_id (st : state) : onBills (fun l => l) st = st.
Proof. by destruct st as [[]]. Qed.

(** X19.  Toggling the automatic payment of a bill twice leaves the state as it
    was, when the status of the bill is [Pending] or [Auto-Paid]. *)
Theorem toggle_twice (id : string) (st : state) :
  (forall b : gmap string jsval,
     find (hasId "Bill_ID" id) (bills (store st)) = Some b ->
     b !! "Status" = Some (VStr "Pending")
     \/ b !! "Status" = Some (VStr "Auto-Paid")) ->
  billsActionToggleAutoPaid id (billsActionToggleAutoPaid id st) = st.
Proof.
  intros Hstatus.
  change (billsActionToggleAutoPaid id) with
    (onBills (updateFirst (hasId "Bill_ID" id)
                (fun b => <["Status" := VStr (toggledStatus b)]> b))).
  rewrite onBills_onBills. rewrite <- (onBills_id st) at 2.
  unfold onBills. do 2 f_equal.
  rewrite updateFirst_twice by (intros x Hx; by rewrite hasId_insert).
  apply updateFirst_same. intros b Hb.
  destruct (Hstatus b Hb) as [Hs|Hs].
  - assert (toggledStatus b = "Auto-Paid") as ->.
    { unfold toggledStatus, get. by rewrite Hs. }
    assert (toggledStatus (<["Status" := VStr "Auto-Paid"]> b) = "Pending") as ->.
    { unfold toggledStatus, get. by rewrite lookup_insert_eq. }
    rewrite insert_insert_eq. by apply insert_id.
  - assert (toggledStatus b = "Pending") as ->.
    { unfold toggledStatus, get. by rewrite Hs. }
    assert (toggledStatus (<["Status" := VStr "Pending"]> b) = "Auto-Paid") as ->.
    { unfold toggledStatus, get. by rewrite lookup_insert_eq. }
    rewrite insert_insert_eq. by apply insert_id.
Qed.

Lemma toggle_twice_witness :
  billsActionToggleAutoPaid "1"
    (billsActionToggleAutoPaid "1" (MarkPaidClaims.billsOnly [MarkPaidClaims.rent]))
  = MarkPaidClaims.billsOnly [MarkPaidClaims.rent].
Proof.
  apply toggle_twice. intros b [= <-]. left. reflexivity.
Defined.

(** Any other status is lost: an overdue bill is pending after two
    toggles. *)
Example toggle_twice_overdue :
  let st := MarkPaidClaims.billsOnly
              [ <["Status" := VStr "Overdue"]> MarkPaidClaims.rent ] in
  bills (store (billsActionToggleAutoPaid "1" (billsActionToggleAutoPaid "1" st)))
  = [ <["Status" := VStr "Pending"]> MarkPaidClaims.rent ].
Proof. by_evaluation. Qed.

(** X20.  The quick action that deletes a bill looks for the bill by its [id]
    field: bills that have none, as those read from the bills file with its
    [Bill_ID] column, all stay, whichever row is clicked. *)
Theorem delete_needs_id (id : string) (ok : bool) (st : state) :
  id ≠ "undefined" ->
  Forall (fun b => b !! "id" = None) (bills (store st)) ->
  billsActionDelete id ok st = st.
Proof.
  intros Hid Hall. unfold billsActionDelete, deleteBill. destruct ok; [|done].
  rewrite CsvRoundTrip.filter_all.
  - rewrite setTab_bills. apply withStore_same.
  - eapply Forall_impl; [exact Hall|]. intros b Hb.
    unfold hasId, get. rewrite Hb. cbn [default JsVal.toString].
    apply String.eqb_neq. congruence.
Qed.

Lemma delete_needs_id_witness :
  billsActionDelete "1" true (MarkPaidClaims.billsOnly [MarkPaidClaims.rent])
  = MarkPaidClaims.billsOnly [MarkPaidClaims.rent].
Proof. apply delete_needs_id; [done|by_evaluation]. Defined.

End QuickActionFacts.

(** ** Escaping *)

Module EscapeFacts.
Import JsString Forms StringFacts.

(** The characters that open or close a tag, or close an attribute value
    in double quotes. *)
Definition markup (d : ascii) : Prop :=
  d = "<"%char \/ d = ">"%char \/ d = quote.

Lemma markup_special (d : ascii) : markup d -> special d = true.
Proof. by intros [->|[->| ->]]. Qed.

Lemma replacement_lacks (d : ascii) (run : string) :
  markup d -> lacks d (replacement run).
Proof.
  intros Hd. destruct run as [|c [|c' r]]; [done| |].
  - unfold replacement, entity.
    destruct (Ascii.eqb c "&"), (Ascii.eqb c "<"), (Ascii.eqb c ">");
      destruct Hd as [->|[->| ->]]; by_evaluation.
  - destruct Hd as [->|[->| ->]]; by_evaluation.
Qed.

Lemma escapeHtmlFrom_lacks (d : ascii) (s run : string) :
  markup d -> lacks d (escapeHtmlFrom run s).
Proof.
  intros Hd. revert run. induction s as [|a s IH]; intros run; simpl.
  - by apply replacement_lacks.
  - destruct (special a) eqn:Ha; [apply IH|].
    apply lacks_append. split; [by apply replacement_lacks|].
    split; [|apply IH]. intros ->. apply markup_special in Hd. congruence.
Qed.

(** X21.  The escaped text holds no angle bracket and no double quote, whatever
    the text was. *)
Theorem escapeHtml_no_markup (s : string) :
  lacks "<" (escapeHtml s) /\ lacks ">" (escapeHtml s)
  /\ lacks quote (escapeHtml s).
Proof.
  repeat split; apply escapeHtmlFrom_lacks; unfold markup; auto.
Qed.

(** No two special characters stand side by side. *)
Fixpoint spaced (s : string) : Prop :=
  match s with
  | String a r =>
      match r with
      | String b _ => (special a = true -> special b = false) /\ spaced r
      | EmptyString => True
      end
  | EmptyString => True
  end.

(** Each special character replaced by its entity. *)
Fixpoint escapeEach (s : string) : string :=
  match s with
  | String c r =>
      ((if special c then entity c else String c EmptyString) ++ escapeEach r)%string
  | EmptyString => EmptyString
  end.

Lemma escapeHtmlFrom_spaced (s : string) :
  spaced s ->
  escapeHtmlFrom "" s = escapeEach s
  /\ forall c0 : ascii,
       match s with String b _ => special b = false | EmptyString => True end ->
       escapeHtmlFrom (String c0 "") s = (entity c0 ++ escapeEach s)%string.
Proof.
  induction s as [|a s IH]; intros Hs.
  - split; [done|]. intros c0 _. simpl. by rewrite append_nil_r.
  - assert (spaced s) as Hs'.
    { simpl in Hs. destruct s; [done|]. apply Hs. }
    destruct (IH Hs') as [IH1 IH2]. split.
    + cbn [escapeHtmlFrom escapeEach]. destruct (special a) eqn:Ha.
      * rewrite append_nil_l. apply IH2.
        simpl in Hs. destruct s; [done|]. by apply Hs.
      * by rewrite IH1.
    + intros c0 Ha. cbn [escapeHtmlFrom escapeEach]. rewrite Ha.
      by rewrite IH1.
Qed.

(** X22.  When no two special characters stand side by side, each of them is
    replaced by its entity and the rest of the text stays.  (A run of two
    or more is replaced by the word [undefined].) *)
Theorem escapeHtml_spaced (s : string) :
  spaced s -> escapeHtml s = escapeEach s.
Proof. intros Hs. by apply escapeHtmlFrom_spaced. Qed.

Lemma escapeHtml_spaced_witness :
  escapeHtml "a<b & c" = escapeEach "a<b & c".
Proof. apply escapeHtml_spaced. by_evaluation. Defined.

End EscapeFacts.

(** ** Reading CSV files *)

Module ParseFacts.
Import JsString JsNum JsVal Csv App Forms StringFacts CsvFacts CsvRoundTrip.
Import NumberText.

Lemma fillRow_lookup_Some (headers values : list string)
  (obj : gmap string jsval) (k : string) (v : jsval) :
  fillRow headers values obj !! k = Some v ->
  (k ∈ headers /\ k ≠ protoKey
   /\ exists raw : string, trim raw = raw /\ v = parseCell k raw)
  \/ obj !! k = Some v.
Proof.
  revert values obj. induction headers as [|h hs IH]; intros values obj Hk.
  - by right.
  - simpl in Hk. apply IH in Hk as [(Hin & Hplain & Hraw)|Hobj].
    + left. split; [by right|done].
    + unfold setField in Hobj.
      destruct (String.eqb_spec h protoKey) as [Hproto|Hplain]; [by right|].
      destruct (decide (k = h)) as [->|Hne].
      * rewrite lookup_insert_eq in Hobj. injection Hobj as <-.
        left. split; [by left|]. split; [done|]. eexists. split; [|done].
        destruct values; [done|apply trim_idem].
      * rewrite lookup_insert_ne in Hobj by done. by right.
Qed.

Lemma fillRow_is_Some (headers values : list string)
  (obj : gmap string jsval) (k : string) :
  k ∈ headers -> k ≠ protoKey -> is_Some (fillRow headers values obj !! k).
Proof.
  revert values obj.
  induction headers as [|h hs IH]; intros values obj Hk Hplain.
  - by apply elem_of_nil in Hk.
  - simpl. destruct (decide (k ∈ hs)) as [Hin|Hnot]; [by apply IH|].
    apply elem_of_cons in Hk as [->|?]; [|done].
    rewrite fillRow_lookup_notin by done. by rewrite setField_lookup.
Qed.

(** X8.  The records that [parseCSV] returns: one for each line after the
    header that is not blank; each has the columns of the header and no
    other, also when its line has fewer or more cells, but for a column
    named [__proto__], which no record has; a value is a text without
    blanks around it, or, in a column whose name holds [amount] or
    [utilization], a number that is not [NaN]. *)
Theorem parseCSV_shape (text : string) :
  length (parseCSV text) = pred (length (csvLines text))
  /\ forall r : gmap string jsval,
       r ∈ parseCSV text ->
       exists (h : string) (rows : list string),
         csvLines text = h :: rows
         /\ (forall k : string,
               is_Some (r !! k) <-> k ∈ csvHeaders h /\ k ≠ protoKey)
         /\ forall (k : string) (v : jsval),
              r !! k = Some v ->
              (exists s : string, v = VStr s /\ trim s = s)
              \/ (exists n : jsnum,
                    v = VNum n /\ n ≠ NaN /\ numericHeader k = true).
Proof.
  unfold parseCSV. destruct (String.eqb_spec text "") as [->|Hne].
  { split; [done|]. intros r Hr. by apply elem_of_nil in Hr. }
  destruct (csvLines text) as [|h rows].
  { split; [done|]. intros r Hr. by apply elem_of_nil in Hr. }
  split; [by rewrite length_map|].
  intros r Hr. exists h, rows. split; [done|].
  change (map ?f rows) with (f <$> rows) in Hr.
  apply list_elem_of_fmap in Hr as (line & -> & _). unfold parseRow. split.
  - intros k. split.
    + intros [v Hv].
      apply fillRow_lookup_Some in Hv as [(? & ? & _)|Hv]; [done|].
      by rewrite lookup_empty in Hv.
    + intros [Hk Hplain]. by apply fillRow_is_Some.
  - intros k v Hv.
    apply fillRow_lookup_Some in Hv as [(_ & _ & raw & Hraw & ->)|Hv].
    + destruct (parseCell_cases k raw) as [->|(Hnum & _ & Hnan & ->)].
      * left. by exists raw.
      * right. by exists (JsConv.ofString raw).
    + by rewrite lookup_empty in Hv.
Qed.

Lemma parseCSV_shape_witness :
  exists (h : string) (rows : list string),
    csvLines ("id,amount" ++ newline ++ "7")%string = h :: rows
    /\ forall k : string,
         is_Some (({[ "id" := VStr "7"; "amount" := VStr "" ]} : gmap string jsval) !! k)
         <-> k ∈ csvHeaders h /\ k ≠ protoKey.
Proof.
  destruct (parseCSV_shape ("id,amount" ++ newline ++ "7")%string) as [_ H].
  destruct (H {[ "id" := VStr "7"; "amount" := VStr "" ]})
    as (h & rows & Hlines & Hkeys & _); [by_evaluation|].
  by exists h, rows.
Defined.

(** A column named [__proto__] is left out of every record. *)
Example parseCSV_proto_column :
  parseCSV ("id,__proto__,amount" ++ newline ++ "7,x,5")%string
  = [ {[ "id" := VStr "7"; "amount" := VNum (ofZ 5) ]} ].
Proof. by_evaluation. Qed.

(** *** Line ends *)

Definition CRLF : string := String CR (String LF EmptyString).

Lemma splitLines_append_crlf (l rest : string) :
  lacks LF l -> endsSolid l ->
  splitLines (l ++ CRLF ++ rest) = l :: splitLines rest.
Proof.
  induction l as [|c l IH]; [done|]. intros [Hc Hl] Hsolid.
  rewrite append_cons. cbn [splitLines].
  rewrite (IH Hl (endsSolid_tail _ _ Hsolid)).
  apply Ascii.eqb_neq in Hc as ->.
  destruct (Ascii.eqb_spec c CR) as [->|_]; [|done].
  destruct l as [|c' l].
  - by apply endsSolid_not_ws in Hsolid.
  - rewrite append_cons. destruct Hl as [Hc' _].
    by apply Ascii.eqb_neq in Hc' as ->.
Qed.

Lemma splitLines_join_crlf (ls : list string) :
  ls ≠ [] -> Forall (fun l => lacks LF l /\ endsSolid l) ls ->
  splitLines (join CRLF ls) = ls.
Proof.
  intros Hne Hall. induction Hall as [|l ls [Hl Hs] Hls IH]; [done|].
  destruct ls as [|g ls]; [by apply splitLines_lacking|].
  rewrite join_cons2, splitLines_append_crlf by done. by rewrite IH.
Qed.

(** A line as it stands in a tidy file: not empty, no blanks around it and
    no line feed in it. *)
Definition tidy (l : string) : Prop := trim l = l /\ l ≠ "" /\ lacks LF l.

Lemma join_tidy (sep : string) (ls : list string) :
  ls ≠ [] -> Forall tidy ls ->
  startsSolid (join sep ls) /\ endsSolid (join sep ls) /\ join sep ls ≠ "".
Proof.
  intros Hne Hall. induction Hall as [|l ls (Htrim & Hl & _) Hls IH]; [done|].
  destruct (trim_fixed_parts l Htrim) as [Hstart Hend].
  destruct ls as [|g ls]; [done|].
  destruct IH as (_ & IHend & IHne); [done|]. rewrite join_cons2.
  destruct (startsSolid_append l (sep ++ join sep (g :: ls)) Hstart Hl)
    as [? ?].
  split; [done|]. split; [|done].
  rewrite <- append_assoc. by apply endsSolid_append.
Qed.

Lemma csvLines_tidy (sep : string) (ls : list string) :
  ls ≠ [] -> Forall tidy ls -> splitLines (join sep ls) = ls ->
  csvLines (join sep ls) = ls /\ join sep ls ≠ "".
Proof.
  intros Hne Hall Hsplit.
  destruct (join_tidy sep ls Hne Hall) as (Hstart & Hend & Hnonempty).
  split; [|done]. unfold csvLines. rewrite trim_solid, Hsplit by done.
  apply filter_all. eapply Forall_impl; [exact Hall|].
  intros l (Htrim & Hl & _). unfold nonblank. rewrite Htrim.
  by apply String.eqb_neq in Hl as ->.
Qed.

Lemma csvLines_newline (ls : list string) :
  ls ≠ [] -> Forall tidy ls ->
  csvLines (join newline ls ++ newline) = ls
  /\ (join newline ls ++ newline)%string ≠ "".
Proof.
  intros Hne Hall.
  assert (Forall (fun l => lacks LF l /\ endsSolid l) ls) as Hsolid.
  { eapply Forall_impl; [exact Hall|]. intros l (Htrim & _ & Hl).
    split; [done|]. by apply trim_fixed_parts. }
  destruct (csvLines_tidy newline ls Hne Hall) as [Hlf Hlf'];
    [by apply splitLines_join|].
  destruct (join_tidy newline ls Hne Hall) as (Hstart & Hend & Hnonempty).
  split.
  - unfold csvLines in *.
    assert (trim (join newline ls ++ newline) = trim (join newline ls)) as ->.
    { unfold trim. rewrite !startsSolid_trimStart; [|done|].
      - rewrite trimEnd_newline. by rewrite Hend.
      - by apply startsSolid_append. }
    done.
  - destruct (join newline ls); [done|]. by rewrite append_cons.
Qed.

(** X9.  A text whose lines end in CR LF reads as the text with LF alone, and a
    line feed after the last line changes nothing. *)
Theorem parseCSV_line_ends (ls : list string) :
  ls ≠ [] -> Forall tidy ls ->
  parseCSV (join CRLF ls) = parseCSV (join newline ls)
  /\ parseCSV (join newline ls ++ newline) = parseCSV (join newline ls).
Proof.
  intros Hne Hall.
  assert (Forall (fun l => lacks LF l /\ endsSolid l) ls) as Hsolid.
  { eapply Forall_impl; [exact Hall|]. intros l (Htrim & _ & Hl).
    split; [done|]. by apply trim_fixed_parts. }
  destruct (csvLines_tidy CRLF ls Hne Hall) as [Hcr Hcr'];
    [by apply splitLines_join_crlf|].
  destruct (csvLines_tidy newline ls Hne Hall) as [Hlf Hlf'];
    [by apply splitLines_join|].
  assert (csvLines (join newline ls ++ newline) = ls) as Hnl.
  { unfold csvLines in *.
    destruct (join_tidy newline ls Hne Hall) as (Hstart & Hend & Hnonempty).
    assert (trim (join newline ls ++ newline) = trim (join newline ls)) as ->.
    { unfold trim. rewrite !startsSolid_trimStart; [|done|].
      - rewrite trimEnd_newline. by rewrite Hend.
      - by apply startsSolid_append. }
    done. }
  unfold parseCSV. rewrite Hcr, Hlf, Hnl.
  apply String.eqb_neq in Hcr' as ->. apply String.eqb_neq in Hlf' as Hlf''.
  rewrite Hlf''.
  assert (String.eqb (join newline ls ++ newline) "" = false) as ->.
  { apply String.eqb_neq. destruct (join newline ls); [done|].
    by rewrite append_cons. }
  done.
Qed.

Lemma parseCSV_line_ends_witness :
  parseCSV (join CRLF ["id,amount"; "7,12.50"; "8,3"])
  = parseCSV (join newline ["id,amount"; "7,12.50"; "8,3"]).
Proof.
  apply (parseCSV_line_ends ["id,amount"; "7,12.50"; "8,3"]); [done|].
  repeat constructor; by_evaluation.
Defined.

(** *** Importing a file *)

Lemma ofZ_dec (z : Z) : ofZ z = Fin (JsConv.dec z 0).
Proof. done. Qed.

(** Whole numbers print to different texts. *)
Lemma toString_ofZ_inj (a b : Z) :
  JsConv.toString (ofZ a) = JsConv.toString (ofZ b) -> a = b.
Proof.
  intros Heq. apply (f_equal JsConv.ofString) in Heq.
  rewrite !ofZ_dec in Heq.
  destruct (printable_dec a 0) as [Ha _], (printable_dec b 0) as [Hb _].
  rewrite Ha, Hb in Heq. injection Heq as Heq.
  apply Qred_eq_iff in Heq. unfold Qeq in Heq. simpl in Heq. lia.
Qed.

Lemma append_inj_r (a b c : string) : (a ++ b)%string = (a ++ c)%string -> b = c.
Proof.
  induction a as [|x a IH]; [done|]. rewrite !append_cons. intros [= H].
  by apply IH.
Qed.

Lemma rowId_inj (timestamp : Z) (i j : nat) :
  rowId timestamp i = rowId timestamp j -> i = j.
Proof.
  unfold rowId. intros Heq. apply append_inj_r, append_inj_r in Heq.
  apply toString_ofZ_inj in Heq. lia.
Qed.

(** X7.  What an import stores.  The collection of the tab is replaced by the
    records read from the file, in their order; a record that has an [id]
    column is stored as it was read, also when its id is blank; a record
    without one is given the time of the import and its position as id,
    and such ids differ from row to row.  The other collections and the
    undo history stay as they are: an import cannot be undone. *)
Theorem importCSV_stores (t : tab) (text : string) (timestamp : Z) (st : state) :
  let st' := importCSV t text timestamp st in
  undoStack st' = undoStack st
  /\ (forall t' : tab, t' ≠ t -> getTab t' (store st') = getTab t' (store st))
  /\ length (getTab t (store st')) = length (parseCSV text)
  /\ (forall (idx : nat) (row : gmap string jsval),
        parseCSV text !! idx = Some row ->
        exists row' : gmap string jsval,
          getTab t (store st') !! idx = Some row'
          /\ (forall k : string, k ≠ "id" -> row' !! k = row !! k)
          /\ (is_Some (row !! "id") -> row' = row)
          /\ (row !! "id" = None ->
              row' !! "id" = Some (VStr (rowId timestamp idx))))
  /\ (forall i j : nat, rowId timestamp i = rowId timestamp j -> i = j).
Proof.
  intros st'.
  assert (undoStack st' = undoStack st
          /\ store st'
             = setTab t (imap (withRowId timestamp) (parseCSV text)) (store st))
    as [Hstack ->].
  { unfold st', importCSV. by destruct (saved t). }
  split; [done|]. split.
  { intros t' Hne. by rewrite UndoFacts.setTab_getTab_ne. }
  rewrite UndoFacts.setTab_getTab. split; [apply length_imap|].
  split; [|apply rowId_inj].
  intros idx row Hrow. rewrite list_lookup_imap, Hrow. simpl.
  eexists. split; [done|]. unfold withRowId, hasOwnId.
  destruct (row !! "id") as [v|] eqn:Hid.
  - assert (row ∪ {[ "id" := VStr (rowId timestamp idx) ]} = row) as Hsame.
    { apply map_eq. intros k. rewrite lookup_union.
      destruct (decide (k = "id")) as [->|Hne].
      - by rewrite Hid, lookup_singleton_eq.
      - rewrite lookup_singleton_ne by done. by destruct (row !! k). }
    destruct (negb _); rewrite ?Hsame; by rewrite ?Hid.
  - split; [|split; [by intros []|]].
    + intros k Hne. rewrite lookup_union, lookup_singleton_ne by done.
      by destruct (row !! k).
    + intros _. by rewrite lookup_union, Hid, lookup_singleton_eq.
Qed.

Lemma importCSV_stores_witness :
  exists row' : gmap string jsval,
    income (store (importCSV Income ("source,amount" ++ newline ++ "Gift,25")
                     1705312800000 (UndoClaims.storeOf [])))
    !! 0%nat = Some row'
    /\ row' !! "id" = Some (VStr "1705312800000_0").
Proof.
  destruct (importCSV_stores Income ("source,amount" ++ newline ++ "Gift,25")
              1705312800000 (UndoClaims.storeOf []))
    as (_ & _ & _ & H & _).
  destruct (H 0%nat {[ "source" := VStr "Gift"; "amount" := VNum (ofZ 25) ]})
    as (row' & Hrow & _ & _ & Hid); [by_evaluation|].
  exists row'. split; [exact Hrow|]. by apply Hid.
Defined.

(** A blank id is kept, so the record cannot be told apart by its id. *)
Example importCSV_blank_id :
  income (store (importCSV Income ("id,source" ++ newline ++ ",Gift")
                   1705312800000 (UndoClaims.storeOf [])))
  = [ {[ "id" := VStr ""; "source" := VStr "Gift" ]} ].
Proof. by_evaluation. Qed.

End ParseFacts.

(** ** The transactions file *)

Module TransactionsFacts.
Import JsString JsNum JsVal Csv TransactionsCsv StringFacts CsvFacts.
Import CsvRoundTrip NumberText ParseFacts.

Section Columns.
Variable cols : list string.
Hypothesis cols_distinct : NoDup cols.
Hypothesis cols_plain : protoKey ∉ cols.

(** A record as [parseCSV] builds it from a text with the columns [cols]:
    each column holds the value of a clean cell, and there are no other
    properties. *)
Definition rowOf (r : gmap string jsval) : Prop :=
  forall k : string,
    if decide (k ∈ cols)
    then exists raw : string, clean raw /\ r !! k = Some (parseCell k raw)
    else r !! k = None.

(** The line that a template with one field for each column prints. *)
Definition lineOf (r : gmap string jsval) : string :=
  join "," (map (fun k => JsVal.toString (get r k)) cols).

Lemma parseRow_rowOf (headers : list string) (line : string) :
  headers ≡ₚ cols -> lacks LF line -> rowOf (parseRow headers line).
Proof.
  intros Hperm Hline k. unfold parseRow.
  assert (NoDup headers) as Hdup by (by rewrite Hperm).
  destruct (decide (k ∈ cols)) as [Hk|Hk].
  - assert (k ≠ protoKey) as Hplain by (by intros ->).
    rewrite <- Hperm in Hk.
    destruct (fillRow_lookup_in headers (split "," line) ∅ k Hdup Hk Hplain)
      as (v & Hv & ->).
    exists (trim v). split; [|done]. destruct Hv as [Hv| ->]; [|by_evaluation].
    apply clean_trim.
    + pose proof (split_lacks "," "," line (or_introl eq_refl)) as Hall.
      by eapply Forall_forall in Hall.
    + pose proof (split_lacks "," LF line (or_intror Hline)) as Hall.
      by eapply Forall_forall in Hall.
  - rewrite <- Hperm in Hk. by rewrite fillRow_lookup_notin.
Qed.

Lemma rowOf_printable (r : gmap string jsval) : rowOf r -> printableRecord r.
Proof.
  intros Hr k n Hk. specialize (Hr k).
  destruct (decide (k ∈ cols)); [|congruence].
  destruct Hr as (raw & _ & Hraw). rewrite Hraw in Hk.
  destruct (parseCell_cases k raw) as [Hs|(_ & _ & Hnan & Hn)]; [congruence|].
  rewrite Hn in Hk. injection Hk as <-. by apply ofString_printable.
Qed.

(** What the template writes for a column is a clean cell that reads back
    as the value the record holds. *)
Lemma field_reads_back (r : gmap string jsval) (k : string) :
  rowOf r -> k ∈ cols ->
  clean (JsVal.toString (get r k))
  /\ Some (parseCell k (JsVal.toString (get r k))) = r !! k.
Proof.
  intros Hr Hk. pose proof (rowOf_printable r Hr) as Hprint.
  specialize (Hr k). rewrite decide_True in Hr by done.
  destruct Hr as (raw & Hraw & Hlook). unfold get. rewrite Hlook. simpl.
  destruct (parseCell_cases k raw) as [Hs|(Hnum & Hne & Hnan & Hn)].
  - rewrite Hs. simpl. by rewrite Hs.
  - rewrite Hn in *. simpl.
    destruct (Hprint k _ Hlook) as (Hread & Hclean & Hnonempty).
    split; [done|]. by rewrite parseCell_number.
Qed.

Lemma parseRow_lineOf (r : gmap string jsval) :
  cols ≠ [] -> rowOf r -> parseRow cols (lineOf r) = r.
Proof.
  intros Hne Hr. unfold parseRow, lineOf.
  rewrite split_join.
  - apply map_eq. intros k. destruct (decide (k ∈ cols)) as [Hk|Hk].
    + rewrite fillRow_map by (done || by intros ->).
      destruct (field_reads_back r k Hr Hk) as [(Htrim & _) <-].
      by rewrite Htrim.
    + rewrite fillRow_lookup_notin by done. specialize (Hr k).
      by rewrite decide_False in Hr.
  - by destruct cols.
  - apply Forall_fmap, Forall_forall. intros k Hk.
    by destruct (field_reads_back r k Hr Hk) as [(_ & ? & _) _].
Qed.

Lemma lineOf_tidy (r : gmap string jsval) :
  (2 <= length cols)%nat -> rowOf r -> tidy (lineOf r).
Proof.
  intros Hlen Hr.
  assert (Forall clean (map (fun k => JsVal.toString (get r k)) cols)) as Hclean.
  { apply Forall_fmap, Forall_forall. intros k Hk.
    by destruct (field_reads_back r k Hr Hk). }
  unfold lineOf. destruct cols as [|c1 [|c2 rest]]; simpl in Hlen; [lia..|].
  cbn [map] in *.
  assert (is_ws "," = false) as Hsep by done.
  apply Forall_cons in Hclean as [(Hf & _ & Hlf) Hrest].
  destruct (join_fields_starts "," (JsVal.toString (get r c1))
              (JsVal.toString (get r c2))
              (map (fun k => JsVal.toString (get r k)) rest) Hsep)
    as [Hstart Hnonempty]; [by apply trim_fixed_parts|].
  split; [|split; [done|]].
  - apply trim_solid; [done|]. apply join_fields_solid; [done|].
    constructor; [by apply trim_fixed_parts|].
    eapply Forall_impl; [exact Hrest|]. intros f (? & _).
    by apply trim_fixed_parts.
  - apply lacks_join; [done|]. constructor; [done|].
    eapply Forall_impl; [exact Hrest|]. by intros f (_ & _ & ?).
Qed.

(** The lines after the header, each closed by a line feed. *)
Fixpoint linesOf (rows : list (gmap string jsval)) : string :=
  match rows with
  | [] => ""
  | r :: rest => (lineOf r ++ newline ++ linesOf rest)%string
  end.

Lemma lines_loop (rows : list (gmap string jsval)) (csv : string) :
  fold_left (fun csv t => (csv ++ lineOf t ++ newline)%string) rows csv
  = (csv ++ linesOf rows)%string.
Proof.
  revert csv. induction rows as [|r rest IH]; intros csv; simpl.
  - by rewrite append_nil_r.
  - by rewrite IH, !append_assoc.
Qed.

Lemma lines_join (l : string) (rows : list (gmap string jsval)) :
  (join newline (l :: (lineOf <$> rows)) ++ newline)%string
  = (l ++ newline ++ linesOf rows)%string.
Proof.
  revert l. induction rows as [|r rest IH]; intros l.
  - simpl. by rewrite append_nil_r.
  - cbn [fmap list_fmap linesOf]. rewrite join_cons2, !append_assoc.
    by rewrite <- IH.
Qed.

(** Reading what the template writes under the header line gives the
    records back. *)
Lemma parse_written (rows : list (gmap string jsval)) :
  (2 <= length cols)%nat -> tidy (join "," cols) ->
  csvHeaders (join "," cols) = cols ->
  Forall rowOf rows ->
  parseCSV (fold_left (fun csv t => (csv ++ lineOf t ++ newline)%string) rows
              (join "," cols ++ newline)%string)
  = rows.
Proof.
  intros Hlen Hhead Hcols Hrows.
  rewrite lines_loop, append_assoc, <- lines_join.
  assert (Forall tidy (join "," cols :: (lineOf <$> rows))) as Htidy.
  { constructor; [done|]. apply Forall_fmap.
    eapply Forall_impl; [exact Hrows|]. intros r Hr. by apply lineOf_tidy. }
  destruct (csvLines_newline (join "," cols :: (lineOf <$> rows)))
    as [Hlines Hne]; [done|done|].
  unfold parseCSV. rewrite Hlines. apply String.eqb_neq in Hne as ->.
  rewrite Hcols. clear Htidy Hlines.
  induction Hrows as [|r rest Hr _ IH]; [done|].
  cbn [fmap list_fmap map]. rewrite parseRow_lineOf; [|by destruct cols|done].
  f_equal. exact IH.
Qed.

End Columns.

(** The header of a text names the columns of the transactions file, in
    any order. *)
Definition transactionsHeader (text : string) : Prop :=
  match csvLines text with
  | h :: _ => csvHeaders h ≡ₚ transactionColumns
  | [] => True
  end.

(** X10.  The records read from a transactions file are written by
    [saveTransactionsToCSV] to a text that reads back as the same
    records. *)
Theorem transactions_round_trip (text : string) :
  transactionsHeader text ->
  parseCSV (transactionsCSV (parseCSV text)) = parseCSV text.
Proof.
  intros Hhead. unfold transactionsCSV.
  change transactionLine with (lineOf transactionColumns).
  apply (parse_written transactionColumns).
  - by_evaluation.
  - by_evaluation.
  - simpl. lia.
  - repeat split; by_evaluation.
  - reflexivity.
  - unfold transactionsHeader, parseCSV in *.
    destruct (String.eqb text ""); [done|].
    pose proof (csvLines_lack text) as Hlack.
    destruct (csvLines text) as [|h rows]; [done|].
    apply Forall_cons in Hlack as [_ Hrows].
    apply Forall_fmap. eapply Forall_impl; [exact Hrows|].
    intros line Hline.
    apply parseRow_rowOf; [by_evaluation|by_evaluation|done|done].
Qed.

Definition sampleTransactions : string :=
  ("date, id ,description,category,amount,status" ++ CRLF
   ++ "2024-01-03,2,Groceries,Food, -40.50 ,Paid" ++ CRLF ++ CRLF
   ++ "2024-01-10,3,Fuel" ++ CRLF)%string.

Lemma transactions_round_trip_witness :
  transactionsHeader sampleTransactions
  /\ parseCSV (transactionsCSV (parseCSV sampleTransactions))
     = parseCSV sampleTransactions.
Proof.
  assert (transactionsHeader sampleTransactions) as Hhead by by_evaluation.
  split; [exact Hhead|]. exact (transactions_round_trip sampleTransactions Hhead).
Defined.

Example sampleTransactions_written :
  transactionsCSV (parseCSV sampleTransactions)
  = ("id,date,description,category,amount,status" ++ newline
     ++ "2,2024-01-03,Groceries,Food,-40.5,Paid" ++ newline
     ++ "3,2024-01-10,Fuel,,," ++ newline)%string.
Proof. by_evaluation. Qed.

(** A transaction that [markBillPaid] has made holds a number as id; the
    file gives the id back as a text.  A record that lacks a field is
    written with the word [undefined] in its place. *)
Example payment_written_and_read :
  let tx : gmap string jsval :=
    {[ "id" := VNum (ofZ 1705312800000); "date" := VStr "2024-01-01";
       "description" := VStr "Rent"; "category" := VStr "Bills";
       "amount" := VNum (ofZ (-1200)); "status" := VStr "Paid" ]} in
  parseCSV (transactionsCSV [tx]) = [ <["id" := VStr "1705312800000"]> tx ]
  /\ transactionsCSV [ {[ "id" := VStr "9"; "amount" := VNum (ofZ 5) ]} ]
     = ("id,date,description,category,amount,status" ++ newline
        ++ "9,undefined,undefined,undefined,5,undefined" ++ newline)%string.
Proof. split; by_evaluation. Qed.

End TransactionsFacts.

(** ** Quick actions and the bills file *)

Module PersistFacts.
Import JsString JsNum JsVal Csv App Forms StringFacts CsvFacts CsvRoundTrip.
Import FormFacts.

(** Setting a column that is not read as a number to a clean text keeps a
    record of the bills file well formed. *)
Lemma wellFormed_insert (k s : string) (r : gmap string jsval) :
  k ∈ billColumns -> numericHeader k = false -> clean s ->
  wellFormed r -> wellFormed (<[k := VStr s]> r).
Proof.
  intros Hk Hnum Hs [Hr Hprint]. split.
  - intros k'. destruct (decide (k' = k)) as [->|Hne].
    + rewrite decide_True by done. exists s. split; [done|].
      rewrite lookup_insert_eq. unfold parseCell. fold (numericHeader k).
      by rewrite Hnum.
    + rewrite lookup_insert_ne by done. apply Hr.
  - intros k' n Hn. destruct (decide (k' = k)) as [->|Hne].
    + by rewrite lookup_insert_eq in Hn.
    + rewrite lookup_insert_ne in Hn by done. by apply (Hprint k').
Qed.

(** X11.  A bill that a quick action has marked paid, unpaid or paid
    automatically is still so after the bills have been saved and read
    again: the text that [saveBillsToCSV] writes for the changed bills reads
    back as these bills.  The bills are as read from a bills file, and the
    date of today is a clean text, as an ISO date is. *)
Theorem marked_bills_persist (id todayIso : string) (st : state) :
  Forall wellFormed (bills (store st)) -> clean todayIso ->
  parseCSV (billsCSV (bills (store (billsActionMarkPaid id todayIso st))))
  = bills (store (billsActionMarkPaid id todayIso st))
  /\ parseCSV (billsCSV (bills (store (billsActionMarkUnpaid id st))))
     = bills (store (billsActionMarkUnpaid id st))
  /\ parseCSV (billsCSV (bills (store (billsActionToggleAutoPaid id st))))
     = bills (store (billsActionToggleAutoPaid id st)).
Proof.
  intros Hall Htoday.
  repeat split; apply parseCSV_billsCSV; simpl;
    (apply updateFirst_Forall; [|done]); intros b Hb.
  - apply wellFormed_insert; [by_evaluation|done|done|].
    apply wellFormed_insert; [by_evaluation|done|by_evaluation|done].
  - apply wellFormed_insert; [by_evaluation|done|by_evaluation|].
    apply wellFormed_insert; [by_evaluation|done|by_evaluation|done].
  - apply wellFormed_insert; [by_evaluation|done| |done].
    unfold toggledStatus. destruct (String.eqb _ _); by_evaluation.
Qed.

Lemma marked_bills_persist_witness :
  let st := State (Data (parseCSV CsvClaims.sampleText) [] [] [] []) "2024-01" [] [] in
  parseCSV (billsCSV (bills (store (billsActionMarkPaid "1" "2024-01-15" st))))
  = bills (store (billsActionMarkPaid "1" "2024-01-15" st)).
Proof.
  intros st.
  destruct (marked_bills_persist "1" "2024-01-15" st) as [H _].
  - unfold st. simpl.
    assert (billsHeader CsvClaims.sampleText) as Hhead by by_evaluation.
    eapply Forall_impl; [by apply parseCSV_billRecords|].
    intros r Hr. split; [done|]. by apply CsvClaims.billRecord_printable.
  - by_evaluation.
  - exact H.
Defined.

End PersistFacts.

(** ** The totals of the data helpers *)

Module TotalsFacts.
Import JsString JsNum JsConv JsVal Luxon App Views DataHelpers.
Import StringFacts CsvFacts NumberText NumFacts KpiClaims.

(** Where [Number] reads a finite number from a text without blanks in
    front, [parseFloat] reads the same number. *)
Lemma parse_decimal_parseFloat (t : string) (q : Qc) :
  trimStart t = t -> parse_decimal t = Fin q -> parseFloatText t = Fin q.
Proof.
  intros Ht. unfold parse_decimal, parseFloatText. rewrite Ht.
  destruct (read_sign t) as [sneg s1].
  destruct (String.eqb s1 "Infinity"); [by destruct sneg|].
  assert (startsWith "Infinity" s1 = true ->
          read_digits 10 0 0 s1 = (0%N, O, s1) /\ read_fraction s1 = (0%N, O, s1))
    as Hinf.
  { destruct s1 as [|c r]; [done|]. cbn [startsWith].
    destruct (Ascii.eqb_spec "I" c) as [<-|]; [|done]. done. }
  destruct (startsWith "Infinity" s1).
  { destruct (Hinf eq_refl) as [-> ->]. done. }
  destruct (read_digits 10 0 0 s1) as [[i ni] s2].
  destruct (read_fraction s2) as [[f nf] s3].
  destruct ni, nf; try done;
    by destruct (read_exponent s3) as [[e [|]]|].
Qed.

Lemma Qc_to_string_plain (q : Qc) : plain (Qc_to_string q).
Proof.
  unfold Qc_to_string. apply plain_append.
  { by destruct (Qnum q <? 0)%Z. }
  apply plain_append; [apply N_to_string_plain|].
  destruct (_ =? 0)%N; [done|].
  rewrite append_cons, append_nil_l. split; [done|].
  apply frac_digits_plain. apply N.mod_lt. done.
Qed.

(** [parseFloat] reads the text that [String] prints for a number back as
    that number, for every number that [Number] reads from a text. *)
Theorem parseFloat_reads_printed (s : string) :
  ofString s ≠ NaN ->
  parseFloatText (JsConv.toString (ofString s)) = ofString s.
Proof.
  intros Hnan. destruct (ofString_printable s Hnan) as (Hread & _ & Hne).
  destruct (ofString s) as [| | |q]; [done|by_evaluation|by_evaluation|].
  cbn [JsConv.toString] in *.
  pose proof (Qc_to_string_plain q) as Hplain.
  destruct (Qc_to_string q) as [|c r] eqn:Ht; [done|].
  apply parse_decimal_parseFloat.
  - apply startsSolid_trimStart. by apply plain_solid.
  - by rewrite <- ofString_plain.
Qed.

Lemma parseFloat_reads_printed_witness :
  parseFloatText (JsConv.toString (ofString "  -12.50 ")) = ofString "  -12.50 ".
Proof. apply parseFloat_reads_printed. by_evaluation. Defined.

(** An amount that is a number or missing, not a text. *)
Definition notText (v : jsval) : Prop :=
  match v with VStr _ => False | _ => True end.

Lemma parseFloat_amountOf (v : jsval) :
  notText v ->
  parseFloat (or v (VNum zero)) = amountOf v /\ floatOr0 v = amountOf v.
Proof.
  unfold floatOr0, amountOf, numberOr0, or.
  destruct v as [| |s|[| | |q]]; try done; simpl.
  destruct (bool_decide (q = 0%Qc)) eqn:Hq; simpl; [done|]. by rewrite Hq.
Qed.

(** The store with the incomes alone, and with the transactions alone. *)
Definition incomesAlone (st : state) : state :=
  withStore (setTab Transactions [] (store st)) st.

Definition transactionsAlone (st : state) : state :=
  withStore (setTab Income [] (store st)) st.

(** The loops of [calculateTotals] add the amounts one after the other to
    what they start from. *)
Lemma calculated_income (l : list (gmap string jsval)) (s : jsnum) :
  Forall (fun r => notText (get r "amount")) l ->
  fold_left (fun sum item => add sum (floatOr0 (get item "amount"))) l s
  = fold_left add (map amountIn l) s.
Proof.
  intros Hl. revert s. induction Hl as [|r l Hr _ IH]; intros s; [done|].
  cbn [fold_left map]. rewrite IH.
  by destruct (parseFloat_amountOf _ Hr) as [_ ->].
Qed.

Lemma calculated_gains (l : list (gmap string jsval)) (s : jsnum) :
  Forall (fun r => notText (get r "amount")) l ->
  fold_left (fun sum t => add sum (floatOr0 (get t "amount")))
    (filter (fun t => ltb zero (parseFloat (or (get t "amount") (VNum zero)))
                      = true) l) s
  = fold_left add (gains l) s.
Proof.
  intros Hl. revert s. induction Hl as [|r l Hr _ IH]; intros s; [done|].
  destruct (parseFloat_amountOf _ Hr) as [Hraw Hguard].
  rewrite gains_cons. fold (amountIn r) in Hraw, Hguard.
  destruct (ltb zero (amountIn r)) eqn:Hpos.
  - rewrite filter_cons_True by (by rewrite Hraw).
    cbn [fold_left]. by rewrite IH, Hguard.
  - rewrite filter_cons_False by (by rewrite Hraw, Hpos). apply IH.
Qed.

Lemma calculated_losses (l : list (gmap string jsval)) (s : jsnum) :
  Forall (fun r => notText (get r "amount")) l ->
  fold_left
    (fun sum t =>
       let v := abs (parseFloat (or (get t "amount") (VNum zero))) in
       add sum (if isNaN v then zero else v))
    (filter (fun t => ltb (parseFloat (or (get t "amount") (VNum zero))) zero
                      = true) l) s
  = fold_left add (losses l) s.
Proof.
  intros Hl. revert s. induction Hl as [|r l Hr _ IH]; intros s; [done|].
  destruct (parseFloat_amountOf _ Hr) as [Hraw _].
  rewrite losses_cons. fold (amountIn r) in Hraw.
  destruct (ltb (amountIn r) zero) eqn:Hneg.
  - rewrite filter_cons_True by (by rewrite Hraw).
    cbn [fold_left]. rewrite IH, Hraw. cbv zeta.
    by destruct (amountIn r) as [| | |q].
  - rewrite filter_cons_False by (by rewrite Hraw, Hneg). apply IH.
Qed.

Section WithDates.
Context {L : DateLib}.

Lemma ofMonth_all (ym : string) (l : list (gmap string jsval)) :
  Forall (fun r => datedIn ym (get r "date")) l -> ofMonth ym l = l.
Proof.
  intros Hl. apply CsvRoundTrip.filter_all.
  eapply Forall_impl; [exact Hl|]. intros r. apply inMonth_datedIn.
Qed.

(** X27.  [calculateTotals] looks at no dates, and adds two sums where
    the dashboard keeps one running sum.  When every income and every
    transaction of the store lies in the selected month, and every amount
    is a number or missing: its total expenses are those of the dashboard;
    its total income is the total income that the dashboard shows for the
    incomes alone plus the one it shows for the transactions alone; and
    where the store has no income or no transaction, its total income is
    that of the dashboard. *)
Theorem calculateTotals_parts (st : state) :
  Forall (fun r => datedIn (currentMonth st) (get r "date")
                   /\ notText (get r "amount")) (income (store st)) ->
  Forall (fun r => datedIn (currentMonth st) (get r "date")
                   /\ notText (get r "amount")) (transactions (store st)) ->
  DataHelpers.totalExpenses (calculateTotals (store st) true)
  = Views.totalExpenses (updateDashboardKPIs st)
  /\ DataHelpers.totalIncome (calculateTotals (store st) true)
     = add (Views.totalIncome (updateDashboardKPIs (incomesAlone st)))
           (Views.totalIncome (updateDashboardKPIs (transactionsAlone st)))
  /\ (income (store st) = [] \/ transactions (store st) = [] ->
      DataHelpers.totalIncome (calculateTotals (store st) true)
      = Views.totalIncome (updateDashboardKPIs st)).
Proof.
  intros Hinc Htx.
  assert (Forall (fun r => datedIn (currentMonth st) (get r "date"))
            (income (store st))
          /\ Forall (fun r => notText (get r "amount")) (income (store st)))
    as [Hinc1 Hinc2].
  { split; (eapply Forall_impl; [exact Hinc|]); by intros r [? ?]. }
  assert (Forall (fun r => datedIn (currentMonth st) (get r "date"))
            (transactions (store st))
          /\ Forall (fun r => notText (get r "amount")) (transactions (store st)))
    as [Htx1 Htx2].
  { split; (eapply Forall_impl; [exact Htx|]); by intros r [? ?]. }
  unfold calculateTotals, updateDashboardKPIs, incomesAlone, transactionsAlone.
  cbn [DataHelpers.totalIncome DataHelpers.totalExpenses
       Views.totalIncome Views.totalExpenses
       store currentMonth withStore setTab income transactions].
  rewrite !transaction_running, !income_running. cbn [fst snd].
  rewrite !ofMonth_all by (done || constructor).
  rewrite calculated_income, calculated_gains, calculated_losses by done.
  split; [done|]. split; [done|].
  intros [Hnone|Hnone]; rewrite Hnone.
  - change (gains []) with (@nil jsnum). cbn [map fold_left].
    apply add_zero_l.
  - change (gains []) with (@nil jsnum). cbn [map fold_left].
    apply add_zero_r.
Qed.

End WithDates.

Lemma calculateTotals_parts_witness :
  DataHelpers.totalExpenses
    (calculateTotals
       (store (DeleteFacts.deleteRows [(Transactions, "6")] DashboardFacts.january))
       true)
  = Views.totalExpenses
      (updateDashboardKPIs (L := Civil)
         (DeleteFacts.deleteRows [(Transactions, "6")] DashboardFacts.january)).
Proof.
  apply (calculateTotals_parts (L := Civil)).
  - repeat constructor; by_evaluation.
  - repeat constructor; by_evaluation.
Defined.

(** With a transaction of another month, or an amount that is a text with
    something after the number, the two part. *)
Example calculateTotals_differs :
  DataHelpers.totalExpenses (calculateTotals (store DashboardFacts.january) true)
  = ofZ 214
  /\ Views.totalExpenses (updateDashboardKPIs (L := Civil) DashboardFacts.january)
     = ofZ 115
  /\ floatOr0 (VStr "12 EUR") = ofZ 12
  /\ amountOf (VStr "12 EUR") = zero.
Proof. repeat split; by_evaluation. Qed.

End TotalsFacts.

(** ** The groups of the bills module *)

Module GroupFacts.
Import JsString JsNum JsVal Luxon BillsModule.

Section WithDates.
Context {L : DateLib}.
Variable plusDays : Z -> Z -> Z.

(** The group that [groupStep] pushes a bill to, as a number from 0 (overdue)
    to 3 (paid). *)
Definition sectionOf (now : Z) (b : gmap string jsval) : nat :=
  if bool_decide (get b "status" = VStr "Paid") then 3
  else match dueOf b with
       | Some due =>
           if due <? now then 0 else if due <=? plusDays now 7 then 1 else 2
       | None => 2
       end.

Lemma groupBills_loop (now : Z) (bills : list (gmap string jsval)) (g : groups) :
  fold_left (groupStep plusDays now) bills g
  = Groups (Overdue g ++ filter (fun b => sectionOf now b = 0%nat) bills)
           (DueSoon g ++ filter (fun b => sectionOf now b = 1%nat) bills)
           (Upcoming g ++ filter (fun b => sectionOf now b = 2%nat) bills)
           (Paid g ++ filter (fun b => sectionOf now b = 3%nat) bills).
Proof.
  revert g. induction bills as [|b bills IH]; intros g; cbn [fold_left].
  - rewrite !filter_nil, !app_nil_r. by destruct g.
  - rewrite IH, !filter_cons. unfold groupStep.
    remember (sectionOf now b) as k eqn:Hk. unfold sectionOf in Hk.
    destruct (bool_decide (get b "status" = VStr "Paid")).
    { subst k. cbn. by rewrite <- app_assoc. }
    destruct (dueOf b) as [due|].
    + destruct (due <? now).
      { subst k. cbn. by rewrite <- app_assoc. }
      destruct (due <=? plusDays now 7); subst k; cbn; by rewrite <- app_assoc.
    + subst k. cbn. by rewrite <- app_assoc.
Qed.

Local Ltac settle :=
  repeat split; intros;
  repeat match goal with
         | H : _ /\ _ |- _ => destruct H
         | H : _ \/ _ |- _ => destruct H
         | H : exists _, _ |- _ => destruct H
         end;
  simplify_eq; repeat split;
  try done; try lia;
  try (eexists; split; [reflexivity|lia]);
  try (right; eexists; split; [reflexivity|lia]);
  try (by left).

Lemma four_way {A} (sec : A -> nat) (l : list A) :
  (forall x, sec x < 4)%nat ->
  filter (fun x => sec x = 0%nat) l ++ filter (fun x => sec x = 1%nat) l
  ++ filter (fun x => sec x = 2%nat) l ++ filter (fun x => sec x = 3%nat) l
  ≡ₚ l.
Proof.
  intros Hsec. induction l as [|x l IH]; [done|].
  pose proof (Hsec x) as Hx.
  destruct (sec x) as [|[|[|[|n]]]] eqn:Hs; [| | | |lia].
  - rewrite filter_cons_True, !filter_cons_False by (done || congruence).
    cbn [app]. by rewrite IH.
  - rewrite filter_cons_False, filter_cons_True, !filter_cons_False
      by (done || congruence).
    cbn [app]. rewrite <- Permutation_middle. by rewrite IH.
  - rewrite !filter_cons_False, filter_cons_True, filter_cons_False
      by (done || congruence).
    cbn [app]. rewrite app_assoc, <- Permutation_middle, <- app_assoc.
    by rewrite IH.
  - rewrite !filter_cons_False, filter_cons_True by (done || congruence).
    rewrite !app_assoc, <- Permutation_middle, <- !app_assoc. by rewrite IH.
Qed.

(** X28.  The four groups of the list of the bills module.  Every bill stands
    in one group and in its place among the bills of that group.  The paid
    bills are those whose status is [Paid]; of the others, those with a
    valid due date before now are overdue, those due from now to seven
    days from now are due soon, and the rest, among them the bills without
    a valid due date, are upcoming. *)
Theorem groupBills_partition (now : Z) (bills : list (gmap string jsval)) :
  let g := groupBills plusDays now bills in
  Overdue g ++ DueSoon g ++ Upcoming g ++ Paid g ≡ₚ bills
  /\ sublist (Overdue g) bills /\ sublist (DueSoon g) bills
  /\ sublist (Upcoming g) bills /\ sublist (Paid g) bills
  /\ forall b : gmap string jsval,
       (b ∈ Paid g <-> b ∈ bills /\ get b "status" = VStr "Paid")
       /\ (b ∈ Overdue g
           <-> b ∈ bills /\ get b "status" ≠ VStr "Paid"
               /\ exists due : Z, dueOf b = Some due /\ due < now)
       /\ (b ∈ DueSoon g
           <-> b ∈ bills /\ get b "status" ≠ VStr "Paid"
               /\ exists due : Z,
                    dueOf b = Some due /\ now <= due <= plusDays now 7)
       /\ (b ∈ Upcoming g
           <-> b ∈ bills /\ get b "status" ≠ VStr "Paid"
               /\ (dueOf b = None
                   \/ exists due : Z,
                        dueOf b = Some due /\ now <= due
                        /\ plusDays now 7 < due)).
Proof.
  intros g. unfold g, groupBills. rewrite groupBills_loop.
  cbn [Overdue DueSoon Upcoming Paid app].
  split; [|split; [|split; [|split; [|split]]]]; try apply sublist_filter.
  - apply four_way. intros b. unfold sectionOf.
    destruct (bool_decide _); [lia|]. destruct (dueOf b); [|lia].
    destruct (_ <? _); [lia|]. destruct (_ <=? _); lia.
  - intros b. rewrite !list_elem_of_filter. unfold sectionOf.
    destruct (bool_decide_reflect (get b "status" = VStr "Paid")) as [Hp|Hp].
    { intuition congruence. }
    destruct (dueOf b) as [due|] eqn:Hdue.
    + destruct (Z.ltb_spec due now) as [Hlt|Hge]; [settle|].
      destruct (Z.leb_spec due (plusDays now 7)) as [Hle|Hgt]; settle.
    + settle.
Qed.

End WithDates.

Definition bill (name due status : string) : gmap string jsval :=
  {[ "name" := VStr name; "due" := VStr due; "status" := VStr status ]}.

Definition gym : gmap string jsval :=
  {[ "name" := VStr "Gym"; "status" := VStr "paid" ]}.

Example groupBills_example :
  groupBills (L := Civil) (fun t n => t + n * msPerDay) ScopeClaims.midMorning
    [ bill "Gas" "2024-01-30" "Upcoming"; bill "Rent" "2024-01-01" "Paid";
      bill "Water" "2024-01-15" "Upcoming"; bill "Phone" "2024-01-20" "Upcoming";
      gym ]
  = Groups [ bill "Water" "2024-01-15" "Upcoming" ]
           [ bill "Phone" "2024-01-20" "Upcoming" ]
           [ bill "Gas" "2024-01-30" "Upcoming"; gym ]
           [ bill "Rent" "2024-01-01" "Paid" ].
Proof. vm_compute. reflexivity. Qed.

End GroupFacts.
